(** * msc-tektonic: feature extraction, similarity search, transition scoring
      and the analysis job queue

    A shallow embedding of the TypeScript sources

      - lib/storage.ts          (manifests, track ids, duplicate detection)
      - lib/audio-analysis.ts   (tempo, key, envelope, energy, bars, phrases)
      - lib/analysis.ts         (bar and phrase vectors, key score, cosine)
      - lib/candidates.ts       (transition candidates, similarity search)
      - lib/recommendations.ts  (track recommendations)
      - lib/queue.ts, lib/worker.ts (job queue with retries, analysis handler)
      - app/api/upload/route.ts (POST /api/upload)

    Numeric model.  A JavaScript [number] is modelled by a real number:
    arithmetic is exact, [Math.sqrt] is [sqrt], [Math.floor] is [Zfloor].
    Rounding of IEEE doubles, NaN and the infinities are outside this model.
    Where they matter, the arithmetic is a parameter: the vector builders
    (which produce NaN and -Infinity from an empty window) and the two
    similarity searches (whose index of the reference vector divides by the
    duration, and whose scores are rounded) are written over an abstract
    arithmetic, so that what is proved of them holds for any arithmetic,
    doubles included; the exact arithmetic, with the division by zero of
    JavaScript, is one instance.

    Effects.  The file system under [storage/] is an explicit [Store]; the
    clock, [Math.random], ffmpeg/ffprobe and I/O faults are explicit inputs;
    a call that may throw returns a [completion]. *)

From Stdlib Require Import Reals Lra Lia ZArith List String Ascii Bool Arith.
From Stdlib Require Import Zfloor Sorting.Sorted Permutation DecimalString.
Import ListNotations.

Open Scope string_scope.
Open Scope list_scope.
Open Scope Z_scope.
Open Scope R_scope.

(* ================================================================== *)
(** * JavaScript basics *)
(* ================================================================== *)

Module Js.

(** The value a call completes with: a normal return or a thrown error. *)
Inductive exn : Type :=
| Error (message : string)
| TypeError (message : string).

Inductive completion (A : Type) : Type :=
| Normal (a : A)
| Throw (e : exn).
Arguments Normal {A} a.
Arguments Throw {A} e.

Definition bind {A B} (c : completion A) (k : A -> completion B) : completion B :=
  match c with
  | Normal a => k a
  | Throw e => Throw e
  end.

Definition message_of (e : exn) : string :=
  match e with
  | Error m => m
  | TypeError m => m
  end.

(** Comparisons of numbers as booleans. *)
Definition Rleb (x y : R) : bool := if Rle_dec x y then true else false.
Definition Rltb (x y : R) : bool := if Rlt_dec x y then true else false.
Definition Rgeb (x y : R) : bool := Rleb y x.
Definition Rgtb (x y : R) : bool := Rltb y x.
Definition Reqb (x y : R) : bool := if Req_dec_T x y then true else false.

(** [Math.floor], [Math.round] (half up) on numbers. *)
Definition floor (x : R) : Z := Zfloor x.
Definition round (x : R) : Z := Zfloor (x + 0.5).

(** [arr.slice(start, end)] for [0 <= start], [0 <= end]. *)
Definition slice {A} (l : list A) (s e : nat) : list A :=
  firstn (e - s) (skipn s l).

(** [arr.slice(0, k)] for an integer [k]: a negative [k] counts from the
    end of the array. *)
Definition slice0 {A} (l : list A) (k : Z) : list A :=
  if (k <? 0)%Z
  then firstn (Z.to_nat (Z.max (Z.of_nat (List.length l) + k) 0)) l
  else firstn (Z.to_nat k) l.

(** [arr.slice(-n)]: the last [n] elements. *)
Definition slice_last {A} (l : list A) (n : nat) : list A :=
  skipn (List.length l - n) l.

(** Characters of a string. *)
Definition is_digit (c : ascii) : bool :=
  let n := nat_of_ascii c in (48 <=? n)%nat && (n <=? 57)%nat.

Definition is_space (c : ascii) : bool :=
  let n := nat_of_ascii c in
  (n =? 32)%nat || ((9 <=? n)%nat && (n <=? 13)%nat).

Fixpoint skip_spaces (s : string) : string :=
  match s with
  | String c r => if is_space c then skip_spaces r else s
  | EmptyString => s
  end.

Fixpoint digits (s : string) (acc : option Z) : option Z :=
  match s with
  | String c r =>
      if is_digit c
      then digits r (Some (10 * match acc with Some a => a | None => 0 end
                           + Z.of_nat (nat_of_ascii c - 48))%Z)
      else acc
  | EmptyString => acc
  end.

(** [parseInt(s)] in radix 10: leading white space, an optional sign, the
    longest run of decimal digits, as an exact integer; [None] stands for
    NaN.  (The [0x] prefix of a hexadecimal literal and the rounding of
    long numbers to doubles are not modelled: no Camelot token has
    either.) *)
Definition parseInt (s : string) : option Z :=
  match skip_spaces s with
  | String "-" r => option_map Z.opp (digits r None)
  | String "+" r => digits r None
  | r => digits r None
  end.

(** [s.slice(-1)]: the last character, or the empty string. *)
Fixpoint last_char (s : string) : string :=
  match s with
  | EmptyString => EmptyString
  | String c EmptyString => s
  | String _ r => last_char r
  end.

(** [a === b] on the results of [parseInt]: NaN equals nothing. *)
Definition num_eq (a b : option Z) : bool :=
  match a, b with
  | Some x, Some y => (x =? y)%Z
  | _, _ => false
  end.

(** [Math.abs(a - b) === n] on the results of [parseInt]. *)
Definition absdiff_is (a b : option Z) (n : Z) : bool :=
  match a, b with
  | Some x, Some y => (Z.abs (x - y) =? n)%Z
  | _, _ => false
  end.

(** The value of [Math.floor((x / d) * n)] for numbers [x] and [d] and a
    length [n].  A division by zero gives no number to floor: [0 / 0] is NaN,
    [x / 0] is Infinity or -Infinity by the sign of [x], and Infinity times
    a length of 0 is NaN.  ([d] is a duration, never the negative zero.) *)
Inductive index_num : Type :=
| Finite (z : Z)
| PosInfinity
| NegInfinity
| NotANumber.

Definition floor_ratio (x d : R) (n : nat) : index_num :=
  if Reqb d 0 then
    if Reqb x 0 || (n =? 0)%nat then NotANumber
    else if Rltb 0 x then PosInfinity
    else NegInfinity
  else Finite (floor (x / d * INR n)).

(** [Math.min(i, m)] for an integer [m]. *)
Definition min_index (i : index_num) (m : Z) : index_num :=
  match i with
  | Finite z => Finite (Z.min z m)
  | PosInfinity => Finite m
  | NegInfinity => NegInfinity
  | NotANumber => NotANumber
  end.

(** [j === i] for a loop counter [j]. *)
Definition index_is (i : index_num) (j : nat) : bool :=
  match i with
  | Finite z => (Z.of_nat j =? z)%Z
  | _ => false
  end.

(** The property names that every plain object inherits from
    [Object.prototype]: [obj[key]] finds them although they are not own
    properties of [obj], and an assignment to ["__proto__"] stores no
    property. *)
Definition object_prototype_keys : list string :=
  [ "constructor"; "__defineGetter__"; "__defineSetter__"; "hasOwnProperty";
    "__lookupGetter__"; "__lookupSetter__"; "isPrototypeOf";
    "propertyIsEnumerable"; "toString"; "valueOf"; "__proto__";
    "toLocaleString" ]%string.

End Js.
Import Js.

(* ================================================================== *)
(** * lib/storage.ts: the data model *)
(* ================================================================== *)

Module Storage.

Inductive Status : Type := queued | processing | ready | error.

Definition Status_eqb (a b : Status) : bool :=
  match a, b with
  | queued, queued | processing, processing
  | ready, ready | error, error => true
  | _, _ => false
  end.

Record TrackSummary : Type := mkSummary {
  tempo_bpm : R;
  key : string;
  energy : R;
  duration : R;
  phrases : Z;
  bars : Z
}.

Record TrackManifest : Type := mkManifest {
  track_id : string;
  status : Status;
  artist : option string;
  title : option string;
  file_size : Z;
  file_path : string;
  content_digest : string;
  summary : option TrackSummary;
  error_reason : option string;
  created_at : string;
  updated_at : string
}.

(** What [loadFeatures] reads back from [features/] of one track. *)
Record Features : Type := mkFeatures {
  barVecs : list (list R);
  phraseVecs : list (list R);
  f_summary : TrackSummary;
  f_waveform : option (list R)
}.

(** [manifests.json] is one JSON object keyed by track id; [Object.values]
    enumerates it in insertion order, so it is kept as an association
    list with at most one entry per key.  This is how a JavaScript object
    behaves on keys like the track ids that [generateTrackId] makes (16
    hexadecimal digits): none of them is an array index, which would be
    enumerated first, and none is a name inherited from [Object.prototype]
    (see [object_prototype_keys]), which a lookup would find without its
    being stored. *)
Definition Manifests : Type := list (string * TrackManifest).

Fixpoint lookup (ms : Manifests) (id : string) : option TrackManifest :=
  match ms with
  | [] => None
  | (k, m) :: r => if String.eqb k id then Some m else lookup r id
  end.

(** [manifests[id] = m]: overwrite in place, or append a new property. *)
Fixpoint assign (ms : Manifests) (id : string) (m : TrackManifest) : Manifests :=
  match ms with
  | [] => [(id, m)]
  | (k, m0) :: r =>
      if String.eqb k id then (k, m) :: r else (k, m0) :: assign r id m
  end.

Definition values (ms : Manifests) : list TrackManifest := map snd ms.

(** The storage root: the manifests file, the feature directories and the
    set of paths that currently exist as audio files. *)
Record Store : Type := mkStore {
  manifests : Manifests;
  features : list (string * Features);
  files : list string
}.

Fixpoint lookup_features (fs : list (string * Features)) (id : string)
  : option Features :=
  match fs with
  | [] => None
  | (k, f) :: r => if String.eqb k id then Some f else lookup_features r id
  end.

Definition getManifest (st : Store) (id : string) : option TrackManifest :=
  lookup (manifests st) id.

Definition saveManifest (st : Store) (m : TrackManifest) : Store :=
  mkStore (assign (manifests st) (track_id m) m) (features st) (files st).

Definition file_exists (st : Store) (p : string) : bool :=
  existsb (String.eqb p) (files st).

(** [trackExists]: a manifest is recorded and its audio file is accessible. *)
Definition trackExists (st : Store) (id : string) : bool :=
  match getManifest st id with
  | None => false
  | Some m => file_exists st (file_path m)
  end.

End Storage.
Import Storage.

(* ================================================================== *)
(** * lib/analysis.ts: key score, cosine similarity, feature loading *)
(* ================================================================== *)

Module Analysis.

(** Key compatibility on the Camelot wheel. *)
Definition isKeyCompatible (keyA keyB : string) : bool :=
  if String.eqb keyA keyB then true
  else
    let numA := parseInt keyA in
    let numB := parseInt keyB in
    let letterA := last_char keyA in
    let letterB := last_char keyB in
    if num_eq numA numB && negb (String.eqb letterA letterB) then true
    else if String.eqb letterA letterB
              && (absdiff_is numA numB 1 || absdiff_is numA numB 11)
         then true
         else false.

Definition keyScore (keyA keyB : string) : R :=
  if String.eqb keyA keyB then 1.0
  else if isKeyCompatible keyA keyB then 0.5
  else 0.0.

Definition energyScore (energyA energyB : R) : R :=
  let diff := Rabs (energyA - energyB) in
  1 - Rmin diff 3 / 3.

(** [String(error)] for the error of [fs.readFile] on the first feature
    file when it is absent; the path is written relative to the working
    directory. *)
Definition read_error (id : string) : string :=
  "Error: ENOENT: no such file or directory, open 'storage/tracks/" ++ id
  ++ "/features/bar_vecs.json'".

(** [loadFeatures]: throws when the feature files of the track are absent;
    the message ends with the error that was caught. *)
Definition loadFeatures (st : Store) (id : string) : completion Features :=
  match lookup_features (features st) id with
  | Some f => Normal f
  | None =>
      Throw (Error ("Features not found for track " ++ id ++ ", error: "
                    ++ read_error id))
  end.

(** One turn of the loop of [cosineSimilarity]: the accumulators are
    [(dot, normA, normB)]. *)
Definition cos_step (acc : R * R * R) (p : R * R) : R * R * R :=
  let '(dot, normA, normB) := acc in
  (dot + fst p * snd p, normA + fst p * fst p, normB + snd p * snd p).

Definition cos_loop (vecA vecB : list R) : R * R * R :=
  fold_left cos_step (combine vecA vecB) (0, 0, 0).

Definition cosineSimilarity (vecA vecB : list R) : R :=
  if negb (List.length vecA =? List.length vecB)%nat then 0
  else
    let '(dot, normA, normB) := cos_loop vecA vecB in
    if Reqb normA 0 || Reqb normB 0 then 0
    else dot / (sqrt normA * sqrt normB).

(** The call as a completion: the body has no [throw], every path ends in
    [return]. *)
Definition cosineSimilarity_call (vecA vecB : list R) : completion R :=
  Normal (cosineSimilarity vecA vecB).

End Analysis.
Import Analysis.

(* ================================================================== *)
(** * Sub-scores shared by lib/candidates.ts and lib/recommendations.ts *)
(* ================================================================== *)

Module Scores.

Definition tempoScore (bpmA bpmB : R) : R :=
  let diff := Rabs (bpmA - bpmB) in
  if Reqb diff 0 then 1.0
  else if Rleb diff 2 then 0.95
  else if Rleb diff 5 then 0.85
  else if Rleb diff 10 then 0.70
  else if Rleb diff 15 then 0.50
  else if Rleb diff 20 then 0.30
  else 0.10.

Definition energyTransitionScore (energyA energyB : R) : R :=
  let diff := energyB - energyA in
  if Rleb (Rabs diff) 0.5 then 1.0
  else if Rgtb diff 0 && Rleb diff 2 then 0.90
  else if Rgtb diff 2 && Rleb diff 4 then 0.75
  else if Rltb diff 0 && Rgeb diff (-2) then 0.85
  else if Rltb diff (-2) && Rgeb diff (-4) then 0.70
  else if Rleb (Rabs diff) 6 then 0.50
  else 0.20.

Definition harmonicScore (keyA keyB : string) : R :=
  let baseScore := keyScore keyA keyB in
  if Rgeb baseScore 0.95 then 1.0
  else if Rgeb baseScore 0.85 then 0.95
  else if Rgeb baseScore 0.70 then 0.85
  else if Rgeb baseScore 0.50 then 0.65
  else baseScore * 0.5.

End Scores.
Import Scores.

(* ================================================================== *)
(** * Array.prototype.sort with the comparator [(a, b) => b.score - a.score] *)
(* ================================================================== *)

Module Sort.

Section Desc.
Context {A : Type}.
Variable score : A -> R.

(** The sort is stable: an element goes in front of the first element whose
    score is not larger than its own, and elements are inserted from the
    last to the first, so equal scores keep their original order. *)
Fixpoint insert_desc (x : A) (l : list A) : list A :=
  match l with
  | [] => [x]
  | y :: r => if Rleb (score y) (score x) then x :: y :: r
              else y :: insert_desc x r
  end.

Fixpoint sort_desc (l : list A) : list A :=
  match l with
  | [] => []
  | x :: r => insert_desc x (sort_desc r)
  end.

(** Descending order of the scores. *)
Definition desc (a b : A) : Prop := score b <= score a.

End Desc.

End Sort.
Import Sort.

(* ================================================================== *)
(** * lib/candidates.ts *)
(* ================================================================== *)

Module Candidates.

Record SubScores : Type := mkSubScores {
  s_key : R;
  s_energy : R;
  s_timing : R;
  s_contour : R;
  s_tempo : R
}.

Record TransitionCandidate : Type := mkCandidate {
  from_position : R;
  to_position : R;
  score : R;
  scores : SubScores
}.

(** [for (let i = a; i < b; i++)] *)
Definition range (a b : nat) : list nat := seq a (b - a).

(** The body of the inner loop for the pair [(i, j)]: the candidate that is
    built, before the threshold test. *)
Definition candidate_at (summaryA summaryB : TrackSummary)
    (phrasesA phrasesB : list (list R)) (i j : nat) : TransitionCandidate :=
  let kScore := harmonicScore (key summaryA) (key summaryB) in
  let eScore := energyTransitionScore (energy summaryA) (energy summaryB) in
  let tScore := tempoScore (tempo_bpm summaryA) (tempo_bpm summaryB) in
  let positionA := INR i / INR (List.length phrasesA) in
  let positionB := INR j / INR (List.length phrasesB) in
  let timingScore := 0.5 + 0.3 * (1 - positionA) + 0.2 * positionB in
  let contourScore := cosineSimilarity (nth i phrasesA []) (nth j phrasesB []) in
  let totalScore :=
    0.30 * kScore + 0.25 * tScore + 0.20 * eScore
    + 0.15 * timingScore + 0.10 * contourScore in
  mkCandidate
    (INR i / INR (List.length phrasesA) * duration summaryA)
    (INR j / INR (List.length phrasesB) * duration summaryB)
    totalScore
    (mkSubScores kScore eScore timingScore contourScore tScore).

(** The bounds of the two loops, with the products [n * 0.7] and [n * 0.3]
    taken exactly.  (In doubles [n * 0.7] can fall just below the exact
    product: [Math.floor(90 * 0.7)] is 62.  What is proved of the
    candidates holds for either start of the window;
    [generateCandidates_window] leaves room for both.) *)
Definition startA_of (phrasesA : list (list R)) : nat :=
  Z.to_nat (Z.max 0 (Js.floor (INR (List.length phrasesA) * 0.7))).

Definition endB_of (phrasesB : list (list R)) : nat :=
  Z.to_nat (Z.min (Z.of_nat (List.length phrasesB))
                  (Js.floor (INR (List.length phrasesB) * 0.3))).

(** The two nested loops: the candidates pushed, in the order pushed. *)
Definition collect (summaryA summaryB : TrackSummary)
    (phrasesA phrasesB : list (list R)) : list TransitionCandidate :=
  flat_map (fun i =>
    flat_map (fun j =>
      let c := candidate_at summaryA summaryB phrasesA phrasesB i j in
      if Rgtb (score c) 0.4 then [c] else [])
      (range 0 (endB_of phrasesB)))
    (range (startA_of phrasesA) (List.length phrasesA)).

Definition generateCandidates (st : Store) (trackA_id trackB_id : string)
    (k : Z) : completion (list TransitionCandidate) :=
  bind (loadFeatures st trackA_id) (fun featuresA =>
  bind (loadFeatures st trackB_id) (fun featuresB =>
    let manifestA := getManifest st trackA_id in
    let manifestB := getManifest st trackB_id in
    match option_map summary manifestA, option_map summary manifestB with
    | Some (Some summaryA), Some (Some summaryB) =>
        let candidates :=
          collect summaryA summaryB (phraseVecs featuresA) (phraseVecs featuresB) in
        Normal (slice0 (sort_desc score candidates) k)
    | _, _ => Throw (Error "Track summaries not available")
    end)).

Inductive Scope : Type := bar | phrase.

Record Hit : Type := mkHit {
  h_track_id : string;
  h_position : R;
  h_score : R
}.

(** [arr[i]] for a number [i] that holds an integer: [undefined] out of
    range. *)
Definition index {A} (l : list A) (i : Z) : option A :=
  if (i <? 0)%Z then None else nth_error l (Z.to_nat i).

Definition vectors_of (scope : Scope) (f : Features) : list (list R) :=
  match scope with
  | bar => barVecs f
  | phrase => phraseVecs f
  end.

(** [arr[i]] for any number [i]: [undefined] when [i] is NaN or infinite. *)
Definition at_index {A} (l : list A) (i : index_num) : option A :=
  match i with
  | Finite z => index l z
  | _ => None
  end.

(** The numbers of the searches are IEEE doubles.  What the three numeric
    expressions of the searches evaluate to is a parameter of the model, so
    that what is proved of a search holds for every arithmetic, that of
    doubles included. *)
Record SearchArith : Type := mkSearchArith {
  (* [cosineSimilarity(a, b)] on two arrays *)
  similarity : list R -> list R -> R;
  (* [Math.floor((position / duration) * length)] *)
  position_index : R -> R -> nat -> index_num;
  (* [(i / length) * duration] *)
  position_of : nat -> nat -> R -> R
}.

(** The arithmetic of exact real numbers. *)
Definition exact : SearchArith :=
  mkSearchArith cosineSimilarity floor_ratio
                (fun i n d => INR i / INR n * d).

Section Search.
Variable N : SearchArith.

(** The call [cosineSimilarity(refVec, v)], where [refVec] may be
    [undefined] (an index out of range): reading [.length] of it is a
    TypeError. *)
Definition similarity_opt (refVec : option (list R)) (v : list R)
  : completion R :=
  match refVec with
  | Some a => Normal (similarity N a v)
  | None =>
      Throw (TypeError "Cannot read properties of undefined (reading 'length')")
  end.

(** The index of the reference vector: [Math.min(idx, vectors.length - 1)]
    with [idx = Math.floor((position / duration) * vectors.length)]. *)
Definition ref_index (f : Features) (scope : Scope) (position : R)
  : index_num :=
  let vectors := vectors_of scope f in
  let idx := position_index N position (duration (f_summary f))
                            (List.length vectors) in
  min_index idx (Z.of_nat (List.length vectors) - 1).

Definition ref_vector (f : Features) (scope : Scope) (position : R)
  : option (list R) :=
  at_index (vectors_of scope f) (ref_index f scope position).

(** The inner loop over the vectors of one track, from index [i] on, with
    [n] vectors in all.  A throw of [cosineSimilarity] leaves the loop (it
    is caught by the [try] around the track) and keeps what was pushed. *)
Fixpoint scan_loop (refVec : option (list R)) (tid : string) (dur : R)
    (n : nat) (vs : list (list R)) (i : nat) (results : list Hit) : list Hit :=
  match vs with
  | [] => results
  | v :: r =>
      match similarity_opt refVec v with
      | Throw _ => results
      | Normal score =>
          scan_loop refVec tid dur n r (S i)
            (results ++ [mkHit tid (position_of N i n dur) score])
      end
  end.

(** One turn of the loop over [Object.values(manifests)]. *)
Definition scan_track (st : Store) (refVec : option (list R)) (scope : Scope)
    (results : list Hit) (manifest : TrackManifest) : list Hit :=
  if negb (Status_eqb (status manifest) ready) then results
  else match summary manifest with
  | None => results
  | Some _ =>
      match loadFeatures st (track_id manifest) with
      | Throw _ => results
      | Normal trackFeatures =>
          let vectors := vectors_of scope trackFeatures in
          scan_loop refVec (track_id manifest)
            (duration (f_summary trackFeatures))
            (List.length vectors) vectors 0 results
      end
  end.

(** All hits pushed by the corpus scan, before sorting and slicing. *)
Definition scan (st : Store) (refVec : option (list R)) (scope : Scope)
  : list Hit :=
  fold_left (scan_track st refVec scope) (values (manifests st)) [].

Definition searchSimilar (st : Store) (track_id : string) (position : R)
    (scope : Scope) (k : Z) : completion (list Hit) :=
  bind (loadFeatures st track_id) (fun features =>
    let refVec := ref_vector features scope position in
    let results := scan st refVec scope in
    Normal (slice0 (sort_desc h_score results) k)).

End Search.

End Candidates.

(* ================================================================== *)
(** * lib/recommendations.ts *)
(* ================================================================== *)

Module Recommendations.

Record RecScores : Type := mkRecScores {
  r_harmonic : R;
  r_tempo : R;
  r_energy : R;
  r_texture : R;
  r_phrase : R;
  r_overall : R
}.

Record Transition : Type := mkTransition {
  fromPosition : R;
  toPosition : R;
  t_score : R
}.

Record Segment : Type := mkSegment {
  seg_position : R;
  seg_score : R
}.

Record Track : Type := mkTrack {
  t_id : string;
  t_title : string;
  t_artist : string;
  t_bpm : R;
  t_key : string;
  t_energy : R;
  t_duration : R;
  t_phrases : Z;
  t_waveform : list R
}.

Record TrackRecommendation : Type := mkRecommendation {
  track : Track;
  rec_score : R;
  rec_scores : RecScores;
  bestTransition : option Transition;
  similarSegments : list Segment
}.

Definition textureSimilarity (vecA vecB : list R) : R :=
  cosineSimilarity vecA vecB.

(** [s || "Unknown"] for an optional string. *)
Definition or_unknown (s : option string) : string :=
  match s with
  | Some (String c r) => String c r
  | _ => "Unknown"
  end.

(** [acc.map((val, i) => val + (vec[i] || 0))] *)
Definition add_vec (acc vec : list R) : list R :=
  map (fun p => snd p + nth (fst p) vec 0)
      (combine (seq 0 (List.length acc)) acc).

(** The mean of the phrase vectors of a track, [[]] when it has none. *)
Definition avgPhrase (phrases : list (list R)) : list R :=
  match phrases with
  | [] => []
  | first :: _ =>
      map (fun sum => sum / INR (List.length phrases))
          (fold_left add_vec phrases (repeat 0 (List.length first)))
  end.

(** [phrases[Math.floor(phrases.length / 2)] || []] *)
Definition midPhrase (phrases : list (list R)) : list R :=
  nth (List.length phrases / 2) phrases [].

(** The state of [findBestTransition]: [(bestScore, bestFrom, bestTo)]. *)
Definition best_step (phrasesA phrasesB : list (list R)) (durationA durationB : R)
    (endPhrasesA startPhrasesB : list (list R))
    (best : R * R * R) (ij : nat * nat) : R * R * R :=
  let '(bestScore, _, _) := best in
  let similarity :=
    cosineSimilarity (nth (fst ij) endPhrasesA []) (nth (snd ij) startPhrasesB []) in
  if Rgtb similarity bestScore then
    let phraseIndexA :=
      (List.length phrasesA - List.length endPhrasesA + fst ij)%nat in
    let phraseIndexB := snd ij in
    (similarity,
     INR phraseIndexA / INR (List.length phrasesA) * durationA,
     INR phraseIndexB / INR (List.length phrasesB) * durationB)
  else best.

Definition findBestTransition (phrasesA phrasesB : list (list R))
    (durationA durationB : R) : option Transition :=
  let endPhrasesA := slice_last phrasesA 3 in
  let startPhrasesB := slice phrasesB 0 3 in
  let pairs :=
    flat_map (fun i => map (fun j => (i, j)) (seq 0 (List.length startPhrasesB)))
             (seq 0 (List.length endPhrasesA)) in
  let '(bestScore, bestFrom, bestTo) :=
    fold_left (best_step phrasesA phrasesB durationA durationB
                 endPhrasesA startPhrasesB) pairs (0, 0, 0) in
  if Rgtb bestScore 0.5 then Some (mkTransition bestFrom bestTo bestScore)
  else None.

(** The weighted overall score of one library track against the source. *)
Definition overall_of (harmonic tempo energy texture phrase : R) : R :=
  0.30 * harmonic + 0.25 * tempo + 0.20 * energy
  + 0.15 * texture + 0.10 * phrase.

Definition scores_for (sourceSummary trackSummary : TrackSummary)
    (sourcePhrases trackPhrases : list (list R)) : RecScores :=
  let harmonic := harmonicScore (key sourceSummary) (key trackSummary) in
  let tempo := tempoScore (tempo_bpm sourceSummary) (tempo_bpm trackSummary) in
  let energy :=
    energyTransitionScore (energy sourceSummary) (energy trackSummary) in
  let avgSourcePhrase := avgPhrase sourcePhrases in
  let avgTrackPhrase := avgPhrase trackPhrases in
  let texture :=
    if (0 <? List.length avgSourcePhrase)%nat
       && (0 <? List.length avgTrackPhrase)%nat
    then textureSimilarity avgSourcePhrase avgTrackPhrase
    else 0.5 in
  let phrase := cosineSimilarity (midPhrase sourcePhrases) (midPhrase trackPhrases) in
  mkRecScores harmonic tempo energy texture phrase
    (overall_of harmonic tempo energy texture phrase).

(** The phrase-level segments of the target similar to the source's middle
    phrase: the first five phrases, kept when the similarity exceeds 0.6. *)
Definition similar_segments (sourcePhrases trackPhrases : list (list R))
    (trackDuration : R) : list Segment :=
  flat_map (fun i =>
    let similarity :=
      cosineSimilarity (midPhrase sourcePhrases) (nth i trackPhrases []) in
    if Rgtb similarity 0.6
    then [mkSegment (INR i / INR (List.length trackPhrases) * trackDuration)
                    similarity]
    else [])
    (seq 0 (Nat.min 5 (List.length trackPhrases))).

(** One turn of the loop over the library. *)
Definition evaluate (st : Store) (sourceTrackId : string)
    (sourceSummary : TrackSummary) (sourcePhrases : list (list R))
    (minScore : R) (excludeTrackIds : list string)
    (recommendations : list TrackRecommendation) (manifest : TrackManifest)
  : list TrackRecommendation :=
  match summary manifest with
  | None => recommendations
  | Some trackSummary =>
      if negb (Status_eqb (status manifest) ready)
         || String.eqb (track_id manifest) sourceTrackId
         || existsb (String.eqb (track_id manifest)) excludeTrackIds
      then recommendations
      else match loadFeatures st (track_id manifest) with
      | Throw _ => recommendations
      | Normal trackFeatures =>
          let sc := scores_for sourceSummary trackSummary
                      sourcePhrases (phraseVecs trackFeatures) in
          if Rgeb (r_overall sc) minScore then
            recommendations ++
            [mkRecommendation
               (mkTrack (track_id manifest)
                  (or_unknown (title manifest)) (or_unknown (artist manifest))
                  (tempo_bpm trackSummary) (key trackSummary)
                  (energy trackSummary) (duration trackSummary)
                  (phrases trackSummary)
                  (match f_waveform trackFeatures with
                   | Some w => w | None => [] end))
               (r_overall sc) sc
               (findBestTransition sourcePhrases (phraseVecs trackFeatures)
                  (duration sourceSummary) (duration trackSummary))
               (slice (similar_segments sourcePhrases
                         (phraseVecs trackFeatures) (duration trackSummary)) 0 5)]
          else recommendations
      end
  end.

(** Everything pushed by the loop, before sorting and slicing. *)
Definition evaluated (st : Store) (sourceTrackId : string)
    (sourceSummary : TrackSummary) (sourcePhrases : list (list R))
    (minScore : R) (excludeTrackIds : list string) : list TrackRecommendation :=
  fold_left (evaluate st sourceTrackId sourceSummary sourcePhrases
               minScore excludeTrackIds)
            (values (manifests st)) [].

Definition recommendTracks (st : Store) (sourceTrackId : string)
    (limit : Z) (minScore : R) (excludeTrackIds : list string)
  : completion (list TrackRecommendation) :=
  bind (loadFeatures st sourceTrackId) (fun sourceFeatures =>
    match option_map summary (getManifest st sourceTrackId) with
    | Some (Some sourceSummary) =>
        Normal (slice0
                  (sort_desc rec_score
                     (evaluated st sourceTrackId sourceSummary
                        (phraseVecs sourceFeatures) minScore excludeTrackIds))
                  limit)
    | _ => Throw (Error "Source track summary not available")
    end).

End Recommendations.

(* ================================================================== *)
(** * lib/analysis.ts: bar and phrase vectors *)
(* ================================================================== *)

Module FeatureVectors.

(** The arithmetic the vector builders use.  Nothing is assumed of it: the
    shape of the vectors does not depend on the values, which for IEEE
    doubles include NaN ([nan]) and -Infinity ([max_of []]). *)
Record Arith : Type := mkArith {
  num : Type;
  zero : num;
  half : num;
  nan : num;                    (* NaN, as in [undefined + v] *)
  undef : num;                  (* an array hole read back by a spread *)
  of_nat : nat -> num;
  add : num -> num -> num;
  sub : num -> num -> num;
  mul : num -> num -> num;
  div : num -> num -> num;
  pow2 : num -> num;            (* [x ** 2] *)
  sqrt : num -> num;            (* [Math.sqrt] *)
  abs : num -> num;             (* [Math.abs] *)
  max_of : list num -> num      (* [Math.max(...xs)] *)
}.

Inductive outcome (A : Type) : Type :=
| Done (a : A)
| RangeError.
Arguments Done {A} a.
Arguments RangeError {A}.

Section Builders.
Variable N : Arith.
Local Abbreviation num := (num N).

(** [xs.reduce((sum, v) => sum + f(v), 0)] *)
Definition sum_by (f : num -> num) (xs : list num) : num :=
  fold_left (fun sum v => add N sum (f v)) xs (zero N).

(** The vector of bar [i]. *)
Definition bar_vector (waveform : list num) (barsPerSample i : nat) : list num :=
  let start := (i * barsPerSample)%nat in
  let end_ := Nat.min (start + barsPerSample) (List.length waveform) in
  let barSamples := slice waveform start end_ in
  let len := of_nat N (List.length barSamples) in
  let rms := sqrt N (div N (sum_by (fun v => mul N v v) barSamples) len) in
  let peak := max_of N barSamples in
  let mean := div N (sum_by (fun v => v) barSamples) len in
  let variance :=
    div N (sum_by (fun v => pow2 N (sub N v mean)) barSamples) len in
  slice ([rms; peak; mean; variance]
           ++ map (fun v => add N (mul N v (half N)) (half N))
                  (slice barSamples 0 124))
        0 128.

Definition generateBarVectors (waveform : list num) (barCount : nat)
  : list (list num) :=
  let barsPerSample := (List.length waveform / barCount)%nat in
  map (bar_vector waveform barsPerSample) (seq 0 barCount).

(** [meanVec[idx] += val]; [None] is a hole of the array.  Writing past the
    end extends the array, and [undefined + val] is NaN. *)
Fixpoint add_at (meanVec : list (option num)) (idx : nat) (val : num)
  : list (option num) :=
  match idx, meanVec with
  | O, Some x :: r => Some (add N x val) :: r
  | O, None :: r => Some (nan N) :: r
  | O, [] => [Some (nan N)]
  | S i, x :: r => x :: add_at r i val
  | S i, [] => None :: add_at [] i val
  end.

(** [bar.forEach((val, idx) => { meanVec[idx] += val })] from index [idx]. *)
Fixpoint add_bar (meanVec : list (option num)) (idx : nat) (bar : list num)
  : list (option num) :=
  match bar with
  | [] => meanVec
  | val :: r => add_bar (add_at meanVec idx val) (S idx) r
  end.

(** [reduce] skips the holes of an array. *)
Definition present (xs : list (option num)) : list num :=
  flat_map (fun o => match o with Some v => [v] | None => [] end) xs.

(** The vector of phrase [i]. *)
Definition phrase_vector (barVecs : list (list num)) (barsPerPhrase i : nat)
  : outcome (list num) :=
  let start := (i * barsPerPhrase)%nat in
  let end_ := Nat.min (start + barsPerPhrase) (List.length barVecs) in
  let phraseBars := slice barVecs start end_ in
  let meanVec :=
    fold_left (fun mv bar => add_bar mv 0 bar) phraseBars
              (repeat (Some (zero N)) 128) in
  let pooled :=
    map (option_map (fun val => div N val (of_nat N (List.length phraseBars))))
        meanVec in
  let energy :=
    div N (sum_by (fun v => v) (present (slice pooled 0 10))) (of_nat N 10) in
  let texture :=
    div N (sum_by (fun v => abs N (sub N v (half N)))
                  (present (slice pooled 10 20)))
          (of_nat N 10) in
  if (254 <? List.length pooled)%nat then RangeError
  else
    Done (slice (map (fun o => match o with Some v => v | None => undef N end)
                     pooled
                 ++ [energy; texture]
                 ++ repeat (zero N) (256 - List.length pooled - 2))
                0 256).

(** The loop stops at the first phrase whose construction throws. *)
Fixpoint collect_outcomes {A} (l : list (outcome A)) : outcome (list A) :=
  match l with
  | [] => Done []
  | RangeError :: _ => RangeError
  | Done a :: r =>
      match collect_outcomes r with
      | Done rs => Done (a :: rs)
      | RangeError => RangeError
      end
  end.

Definition generatePhraseVectors (barVecs : list (list num)) (phraseCount : nat)
  : outcome (list (list num)) :=
  let barsPerPhrase := (List.length barVecs / phraseCount)%nat in
  collect_outcomes (map (phrase_vector barVecs barsPerPhrase) (seq 0 phraseCount)).

(** What [saveFeatures] writes for a summary with [bars] bars and [phrases]
    phrases: the bar vectors and the phrase vectors. *)
Definition saveFeatures_vectors (waveform : list num) (bars phrases : nat)
  : outcome (list (list num) * list (list num)) :=
  let barVecs := generateBarVectors waveform bars in
  match generatePhraseVectors barVecs phrases with
  | Done phraseVecs => Done (barVecs, phraseVecs)
  | RangeError => RangeError
  end.

End Builders.

End FeatureVectors.

(* ================================================================== *)
(** * lib/audio-analysis.ts *)
(* ================================================================== *)

Module AudioAnalysis.

Record AudioMetadata : Type := mkMetadata {
  m_duration : R;
  m_sampleRate : R;
  m_channels : R;
  m_bitrate : Z;
  m_format : string
}.

Record AudioFeatures : Type := mkAudioFeatures {
  a_tempo_bpm : R;
  a_key : string;
  a_energy : R;
  a_duration : R;
  a_bars : Z;
  a_phrases : Z;
  a_waveform : list R
}.

(** What ffprobe answers for a file. *)
Inductive Probe : Type :=
| ProbeFailed (message : string)
| NoAudioStream
| Probed (format_duration : option R) (sample_rate : option R)
         (channels : option R) (bit_rate : option Z)
         (format_name : option string).

(** Everything the tools report about one audio file.  It is a function of
    the bytes of the file: the same file gives the same [FileView]. *)
Record FileView : Type := mkFileView {
  ffmpeg_available : bool;          (* [getFfmpeg()] is not null *)
  probe : Probe;                    (* ffprobe on the file *)
  stderr_bpm : option R;            (* first [BPM: n] line of the astats run *)
  wav : completion (list Z)         (* bytes of the mono 16-bit WAV *)
}.

(** [Math.random()]: the sequence of values it returns, and how many have
    been drawn. *)
Definition Random : Type := nat -> R.

(** [x || d] for an optional number: [undefined] and [0] give [d]. *)
Definition or_num (x : option R) (d : R) : R :=
  match x with
  | Some v => if Reqb v 0 then d else v
  | None => d
  end.

Definition getAudioMetadata (f : FileView) : completion AudioMetadata :=
  if negb (ffmpeg_available f) then
    Normal (mkMetadata 180 44100 2 320000 "mp3")
  else match probe f with
  | ProbeFailed msg => Throw (Error ("ffprobe failed: " ++ msg))
  | NoAudioStream => Throw (Error "No audio stream found")
  | Probed d sr ch br fmt =>
      Normal (mkMetadata (or_num d 0) (or_num sr 44100) (or_num ch 2)
                (match br with Some b => b | None => 0%Z end)
                (match fmt with
                 | Some (String c r) => String c r
                 | _ => "unknown" end))
  end.

(** [buffer.readInt16LE(i)] on a byte list. *)
Definition readInt16LE (lo hi : Z) : Z :=
  let u := (lo + 256 * hi)%Z in
  if (u <? 32768)%Z then u else (u - 65536)%Z.

(** The loop [for (i = 44; i < buffer.length - 1; i += 2)] on the bytes
    that follow the header. *)
Fixpoint samples_of (data : list Z) : list R :=
  match data with
  | lo :: hi :: r => IZR (readInt16LE lo hi) / 32768 :: samples_of r
  | _ => []
  end.

Definition extractSamplesFromWav (buffer : list Z) : list R :=
  samples_of (skipn 44 buffer).

Definition sum (xs : list R) : R := fold_left Rplus xs 0.

Definition downsampleToBars (samples : list R) (bars : nat) : list R :=
  let samplesPerBar := (List.length samples / bars)%nat in
  map (fun i =>
         let start := (i * samplesPerBar)%nat in
         let end_ := (start + samplesPerBar)%nat in
         let barSamples := slice samples start end_ in
         let rms :=
           sqrt (sum (map (fun s => s * s) barSamples)
                 / INR (List.length barSamples)) in
         Rmin 1 (rms * 2))
      (seq 0 bars).

(** [generateWaveform]: without ffmpeg a mock envelope of [bars] random
    values; with it, the RMS envelope of the decoded samples. *)
Definition generateWaveform (f : FileView) (bars : nat) (rnd : Random) (n : nat)
  : completion (list R) * nat :=
  if negb (ffmpeg_available f) then
    (Normal (map (fun i => 0.2 + rnd (n + i)%nat * 0.6) (seq 0 bars)),
     (n + bars)%nat)
  else match wav f with
  | Throw e => (Throw e, n)
  | Normal buffer =>
      (Normal (downsampleToBars (extractSamplesFromWav buffer) bars), n)
  end.

(** [estimateBPM]: the tempo printed by ffmpeg when there is one, else the
    fallback [120 + Math.random() * 20].  The fallback expression is
    evaluated on every path (in the [end] or [error] handler, or when ffmpeg
    is absent), so one random value is always drawn. *)
Definition estimateBPM (f : FileView) (rnd : Random) (n : nat) : R * nat :=
  let fallback := 120 + rnd n * 20 in
  if negb (ffmpeg_available f) then (fallback, S n)
  else match stderr_bpm f with
  | Some bpm => (bpm, S n)
  | None => (fallback, S n)
  end.

Definition camelotKeys : list string :=
  [ "1A"; "1B"; "2A"; "2B"; "3A"; "3B"; "4A"; "4B";
    "5A"; "5B"; "6A"; "6B"; "7A"; "7B"; "8A"; "8B";
    "9A"; "9B"; "10A"; "10B"; "11A"; "11B"; "12A"; "12B" ].

(** [estimateKey]: [camelotKeys[Math.floor(Math.random() * 24)]]; the file
    is not read. *)
Definition estimateKey (f : FileView) (rnd : Random) (n : nat) : string * nat :=
  (nth (Z.to_nat (Js.floor (rnd n * INR (List.length camelotKeys))))
       camelotKeys "",
   S n).

Definition calculateEnergy (tempo duration : R) (waveform : list R) : R :=
  let tempoNorm := (tempo - 100) / 20 in
  let avgRMS := sum waveform / INR (List.length waveform) in
  let peaks := List.length (filter (fun val => Rgtb val 0.7) waveform) in
  let density := INR peaks / INR (List.length waveform) in
  let energy := 0.5 + 0.5 * tempoNorm + 0.3 * density + 0.2 * avgRMS in
  Rmax 1 (Rmin 10 energy).

Definition analyzeAudioFile (f : FileView) (rnd : Random) (n : nat)
  : completion AudioFeatures * nat :=
  match getAudioMetadata f with
  | Throw e => (Throw e, n)
  | Normal metadata =>
      let '(tempo_bpm, n1) := estimateBPM f rnd n in
      let '(key, n2) := estimateKey f rnd n1 in
      match generateWaveform f 80 rnd n2 with
      | (Throw e, n3) => (Throw e, n3)
      | (Normal waveform, n3) =>
          let energy := calculateEnergy tempo_bpm (m_duration metadata) waveform in
          let beatsPerBar := 4 in
          let barsPerPhrase := 8 in
          let beats := m_duration metadata / 60 * tempo_bpm in
          let bars := Js.floor (beats / beatsPerBar) in
          let phrases := Js.floor (IZR bars / barsPerPhrase) in
          (Normal (mkAudioFeatures
                     (IZR (Js.round tempo_bpm))
                     key
                     (IZR (Js.round (energy * 10)) / 10)
                     (IZR (Js.round (m_duration metadata)))
                     (Z.max 1 bars)
                     (Z.max 1 phrases)
                     waveform),
           n3)
      end
  end.

End AudioAnalysis.

(* ================================================================== *)
(** * SHA-256 (FIPS 180-4), as computed by [createHash("sha256")] of Node *)
(* ================================================================== *)

Module Sha256.
Local Open Scope Z_scope.
Local Open Scope list_scope.

Definition w32 (x : Z) : Z := x mod 4294967296.
Definition rotr (n x : Z) : Z := Z.lor (Z.shiftr x n) (w32 (Z.shiftl x (32 - n))).
Definition shr (n x : Z) : Z := Z.shiftr x n.
Definition Ch (x y z : Z) : Z := Z.lxor (Z.land x y) (Z.land (Z.lxor x 4294967295) z).
Definition Maj (x y z : Z) : Z := Z.lxor (Z.lxor (Z.land x y) (Z.land x z)) (Z.land y z).
Definition Sigma0 (x : Z) : Z := Z.lxor (Z.lxor (rotr 2 x) (rotr 13 x)) (rotr 22 x).
Definition Sigma1 (x : Z) : Z := Z.lxor (Z.lxor (rotr 6 x) (rotr 11 x)) (rotr 25 x).
Definition sigma0 (x : Z) : Z := Z.lxor (Z.lxor (rotr 7 x) (rotr 18 x)) (shr 3 x).
Definition sigma1 (x : Z) : Z := Z.lxor (Z.lxor (rotr 17 x) (rotr 19 x)) (shr 10 x).

(** The constants are derived as the standard derives them: the round
    constants are the first 32 bits of the fractional parts of the cube
    roots of the first 64 primes, the initial hash value those of the square
    roots of the first 8 primes. *)
Definition is_prime (n : nat) : bool :=
  forallb (fun d => negb (n mod d =? 0)%nat) (seq 2 (n - 2)).

Definition primes : list Z :=
  map Z.of_nat (filter is_prime (seq 2 310)).

(** The integer cube root, by bisection between [lo] and [hi]. *)
Fixpoint icbrt (fuel : nat) (lo hi n : Z) : Z :=
  match fuel with
  | O => lo
  | S f =>
      let mid := (lo + hi + 1) / 2 in
      if mid * mid * mid <=? n then icbrt f mid hi n else icbrt f lo (mid - 1) n
  end.

Definition K : list Z :=
  Eval vm_compute in
    map (fun p => w32 (icbrt 48 0 (2 ^ 36) (p * 2 ^ 96))) (firstn 64 primes).

Definition H0 : list Z :=
  Eval vm_compute in
    map (fun p => w32 (Z.sqrt (p * 2 ^ 64))) (firstn 8 primes).

(** The [n] low bytes of [x], most significant first. *)
Fixpoint be_bytes (n : nat) (x : Z) : list Z :=
  match n with
  | O => []
  | S m => be_bytes m (x / 256) ++ [x mod 256]
  end.

Definition pad (msg : list Z) : list Z :=
  let len := Z.of_nat (List.length msg) in
  let zeros := Z.to_nat ((55 - len) mod 64) in
  msg ++ [128] ++ repeat 0 zeros ++ be_bytes 8 (8 * len).

Fixpoint words (fuel : nat) (bs : list Z) : list Z :=
  match fuel, bs with
  | S f, a :: b :: c :: d :: r => (((a * 256 + b) * 256 + c) * 256 + d) :: words f r
  | _, _ => []
  end.

Fixpoint schedule (fuel : nat) (win : list Z) : list Z :=
  match fuel with
  | O => []
  | S f =>
      let nw := w32 (sigma1 (nth 14 win 0) + nth 9 win 0
                     + sigma0 (nth 1 win 0) + nth 0 win 0) in
      nw :: schedule f (tl win ++ [nw])
  end.

Definition sha_round (s : list Z) (kw : Z * Z) : list Z :=
  match s with
  | [a; b; c; d; e; f; g; h] =>
      let t1 := h + Sigma1 e + Ch e f g + fst kw + snd kw in
      let t2 := Sigma0 a + Maj a b c in
      [w32 (t1 + t2); a; b; c; w32 (d + t1); e; f; g]
  | _ => s
  end.

Definition compress (h : list Z) (block : list Z) : list Z :=
  let w16 := words 16 block in
  let w := w16 ++ schedule 48 w16 in
  let s := fold_left sha_round (combine K w) h in
  map (fun p => w32 (fst p + snd p)) (combine h s).

Fixpoint blocks (fuel : nat) (h : list Z) (bs : list Z) : list Z :=
  match fuel with
  | O => h
  | S f =>
      match bs with
      | [] => h
      | _ => blocks f (compress h (firstn 64 bs)) (skipn 64 bs)
      end
  end.

Definition digest (msg : list Z) : list Z :=
  let p := pad msg in
  blocks (List.length p) H0 p.

Definition hex_digit (n : Z) : ascii :=
  ascii_of_nat (Z.to_nat (if n <? 10 then 48 + n else 87 + n)).

Definition hex_byte (b : Z) : string :=
  String (hex_digit (b / 16)) (String (hex_digit (b mod 16)) EmptyString).

Definition hex (bs : list Z) : string :=
  fold_right (fun b s => (hex_byte b ++ s)%string) EmptyString bs.

Definition bytes_of_string (s : string) : list Z :=
  map (fun c => Z.of_nat (nat_of_ascii c)) (list_ascii_of_string s).

Definition sha256_hex (msg : list Z) : string :=
  hex (flat_map (be_bytes 4) (digest msg)).
End Sha256.

(* ================================================================== *)
(** * lib/storage.ts: digests, track ids, file types *)
(* ================================================================== *)

Module Ids.

(** [calculateDigest]: the SHA-256 of the bytes of the upload, in hex. *)
Definition calculateDigest (buffer : list Z) : string :=
  Sha256.sha256_hex buffer.

(** [`${n}`] for a non-negative integer [n]. *)
Definition decimal (z : Z) : string := NilZero.string_of_int (Z.to_int z).

Definition or_empty (s : option string) : string :=
  match s with
  | Some v => v
  | None => ""
  end.

(** [generateTrackId]: the first 16 hex digits of the SHA-256 of
    [`${artist || ""}|${title || ""}|${fileSize}|${contentDigest}`]. *)
Definition generateTrackId (artist title : option string) (fileSize : Z)
    (contentDigest : string) : string :=
  let input :=
    (or_empty artist ++ "|" ++ or_empty title ++ "|" ++ decimal fileSize
     ++ "|" ++ contentDigest)%string in
  substring 0 16 (Sha256.sha256_hex (Sha256.bytes_of_string input)).

(** Paths are written relative to [process.cwd()]. *)
Definition getTrackPath (track_id extension : string) : string :=
  ("storage/tracks/" ++ track_id ++ "/audio." ++ extension)%string.

Definition lower (c : ascii) : ascii :=
  let n := nat_of_ascii c in
  if (65 <=? n)%nat && (n <=? 90)%nat then ascii_of_nat (n + 32) else c.

Fixpoint toLowerCase (s : string) : string :=
  match s with
  | EmptyString => EmptyString
  | String c r => String (lower c) (toLowerCase r)
  end.

(** [path.extname] of Node (POSIX): one scan of the path from its end.
    Trailing slashes are skipped, the scan stops at the separator before the
    last component, [startDot] is the last dot of that component and
    [preDotState] tells whether a character other than a dot precedes it. *)
Record ExtScan : Type := mkExtScan {
  startDot : option nat;
  startPart : nat;
  end_ : option nat;
  matchedSlash : bool;
  preDotState : Z
}.

(** The loop [for (i = path.length - 1; i >= 0; --i)] on the characters
    that remain, last one first. *)
Fixpoint ext_scan (rpath : list ascii) (i : nat) (s : ExtScan) : ExtScan :=
  match rpath with
  | [] => s
  | c :: r =>
      if Ascii.eqb c "/" then
        if negb (matchedSlash s) then
          mkExtScan (startDot s) (S i) (end_ s) (matchedSlash s) (preDotState s)
        else ext_scan r (pred i) s
      else
        let s1 :=
          match end_ s with
          | None =>
              mkExtScan (startDot s) (startPart s) (Some (S i)) false
                        (preDotState s)
          | Some _ => s
          end in
        let s2 :=
          if Ascii.eqb c "." then
            match startDot s1 with
            | None =>
                mkExtScan (Some i) (startPart s1) (end_ s1) (matchedSlash s1)
                          (preDotState s1)
            | Some _ =>
                mkExtScan (startDot s1) (startPart s1) (end_ s1)
                          (matchedSlash s1) 1
            end
          else
            match startDot s1 with
            | Some _ =>
                mkExtScan (startDot s1) (startPart s1) (end_ s1)
                          (matchedSlash s1) (-1)
            | None => s1
            end in
        ext_scan r (pred i) s2
  end.

Definition extname (path : string) : string :=
  let cs := list_ascii_of_string path in
  let s := ext_scan (rev cs) (List.length cs - 1)
                    (mkExtScan None 0 None true 0) in
  match startDot s, end_ s with
  | Some sd, Some e =>
      if (preDotState s =? 0)%Z
         || ((preDotState s =? 1)%Z && (sd =? e - 1)%nat
             && (sd =? startPart s + 1)%nat)
      then ""
      else string_of_list_ascii (slice cs sd e)
  | _, _ => ""
  end.

(** [path.extname(p).slice(1)] *)
Definition extname1 (p : string) : string :=
  match extname p with
  | String _ r => r
  | EmptyString => ""
  end.

(** The table [mimeMap] of [getExtension], read at its own keys.  (A
    lookup by a name inherited from [Object.prototype] finds a value that is
    no extension; see [object_prototype_keys].) *)
Definition mimeMap (mimeType : string) : option string :=
  if String.eqb mimeType "audio/mpeg" then Some "mp3"
  else if String.eqb mimeType "audio/mp3" then Some "mp3"
  else if String.eqb mimeType "audio/wav" then Some "wav"
  else if String.eqb mimeType "audio/wave" then Some "wav"
  else if String.eqb mimeType "audio/x-wav" then Some "wav"
  else if String.eqb mimeType "audio/flac" then Some "flac"
  else if String.eqb mimeType "audio/x-flac" then Some "flac"
  else if String.eqb mimeType "audio/m4a" then Some "m4a"
  else if String.eqb mimeType "audio/x-m4a" then Some "m4a"
  else None.

Definition getExtension (filename mimeType : string) : string :=
  let ext := toLowerCase (extname1 filename) in
  match ext with
  | String _ _ => ext
  | EmptyString =>
      match mimeType with
      | EmptyString => "mp3"
      | _ => match mimeMap mimeType with Some e => e | None => "mp3" end
      end
  end.

Definition validMimeTypes : list string :=
  [ "audio/mpeg"; "audio/mp3"; "audio/wav"; "audio/wave"; "audio/x-wav";
    "audio/flac"; "audio/x-flac"; "audio/m4a"; "audio/x-m4a" ].

Definition validExtensions : list string :=
  [ "mp3"; "wav"; "flac"; "m4a"; "ogg" ].

Definition includes (l : list string) (s : string) : bool :=
  existsb (String.eqb s) l.

Definition isValidAudio (mimeType extension : string) : bool :=
  includes validMimeTypes mimeType
  || includes validExtensions (toLowerCase extension).

End Ids.
Import Ids.

(* ================================================================== *)
(** * lib/queue.ts: the in-memory job queue *)
(* ================================================================== *)

Module Queue.

Record JobData : Type := mkJobData {
  d_track_id : string;
  d_path : string
}.

Record QueueJob : Type := mkJob {
  j_type : string;
  j_data : JobData;
  j_id : string;
  j_createdAt : string;
  retries : Z
}.

(** The queue object, the timers it has set ([setTimeout] delay in
    milliseconds and the job to push back), the storage root, and the number
    of handler bodies that reached the analysis so far. *)
Record World : Type := mkWorld {
  store : Store;
  jobs : list QueueJob;
  processing : bool;
  timers : list (Z * QueueJob);
  calls : nat
}.

(** A handler works on the store, may consult the outside world (indexed by
    the call counter) and completes normally or throws. *)
Definition Handler : Type :=
  Store -> nat -> JobData -> completion unit * Store * nat.

Definition Handlers : Type := string -> option Handler.

Definition with_retries (job : QueueJob) (r : Z) : QueueJob :=
  mkJob (j_type job) (j_data job) (j_id job) (j_createdAt job) r.

(** [publish]: a job with a fresh id and zero retries is pushed.  The call
    [this.process()] that follows is not awaited; the draining of the queue
    is the separate step [process]. *)
Definition publish (w : World) (type : string) (data : JobData)
    (id now : string) : World :=
  mkWorld (store w) (jobs w ++ [mkJob type data id now 0]) (processing w)
          (timers w) (calls w).

(** One turn of the [while] loop of [process] on the job just shifted. *)
Definition run_job (handlers : Handlers) (job : QueueJob)
    (s : Store * list (Z * QueueJob) * nat) : Store * list (Z * QueueJob) * nat :=
  let '(st, tm, n) := s in
  match handlers (j_type job) with
  | None => (st, tm, n)
  | Some handler =>
      match handler st n (j_data job) with
      | (Normal _, st', n') => (st', tm, n')
      | (Throw _, st', n') =>
          if (retries job <? 3)%Z then
            let job' := with_retries job (retries job + 1) in
            let delay := (2 ^ retries job' * 1000)%Z in
            (st', tm ++ [(delay, job')], n')
          else (st', tm, n')
      end
  end.

(** The loop [while (this.jobs.length > 0)]: a handler pushes no job, so the
    loop runs once per queued job. *)
Fixpoint run_jobs (handlers : Handlers) (js : list QueueJob)
    (s : Store * list (Z * QueueJob) * nat) : Store * list (Z * QueueJob) * nat :=
  match js with
  | [] => s
  | job :: r => run_jobs handlers r (run_job handlers job s)
  end.

Definition process (handlers : Handlers) (w : World) : World :=
  if processing w || (List.length (jobs w) =? 0)%nat then w
  else
    let '(st, tm, n) := run_jobs handlers (jobs w) (store w, timers w, calls w) in
    mkWorld st [] false tm n.

(** A timer fires: its job is pushed back and [process] is called.  Timers
    are taken in the order they were set. *)
Definition fire (handlers : Handlers) (w : World) : World :=
  match timers w with
  | [] => w
  | (_, job) :: tm =>
      process handlers
        (mkWorld (store w) (jobs w ++ [job]) (processing w) tm (calls w))
  end.

(** Drain the queue, then let timers fire until none is pending. *)
Fixpoint settle (fuel : nat) (handlers : Handlers) (w : World) : World :=
  match fuel with
  | O => w
  | S f =>
      match timers w with
      | [] => w
      | _ => settle f handlers (fire handlers w)
      end
  end.

Definition run (fuel : nat) (handlers : Handlers) (w : World) : World :=
  settle fuel handlers (process handlers w).

Definition getStats (w : World) : nat * bool :=
  (List.length (jobs w), processing w).

End Queue.
Import Queue.

(* ================================================================== *)
(** * lib/worker.ts: the handler of [analyze] jobs *)
(* ================================================================== *)

Module Worker.

(** What [analyzeTrack] does on its [n]-th call for a track and a path: it
    returns the summary, having written the feature files, or it throws.
    The outcome depends on ffmpeg and on [Math.random]; here it is an
    input. *)
Definition Analyzer : Type :=
  nat -> string -> string -> completion (TrackSummary * Features).

Fixpoint assign_features (fs : list (string * Features)) (id : string)
    (f : Features) : list (string * Features) :=
  match fs with
  | [] => [(id, f)]
  | (k, f0) :: r =>
      if String.eqb k id then (k, f) :: r else (k, f0) :: assign_features r id f
  end.

Definition saveFeatures (st : Store) (id : string) (f : Features) : Store :=
  mkStore (manifests st) (assign_features (features st) id f) (files st).

Definition with_status (m : TrackManifest) (s : Status)
    (sm : option TrackSummary) (reason : option string) (now : string)
  : TrackManifest :=
  mkManifest (track_id m) s (artist m) (title m) (file_size m) (file_path m)
             (content_digest m) sm reason (created_at m) now.

(** [error.message || "analysis_failed"] *)
Definition reason_of (e : exn) : string :=
  match message_of e with
  | EmptyString => "analysis_failed"
  | m => m
  end.

Definition handler (analyzeTrack : Analyzer) (now : string) : Handler :=
  fun st n data =>
  let track_id := d_track_id data in
  let path := d_path data in
  match getManifest st track_id with
  | None => (Throw (Error ("Manifest not found for track " ++ track_id)), st, n)
  | Some manifest =>
      match status manifest, summary manifest with
      | ready, Some _ => (Normal tt, st, n)
      | _, _ =>
          let manifest1 :=
            with_status manifest Storage.processing (summary manifest)
                        (error_reason manifest) now in
          let st1 := saveManifest st manifest1 in
          match analyzeTrack n track_id path with
          | Normal (summary, feats) =>
              let st2 := saveFeatures st1 track_id feats in
              let manifest2 :=
                with_status manifest1 ready (Some summary)
                            (error_reason manifest1) now in
              (Normal tt, saveManifest st2 manifest2, S n)
          | Throw e =>
              let manifest2 :=
                with_status manifest1 error (Storage.summary manifest1)
                            (Some (reason_of e)) now in
              (Throw e, saveManifest st1 manifest2, S n)
          end
      end
  end.

(** The registry after [analyzeQueue.on("analyze", ...)]. *)
Definition handlers (analyzeTrack : Analyzer) (now : string) : Handlers :=
  fun type =>
    if String.eqb type "analyze" then Some (handler analyzeTrack now) else None.

End Worker.

(* ================================================================== *)
(** * app/api/upload/route.ts: POST /api/upload *)
(* ================================================================== *)

Module Upload.

(** The [File] of the form: its name, its MIME type and its bytes. *)
Record File : Type := mkFile {
  f_name : string;
  f_type : string;
  f_bytes : list Z
}.

Definition size (f : File) : Z := Z.of_nat (List.length (f_bytes f)).

Record Request : Type := mkRequest {
  audio_file : option File;
  form_artist : option string;
  form_title : option string
}.

(** Faults of the collaborators during one request. *)
Record Faults : Type := mkFaults {
  saveFile_fails : bool;
  saveManifest_fails : bool;
  publish_fails : bool
}.

Definition no_faults : Faults := mkFaults false false false.

(** The JSON answer: the HTTP status and the fields of the body. *)
Record Response : Type := mkResponse {
  http_status : Z;
  body_error : option string;
  body_track_id : option string;
  body_status : option string
}.

(** [(formData.get(name) as string) || undefined] *)
Definition or_undefined (s : option string) : option string :=
  match s with
  | Some (String c r) => Some (String c r)
  | _ => None
  end.

Definition saveFile (st : Store) (path : string) : Store :=
  mkStore (manifests st) (features st) (path :: files st).

Definition unlink (st : Store) (path : string) : Store :=
  mkStore (manifests st) (features st)
          (filter (fun p => negb (String.eqb p path)) (files st)).

Definition with_store (w : World) (st : Store) : World :=
  mkWorld st (jobs w) (Queue.processing w) (timers w) (calls w).

(** [job_id] and [now] stand for the id drawn by [publish] and for the
    clock.  The request is a parsed form whose [audio_file] part, when there
    is one, is a file. *)
Definition POST (w : World) (request : Request) (faults : Faults)
    (job_id now : string) : Response * World :=
  let artist := or_undefined (form_artist request) in
  let title := or_undefined (form_title request) in
  match audio_file request with
  | None => (mkResponse 400 (Some "No audio file provided") None None, w)
  | Some audioFile =>
      let extension := getExtension (f_name audioFile) (f_type audioFile) in
      if negb (isValidAudio (f_type audioFile) extension) then
        (mkResponse 415 (Some "Invalid audio format") None None, w)
      else if (100 * 1024 * 1024 <? size audioFile)%Z then
        (mkResponse 413 (Some "File too large (max 100MB)") None None, w)
      else
        let buffer := f_bytes audioFile in
        let contentDigest := calculateDigest buffer in
        let track_id :=
          generateTrackId artist title (size audioFile) contentDigest in
        if trackExists (store w) track_id then
          (mkResponse 409 (Some "Track already exists") (Some track_id) None, w)
        else if saveFile_fails faults then
          (mkResponse 500 (Some "Storage failure") None None, w)
        else
          let filePath := getTrackPath track_id extension in
          let st1 := saveFile (store w) filePath in
          let manifest :=
            mkManifest track_id queued artist title (size audioFile) filePath
                       contentDigest None None now now in
          if saveManifest_fails faults then
            (mkResponse 500 (Some "Failed to save manifest") None None,
             with_store w (unlink st1 filePath))
          else
            let st2 := saveManifest st1 manifest in
            if publish_fails faults then
              let manifest' :=
                mkManifest track_id error artist title (size audioFile) filePath
                           contentDigest None (Some "queue_publish_failed")
                           now now in
              (mkResponse 500 (Some "Failed to enqueue analysis") None None,
               with_store w (saveManifest st2 manifest'))
            else
              (mkResponse 202 None (Some track_id) (Some "queued"),
               publish (with_store w st2) "analyze"
                       (mkJobData track_id filePath) job_id now)
  end.

End Upload.

(* ================================================================== *)
(** * lib/recommendations.ts: findSimilarSegments *)
(* ================================================================== *)

Module Segments.

Record Metadata : Type := mkMetadata {
  md_title : string;
  md_artist : string;
  md_bpm : R;
  md_key : string
}.

Record SegmentHit : Type := mkSegmentHit {
  sh_trackId : string;
  sh_position : R;
  sh_score : R;
  sh_type : Candidates.Scope;
  sh_metadata : Metadata
}.

Definition metadata_of (m : TrackManifest) (s : TrackSummary) : Metadata :=
  mkMetadata (Recommendations.or_unknown (title m))
             (Recommendations.or_unknown (artist m))
             (tempo_bpm s) (key s).

Section Search.
Variable N : Candidates.SearchArith.

(** The loop of the [withinTrack] branch, from index [i] on.  The index
    compared with [i] is the unclamped [positionIndex]; a throw of
    [cosineSimilarity] is not caught. *)
Fixpoint within_loop (refVec : option (list R)) (positionIndex : index_num)
    (trackId : string) (manifest : TrackManifest) (s : TrackSummary)
    (scope : Candidates.Scope) (minSimilarity : R) (n : nat)
    (vs : list (list R)) (i : nat) (results : list SegmentHit)
  : completion (list SegmentHit) :=
  match vs with
  | [] => Normal results
  | v :: r =>
      if index_is positionIndex i then
        within_loop refVec positionIndex trackId manifest s scope
                    minSimilarity n r (S i) results
      else
        match Candidates.similarity_opt N refVec v with
        | Throw e => Throw e
        | Normal score =>
            within_loop refVec positionIndex trackId manifest s scope
              minSimilarity n r (S i)
              (if Rgeb score minSimilarity
               then results ++ [mkSegmentHit trackId
                                  (Candidates.position_of N i n (duration s))
                                  score scope (metadata_of manifest s)]
               else results)
        end
  end.

(** The inner loop of the branch that searches the library; a throw leaves
    the loop and is caught by the [try] around the track. *)
Fixpoint across_loop (refVec : option (list R)) (trackManifest : TrackManifest)
    (s : TrackSummary) (scope : Candidates.Scope) (minSimilarity : R) (n : nat)
    (vs : list (list R)) (i : nat) (results : list SegmentHit)
  : list SegmentHit :=
  match vs with
  | [] => results
  | v :: r =>
      match Candidates.similarity_opt N refVec v with
      | Throw _ => results
      | Normal score =>
          across_loop refVec trackManifest s scope minSimilarity n r (S i)
            (if Rgeb score minSimilarity
             then results ++ [mkSegmentHit (track_id trackManifest)
                                (Candidates.position_of N i n (duration s))
                                score scope (metadata_of trackManifest s)]
             else results)
      end
  end.

(** One turn of the loop over the library. *)
Definition across_track (st : Store) (refVec : option (list R))
    (trackId : string) (scope : Candidates.Scope) (minSimilarity : R)
    (results : list SegmentHit) (trackManifest : TrackManifest)
  : list SegmentHit :=
  match summary trackManifest with
  | None => results
  | Some s =>
      if negb (Status_eqb (status trackManifest) ready)
         || String.eqb (track_id trackManifest) trackId
      then results
      else match loadFeatures st (track_id trackManifest) with
      | Throw _ => results
      | Normal trackFeatures =>
          let trackVectors := Candidates.vectors_of scope trackFeatures in
          across_loop refVec trackManifest s scope minSimilarity
                      (List.length trackVectors) trackVectors 0 results
      end
  end.

Definition findSimilarSegments (st : Store) (trackId : string) (position : R)
    (scope : Candidates.Scope) (limit : Z) (minSimilarity : R)
    (withinTrack : bool) : completion (list SegmentHit) :=
  bind (loadFeatures st trackId) (fun features =>
    match getManifest st trackId with
    | None => Throw (Error "Track summary not available")
    | Some manifest =>
        match summary manifest with
        | None => Throw (Error "Track summary not available")
        | Some s =>
            let vectors := Candidates.vectors_of scope features in
            let positionIndex :=
              Candidates.position_index N position (duration s)
                                        (List.length vectors) in
            let refVec :=
              Candidates.at_index vectors
                (min_index positionIndex (Z.of_nat (List.length vectors) - 1)) in
            bind
              (if withinTrack then
                 within_loop refVec positionIndex trackId manifest s scope
                             minSimilarity (List.length vectors) vectors 0 []
               else
                 Normal (fold_left
                           (across_track st refVec trackId scope minSimilarity)
                           (values (manifests st)) []))
              (fun results => Normal (slice0 (sort_desc sh_score results) limit))
        end
    end).

End Search.

End Segments.

(* ================================================================== *)
(** * app/api/worker/route.ts: POST /api/worker *)
(* ================================================================== *)

Module WorkerRoute.

Record Body : Type := mkBody {
  b_track_id : option string;
  b_path : option string
}.

Record Response : Type := mkResponse {
  http_status : Z;
  r_error : option string;
  r_track_id : option string;
  r_status : option string;
  r_message : option string;
  r_summary : option TrackSummary
}.

(** [!s] for an optional string: missing or empty. *)
Definition falsy (s : option string) : bool :=
  match s with
  | Some (String _ _) => false
  | _ => true
  end.

Definition POST (analyzeTrack : Worker.Analyzer) (now : string) (st : Store)
    (n : nat) (body : Body) : Response * Store * nat :=
  if falsy (b_track_id body) || falsy (b_path body) then
    (mkResponse 400 (Some "track_id and path are required") None None None
                 None,
     st, n)
  else
    let track_id := or_empty (b_track_id body) in
    let path := or_empty (b_path body) in
    match getManifest st track_id with
    | None => (mkResponse 404 (Some "Track not found") None None None None,
               st, n)
    | Some manifest =>
        match status manifest, summary manifest with
        | ready, Some _ =>
            (mkResponse 200 None (Some track_id) (Some "ready")
                        (Some "Already processed") None, st, n)
        | _, _ =>
            let manifest1 :=
              Worker.with_status manifest Storage.processing (summary manifest)
                                 (error_reason manifest) now in
            let st1 := saveManifest st manifest1 in
            match analyzeTrack n track_id path with
            | Normal (summary, feats) =>
                let st2 := Worker.saveFeatures st1 track_id feats in
                let manifest2 :=
                  Worker.with_status manifest1 ready (Some summary)
                                     (error_reason manifest1) now in
                (mkResponse 200 None (Some track_id) (Some "ready") None
                            (Some summary),
                 saveManifest st2 manifest2, S n)
            | Throw e =>
                let manifest2 :=
                  Worker.with_status manifest1 error (Storage.summary manifest1)
                                     (Some (Worker.reason_of e)) now in
                (mkResponse 500 (Some (message_of e)) (Some track_id)
                            (Some "error") None None,
                 saveManifest st1 manifest2, S n)
            end
        end
    end.

End WorkerRoute.

(* ================================================================== *)
(** * Notions used in the statements *)
(* ================================================================== *)

Module Notions.

(** The Camelot token of number [n] and letter [A] (minor) or [B] (major). *)
Definition token (n : Z) (minor : bool) : string :=
  (decimal n ++ (if minor then "A" else "B"))%string.

Definition all_tokens : list (Z * bool) :=
  flat_map (fun n => [(Z.of_nat n, true); (Z.of_nat n, false)]) (seq 1 12).

(** The relation of two tokens on the wheel, as the specification words
    it: 3 identical, 2 relative major/minor (same number, other letter),
    1 adjacent number with the same letter (1 and 12 wrap), 0 otherwise. *)
Definition wheel_relation (a b : Z * bool) : nat :=
  if (fst a =? fst b)%Z && Bool.eqb (snd a) (snd b) then 3
  else if (fst a =? fst b)%Z then 2
  else if Bool.eqb (snd a) (snd b)
          && ((Z.abs (fst a - fst b) =? 1)%Z || (Z.abs (fst a - fst b) =? 11)%Z)
       then 1
       else 0.

(** The same relation as the code decides it on the token strings. *)
Definition code_relation (keyA keyB : string) : nat :=
  if String.eqb keyA keyB then 3
  else if isKeyCompatible keyA keyB then
         if String.eqb (last_char keyA) (last_char keyB) then 1 else 2
       else 0.

(** The dot product of two vectors, over their common prefix. *)
Definition dot (a b : list R) : R :=
  fold_right (fun p s => fst p * snd p + s) 0 (combine a b).

(** A vector with no non-zero component, and one with no negative one. *)
Definition all_zero (v : list R) : Prop := Forall (fun x => x = 0) v.
Definition nonneg (v : list R) : Prop := Forall (fun x => 0 <= x) v.

(** The weighted sum of the sub-scores recorded in a candidate. *)
Definition weighted (c : Candidates.TransitionCandidate) : R :=
  0.30 * Candidates.s_key (Candidates.scores c)
  + 0.25 * Candidates.s_tempo (Candidates.scores c)
  + 0.20 * Candidates.s_energy (Candidates.scores c)
  + 0.15 * Candidates.s_timing (Candidates.scores c)
  + 0.10 * Candidates.s_contour (Candidates.scores c).

(** Every stored phrase vector has non-negative components only. *)
Definition nonneg_phrases (st : Store) : Prop :=
  forall id f, lookup_features (features st) id = Some f ->
               Forall nonneg (phraseVecs f).

(** The invariant of the manifests file: a manifest marked [ready] carries
    its summary.  It holds of the empty library and is kept by uploads and
    by the analysis handler. *)
Definition ready_with_summary (st : Store) : Prop :=
  forall id m, getManifest st id = Some m -> status m = ready ->
               summary m <> None.

(** A string of lower-case hexadecimal digits. *)
Definition is_hex_digit (c : ascii) : bool :=
  let n := nat_of_ascii c in
  ((48 <=? n)%nat && (n <=? 57)%nat) || ((97 <=? n)%nat && (n <=? 102)%nat).

Definition all_hex (s : string) : bool :=
  forallb is_hex_digit (list_ascii_of_string s).

(** What a job can still cost the queue: a job with [r] retries can be
    rescheduled [3 - r] more times.  The potential of the queue counts one
    firing for each pending timer and the timers its jobs can still set. *)
Definition job_weight (job : QueueJob) : nat := Z.to_nat (3 - retries job).

Definition timers_weight (tm : list (Z * QueueJob)) : nat :=
  list_sum (map (fun p => S (job_weight (snd p))) tm).

Definition jobs_weight (js : list QueueJob) : nat :=
  list_sum (map job_weight js).

Definition potential (w : World) : nat :=
  (timers_weight (timers w) + jobs_weight (jobs w))%nat.

(** The cells of [meanVec]: a hole, or a number that is not negative. *)
Definition cells_nonneg (mv : list (option R)) : Prop :=
  Forall (fun o => match o with Some x => 0 <= x | None => True end) mv.

(** A key that a plain object holds, and finds, as an own property. *)
Definition own_key (k : string) : Prop := ~ In k object_prototype_keys.

(** A call that throws an [Error] whose message starts with [p]. *)
Definition throws_starting {A} (c : completion A) (p : string) : Prop :=
  exists msg, c = Throw (Error msg) /\ prefix p msg = true.

(** A byte, a value [Math.random] can return, a value of an envelope. *)
Definition is_byte (b : Z) : Prop := (0 <= b < 256)%Z.
Definition unit_random (rnd : AudioAnalysis.Random) : Prop :=
  forall i, 0 <= rnd i < 1.
Definition in_unit (x : R) : Prop := 0 <= x <= 1.

End Notions.
Import Notions.

(* ================================================================== *)
(** * Sample stores *)
(* ================================================================== *)

Module Samples.

Definition manifest_of (id : string) (s : TrackSummary) : TrackManifest :=
  mkManifest id ready None None 1024 (getTrackPath id "mp3") "" (Some s) None
             "2024-01-01T00:00:00.000Z" "2024-01-01T00:00:01.000Z".

(** Two tracks close in tempo, key and energy. *)
Definition sA0 : TrackSummary := mkSummary 128 "8A" 7 180 1 8.
Definition sB0 : TrackSummary := mkSummary 129 "8B" 7.2 200 4 32.
Definition fA0 : Features := mkFeatures [] [[1; 0]] sA0 None.
Definition fB0 : Features :=
  mkFeatures [] [[1; 0]; [0; 1]; [1; 1]; [1; 0]] sB0 None.
Definition st0 : Store :=
  mkStore [("a", manifest_of "a" sA0); ("b", manifest_of "b" sB0)]
          [("a", fA0); ("b", fB0)] [].

(** The same audio uploaded under two titles: two ready tracks with the
    same summary and the same vectors. *)
Definition st_twins : Store :=
  mkStore [("a", manifest_of "a" sA0); ("b", manifest_of "b" sA0)]
          [("a", fA0); ("b", fA0)] [].

(** A track just uploaded, its [analyze] job, and analyses that fail a
    given number of times before they succeed. *)
Definition queued_manifest : TrackManifest :=
  mkManifest "t" queued None None 1024 (getTrackPath "t" "mp3") "" None None
             "2024-01-01T00:00:00.000Z" "2024-01-01T00:00:00.000Z".

Definition stq : Store :=
  mkStore [("t", queued_manifest)] [] [getTrackPath "t" "mp3"].

Definition job0 : QueueJob :=
  mkJob "analyze" (mkJobData "t" (getTrackPath "t" "mp3")) "1704067200000-k3x9q"
        "2024-01-01T00:00:00.000Z" 0.

Definition fails_then_succeeds (failures : nat) : Worker.Analyzer :=
  fun n _ _ =>
    if (n <? failures)%nat then Throw (Error "ffprobe failed: boom")
    else Normal (sA0, fA0).

(** An empty library, and a small upload. *)
Definition w_empty : World := mkWorld (mkStore [] [] []) [] false [] 0.

Definition riff : Upload.File :=
  Upload.mkFile "set-opener.wav" "audio/wav"
    [82; 73; 70; 70; 36; 0; 0; 0; 87; 65; 86; 69]%Z.

(** A decodable file: ffprobe reports 180 s, ffmpeg prints no BPM line, and
    the decoded WAV holds 80 samples of value 0.5 after its 44-byte
    header. *)
Definition view0 : AudioAnalysis.FileView :=
  AudioAnalysis.mkFileView true
    (AudioAnalysis.Probed (Some 180) (Some 44100) (Some 2) (Some 320000%Z)
                          (Some "mp3"))
    None
    (Normal (repeat 0%Z 44 ++ flat_map (fun _ => [0; 64]%Z) (seq 0 80))).

(** Two sequences of values for [Math.random]. *)
Definition random_low : AudioAnalysis.Random := fun _ => 0.
Definition random_mid : AudioAnalysis.Random := fun _ => 0.5.

(** Real arithmetic for the vector builders.  -Infinity and NaN have no
    real counterpart: this instance puts 0 in their place, and serves only
    to run the builders on windows that are not empty. *)
Definition real_arith : FeatureVectors.Arith :=
  FeatureVectors.mkArith R 0 0.5 0 0 INR Rplus Rminus Rmult Rdiv
    (fun x => x * x) sqrt Rabs
    (fun xs => match xs with [] => 0 | x :: r => fold_left Rmax r x end).

(** An envelope of 80 values, as [generateWaveform] builds it. *)
Definition envelope : list R := repeat 0.5 80.

End Samples.

(* ================================================================== *)
(** * Facts about the basics *)
(* ================================================================== *)

Section BasicFacts.

Lemma Rleb_true (x y : R) : Rleb x y = true <-> x <= y.
Proof. unfold Rleb; destruct (Rle_dec x y); split; intros; auto; discriminate. Qed.

Lemma Rleb_false (x y : R) : Rleb x y = false <-> y < x.
Proof.
  unfold Rleb; destruct (Rle_dec x y); split; intros;
    try discriminate; try lra; reflexivity.
Qed.

Lemma Rltb_true (x y : R) : Rltb x y = true <-> x < y.
Proof. unfold Rltb; destruct (Rlt_dec x y); split; intros; auto; discriminate. Qed.

Lemma Rltb_false (x y : R) : Rltb x y = false <-> y <= x.
Proof.
  unfold Rltb; destruct (Rlt_dec x y); split; intros;
    try discriminate; try lra; reflexivity.
Qed.

Lemma Reqb_true (x y : R) : Reqb x y = true <-> x = y.
Proof. unfold Reqb; destruct (Req_dec_T x y); split; intros; auto; discriminate. Qed.

Lemma Reqb_false (x y : R) : Reqb x y = false <-> x <> y.
Proof.
  unfold Reqb; destruct (Req_dec_T x y); split; intros;
    try discriminate; auto; contradiction.
Qed.

Lemma floor_eq (z : Z) (x : R) : IZR z <= x < IZR z + 1 -> Js.floor x = z.
Proof. apply Zfloor_eq. Qed.

Lemma In_firstn {A} (n : nat) (l : list A) (x : A) : In x (firstn n l) -> In x l.
Proof.
  revert n; induction l as [|y r IH]; intros [|n]; simpl; try tauto.
  intros [H|H]; [left; exact H|right; eapply IH; exact H].
Qed.

Lemma In_slice0 {A} (l : list A) (k : Z) (x : A) : In x (slice0 l k) -> In x l.
Proof.
  unfold slice0; destruct (k <? 0)%Z; intros H; eapply In_firstn; exact H.
Qed.

Lemma length_slice0 {A} (l : list A) (k : Z) :
  (0 <= k)%Z -> (Z.of_nat (List.length (slice0 l k)) <= k)%Z.
Proof.
  intros Hk. unfold slice0.
  destruct (Z.ltb_spec k 0); [lia|].
  pose proof (firstn_le_length (Z.to_nat k) l). rewrite length_firstn. lia.
Qed.

Lemma length_slice {A} (l : list A) (s e : nat) :
  List.length (slice l s e) = Nat.min (e - s) (List.length l - s).
Proof. unfold slice. rewrite length_firstn, length_skipn. reflexivity. Qed.

Lemma lookup_assign_same (ms : Manifests) (id : string) (m : TrackManifest) :
  lookup (assign ms id m) id = Some m.
Proof.
  induction ms as [|[k m0] r IH]; simpl.
  - rewrite String.eqb_refl. reflexivity.
  - destruct (String.eqb k id) eqn:E; simpl; rewrite E; auto.
Qed.

Lemma lookup_assign_other (ms : Manifests) (id id' : string) (m : TrackManifest) :
  id <> id' -> lookup (assign ms id m) id' = lookup ms id'.
Proof.
  intros Hne. induction ms as [|[k m0] r IH]; simpl.
  - destruct (String.eqb_spec id id'); [contradiction|reflexivity].
  - destruct (String.eqb_spec k id) as [->|Hk]; simpl.
    + destruct (String.eqb_spec id id'); [contradiction|reflexivity].
    + destruct (String.eqb k id'); auto.
Qed.

End BasicFacts.

(* ================================================================== *)
(** * Sorting facts *)
(* ================================================================== *)

Section SortFacts.
Context {A : Type}.
Variable score : A -> R.

Lemma insert_desc_perm (x : A) (l : list A) :
  Permutation (x :: l) (insert_desc score x l).
Proof.
  induction l as [|y r IH]; simpl; [reflexivity|].
  destruct (Rleb (score y) (score x)); [reflexivity|].
  etransitivity; [apply perm_swap|]. constructor. exact IH.
Qed.

Lemma sort_desc_perm (l : list A) : Permutation l (sort_desc score l).
Proof.
  induction l as [|x r IH]; simpl; [constructor|].
  etransitivity; [|apply insert_desc_perm]. constructor. exact IH.
Qed.

Lemma insert_desc_sorted (x : A) (l : list A) :
  StronglySorted (desc score) l ->
  StronglySorted (desc score) (insert_desc score x l).
Proof.
  induction l as [|y r IH]; simpl; intros Hs.
  - repeat constructor.
  - inversion Hs as [|? ? Hr Hall]; subst.
    destruct (Rleb (score y) (score x)) eqn:E.
    + apply Rleb_true in E. constructor; [exact Hs|].
      constructor; [exact E|].
      eapply Forall_impl; [|exact Hall]. unfold desc; intros; lra.
    + apply Rleb_false in E. constructor; [auto|].
      eapply Permutation_Forall; [apply insert_desc_perm|].
      constructor; [unfold desc; lra|exact Hall].
Qed.

Lemma sort_desc_sorted (l : list A) : StronglySorted (desc score) (sort_desc score l).
Proof.
  induction l as [|x r IH]; simpl; [constructor|].
  apply insert_desc_sorted; exact IH.
Qed.

Lemma firstn_sorted (n : nat) (l : list A) :
  StronglySorted (desc score) l -> StronglySorted (desc score) (firstn n l).
Proof.
  revert n; induction l as [|x r IH]; intros [|n] Hs; simpl; try constructor.
  - inversion Hs; subst; auto.
  - inversion Hs as [|? ? ? Hall]; subst.
    rewrite Forall_forall in *. intros y Hy. apply Hall.
    eapply In_firstn; exact Hy.
Qed.

Lemma slice0_sorted (k : Z) (l : list A) :
  StronglySorted (desc score) l -> StronglySorted (desc score) (slice0 l k).
Proof. unfold slice0; destruct (k <? 0)%Z; apply firstn_sorted. Qed.

Lemma In_sort_desc (x : A) (l : list A) : In x (sort_desc score l) <-> In x l.
Proof.
  split; intros H.
  - eapply Permutation_in; [symmetry; apply sort_desc_perm|exact H].
  - eapply Permutation_in; [apply sort_desc_perm|exact H].
Qed.

End SortFacts.

(* ================================================================== *)
(** * The sub-scores *)
(* ================================================================== *)

(** Case analysis on every comparison of numbers left in the goal. *)
Ltac split_cmp :=
  unfold Rgeb, Rgtb, Rleb, Rltb, Reqb in *;
  repeat match goal with
  | |- context [Rle_dec ?a ?b] => destruct (Rle_dec a b)
  | |- context [Rlt_dec ?a ?b] => destruct (Rlt_dec a b)
  | |- context [Req_dec_T ?a ?b] => destruct (Req_dec_T a b)
  end;
  simpl.

Section ScoreFacts.

Lemma camelotKeys_tokens :
  map (fun t => token (fst t) (snd t)) all_tokens = AudioAnalysis.camelotKeys.
Proof. vm_compute. reflexivity. Qed.

Lemma code_relation_on_wheel :
  forallb (fun a =>
    forallb (fun b =>
      (code_relation (token (fst a) (snd a)) (token (fst b) (snd b))
       =? wheel_relation a b)%nat) all_tokens) all_tokens = true.
Proof. vm_compute. reflexivity. Qed.

Lemma keyScore_cases (keyA keyB : string) :
  keyScore keyA keyB =
  if String.eqb keyA keyB then 1
  else if isKeyCompatible keyA keyB then 0.5 else 0.
Proof.
  unfold keyScore. destruct (String.eqb keyA keyB); [lra|].
  destruct (isKeyCompatible keyA keyB); lra.
Qed.

(** What [harmonicScore] returns, by the outcome of the two tests of
    [keyScore]: the branches for 0.95 and 0.85 are never taken. *)
Lemma harmonicScore_cases (keyA keyB : string) :
  harmonicScore keyA keyB =
  if String.eqb keyA keyB then 1
  else if isKeyCompatible keyA keyB then 0.65 else 0.
Proof.
  unfold harmonicScore. rewrite keyScore_cases.
  destruct (String.eqb keyA keyB); [|destruct (isKeyCompatible keyA keyB)];
    split_cmp; lra.
Qed.

Lemma harmonicScore_by_relation (keyA keyB : string) :
  harmonicScore keyA keyB =
  match code_relation keyA keyB with
  | 3%nat => 1
  | 0%nat => 0
  | _ => 0.65
  end.
Proof.
  rewrite harmonicScore_cases. unfold code_relation.
  destruct (String.eqb keyA keyB); [reflexivity|].
  destruct (isKeyCompatible keyA keyB); [|reflexivity].
  destruct (String.eqb (last_char keyA) (last_char keyB)); reflexivity.
Qed.

(** On the 24 Camelot tokens: identical keys score 1, relative and adjacent
    keys both score 0.65, every other pair scores 0. *)
Lemma harmonicScore_on_wheel (a b : Z * bool) :
  In a all_tokens -> In b all_tokens ->
  harmonicScore (token (fst a) (snd a)) (token (fst b) (snd b)) =
  match wheel_relation a b with
  | 3%nat => 1
  | 0%nat => 0
  | _ => 0.65
  end.
Proof.
  intros Ha Hb. rewrite harmonicScore_by_relation.
  pose proof code_relation_on_wheel as H.
  rewrite forallb_forall in H. specialize (H a Ha).
  rewrite forallb_forall in H. specialize (H b Hb).
  apply Nat.eqb_eq in H. rewrite H. reflexivity.
Qed.


Lemma tempoScore_range (a b : R) : 0.10 <= tempoScore a b <= 1.
Proof. unfold tempoScore. split_cmp; lra. Qed.

Lemma energyTransitionScore_range (a b : R) :
  0.20 <= energyTransitionScore a b <= 1.
Proof. unfold energyTransitionScore. split_cmp; lra. Qed.

Lemma tempoScore_same (a : R) : tempoScore a a = 1.
Proof.
  unfold tempoScore. replace (a - a) with 0 by lra. rewrite Rabs_R0.
  split_cmp; lra.
Qed.

Lemma tempoScore_sym (a b : R) : tempoScore a b = tempoScore b a.
Proof. unfold tempoScore. rewrite (Rabs_minus_sym a b). reflexivity. Qed.

Lemma energyTransitionScore_same (a : R) : energyTransitionScore a a = 1.
Proof.
  unfold energyTransitionScore. replace (a - a) with 0 by lra. rewrite Rabs_R0.
  split_cmp; lra.
Qed.

End ScoreFacts.

(** ** C3 *)

(** C3: [harmonicScore] on the Camelot wheel.  Identical keys score 1.0,
    but a relative major/minor pair ("8A", "8B") and an adjacent pair of the
    same letter ("8A", "9A", and "12B", "1B" across the wrap) score 0.65,
    where the table of the specification gives 0.95 and 0.85; an unrelated
    pair scores 0. *)
Theorem harmonicScore_relative_adjacent :
  harmonicScore "8A" "8A" = 1
  /\ harmonicScore "8A" "8B" = 0.65
  /\ harmonicScore "8A" "9A" = 0.65
  /\ harmonicScore "12B" "1B" = 0.65
  /\ harmonicScore "8A" "3B" = 0.
Proof.
  repeat split; rewrite harmonicScore_by_relation; vm_compute; lra.
Qed.

(* ================================================================== *)
(** * Cosine similarity *)
(* ================================================================== *)

Section CosineFacts.

(** The three sums kept by the loop, over a list of pairs. *)
Let sxy (l : list (R * R)) : R := fold_right (fun p s => fst p * snd p + s) 0 l.
Let sxx (l : list (R * R)) : R := fold_right (fun p s => fst p * fst p + s) 0 l.
Let syy (l : list (R * R)) : R := fold_right (fun p s => snd p * snd p + s) 0 l.

Lemma cos_loop_acc (l : list (R * R)) (d na nb : R) :
  fold_left cos_step l (d, na, nb) = (d + sxy l, na + sxx l, nb + syy l).
Proof.
  revert d na nb; induction l as [|p r IH]; intros d na nb; simpl.
  - f_equal; [f_equal|]; lra.
  - rewrite IH. f_equal; [f_equal|]; lra.
Qed.

Lemma sxx_dot (a b : list R) :
  List.length a = List.length b -> sxx (combine a b) = dot a a.
Proof.
  revert b; induction a as [|x r IH]; intros [|y s] H; simpl in *;
    try discriminate; [reflexivity|].
  unfold dot in *; simpl. rewrite (IH s); [reflexivity|lia].
Qed.

Lemma syy_dot (a b : list R) :
  List.length a = List.length b -> syy (combine a b) = dot b b.
Proof.
  revert b; induction a as [|x r IH]; intros [|y s] H; simpl in *;
    try discriminate; [reflexivity|].
  unfold dot in *; simpl. rewrite (IH s); [reflexivity|lia].
Qed.

Lemma cos_loop_dot (a b : list R) :
  List.length a = List.length b ->
  cos_loop a b = (dot a b, dot a a, dot b b).
Proof.
  intros H. unfold cos_loop. rewrite cos_loop_acc.
  rewrite (sxx_dot a b H), (syy_dot a b H).
  unfold dot, sxy. f_equal; [f_equal|]; lra.
Qed.

Lemma cosineSimilarity_unequal (a b : list R) :
  List.length a <> List.length b -> cosineSimilarity a b = 0.
Proof.
  intros H. unfold cosineSimilarity.
  destruct (Nat.eqb_spec (List.length a) (List.length b)); [contradiction|].
  reflexivity.
Qed.

Lemma cosineSimilarity_equal (a b : list R) :
  List.length a = List.length b ->
  cosineSimilarity a b =
  if Reqb (dot a a) 0 || Reqb (dot b b) 0 then 0
  else dot a b / (sqrt (dot a a) * sqrt (dot b b)).
Proof.
  intros H. unfold cosineSimilarity.
  rewrite (proj2 (Nat.eqb_eq _ _) H). simpl.
  rewrite (cos_loop_dot a b H). reflexivity.
Qed.

Lemma dot_self_nonneg (a : list R) : 0 <= dot a a.
Proof.
  unfold dot. induction a as [|x r IH]; simpl; [lra|]. nra.
Qed.

Lemma dot_self_zero (a : list R) : all_zero a -> dot a a = 0.
Proof.
  unfold dot, all_zero. induction 1 as [|x r Hx Hr IH]; simpl; [reflexivity|].
  rewrite IH, Hx. lra.
Qed.

Lemma dot_nonneg (a b : list R) : nonneg a -> nonneg b -> 0 <= dot a b.
Proof.
  unfold dot, nonneg. intros Ha; revert b.
  induction Ha as [|x r Hx Hr IH]; intros b Hb; simpl; [lra|].
  destruct Hb as [|y s Hy Hs]; simpl; [lra|].
  specialize (IH s Hs). nra.
Qed.




Lemma cosineSimilarity_nonneg (a b : list R) :
  nonneg a -> nonneg b -> 0 <= cosineSimilarity a b.
Proof.
  intros Pa Pb.
  destruct (Nat.eq_dec (List.length a) (List.length b)) as [H|H];
    [|rewrite cosineSimilarity_unequal by exact H; lra].
  rewrite (cosineSimilarity_equal a b H).
  destruct (Reqb (dot a a) 0) eqn:Ea; simpl; [lra|].
  destruct (Reqb (dot b b) 0) eqn:Eb; simpl; [lra|].
  apply Reqb_false in Ea, Eb.
  pose proof (dot_self_nonneg a) as Ha. pose proof (dot_self_nonneg b) as Hb.
  assert (HA : 0 < sqrt (dot a a)) by (apply sqrt_lt_R0; lra).
  assert (HB : 0 < sqrt (dot b b)) by (apply sqrt_lt_R0; lra).
  apply Rmult_le_pos; [apply dot_nonneg; assumption|].
  apply Rlt_le, Rinv_0_lt_compat. nra.
Qed.

Lemma cosineSimilarity_self (v : list R) :
  dot v v <> 0 -> cosineSimilarity v v = 1.
Proof.
  intros Hv. rewrite cosineSimilarity_equal by reflexivity.
  rewrite (proj2 (Reqb_false _ _) Hv). simpl.
  rewrite sqrt_sqrt by apply dot_self_nonneg.
  unfold Rdiv. apply Rinv_r. exact Hv.
Qed.

Lemma cosineSimilarity_zero (a b : list R) :
  all_zero a \/ all_zero b -> cosineSimilarity a b = 0.
Proof.
  intros Hz.
  destruct (Nat.eq_dec (List.length a) (List.length b)) as [H|H];
    [|rewrite cosineSimilarity_unequal by exact H; lra].
  rewrite (cosineSimilarity_equal a b H).
  destruct Hz as [Hz|Hz]; rewrite (dot_self_zero _ Hz).
  - rewrite (proj2 (Reqb_true 0 0) eq_refl). reflexivity.
  - rewrite (proj2 (Reqb_true 0 0) eq_refl), orb_true_r. reflexivity.
Qed.

End CosineFacts.

(** ** C5 *)

(** C5, the part that fails: on vectors of unequal length [cosineSimilarity]
    does not raise; the call completes normally and returns 0. *)
Lemma cosineSimilarity_unequal_returns :
  List.length [1] <> List.length [1; 2]
  /\ cosineSimilarity_call [1] [1; 2] = Normal 0.
Proof.
  split; [simpl; lia|].
  unfold cosineSimilarity_call. rewrite cosineSimilarity_unequal; [reflexivity|].
  simpl; lia.
Qed.

(** C5, amended: [cosineSimilarity a b] is the dot product over the product
    of the norms when the lengths agree and neither norm is zero; it
    returns 0 (and raises nothing) when the lengths differ; it returns 0
    when either vector is all-zero. *)
Theorem cosineSimilarity_amended (a b : list R) :
  (List.length a <> List.length b -> cosineSimilarity_call a b = Normal 0)
  /\ (all_zero a \/ all_zero b -> cosineSimilarity_call a b = Normal 0)
  /\ (List.length a = List.length b -> dot a a <> 0 -> dot b b <> 0 ->
      cosineSimilarity_call a b
      = Normal (dot a b / (sqrt (dot a a) * sqrt (dot b b)))).
Proof.
  unfold cosineSimilarity_call. repeat split.
  - intros H. rewrite cosineSimilarity_unequal by exact H. reflexivity.
  - intros H. rewrite cosineSimilarity_zero by exact H. reflexivity.
  - intros H Ha Hb. rewrite cosineSimilarity_equal by exact H.
    rewrite (proj2 (Reqb_false _ _) Ha), (proj2 (Reqb_false _ _) Hb).
    reflexivity.
Qed.

(** The formula at the vectors [3, 4] and [4, 3]. *)
Lemma cosineSimilarity_amended_witness :
  cosineSimilarity_call [3; 4] [4; 3]
  = Normal (dot [3; 4] [4; 3]
            / (sqrt (dot [3; 4] [3; 4]) * sqrt (dot [4; 3] [4; 3]))).
Proof.
  apply (proj2 (proj2 (cosineSimilarity_amended [3; 4] [4; 3]))).
  - reflexivity.
  - unfold dot; simpl; lra.
  - unfold dot; simpl; lra.
Defined.

(* ================================================================== *)
(** * Transition candidates *)
(* ================================================================== *)

Section CandidateFacts.
Import Candidates.

Lemma INR_ratio_range (i n : nat) : (i < n)%nat -> 0 <= INR i / INR n < 1.
Proof.
  intros H.
  assert (Hn : 0 < INR n) by (apply lt_0_INR; lia).
  assert (Hi : 0 <= INR i) by apply pos_INR.
  assert (Hin : INR i < INR n) by (apply lt_INR; exact H).
  split.
  - apply Rmult_le_pos; [exact Hi|]. apply Rlt_le, Rinv_0_lt_compat; exact Hn.
  - apply Rmult_lt_reg_r with (INR n); [exact Hn|].
    unfold Rdiv. rewrite Rmult_assoc, Rinv_l by lra. lra.
Qed.

Lemma endB_of_le (phrasesB : list (list R)) :
  (endB_of phrasesB <= List.length phrasesB)%nat.
Proof. unfold endB_of. lia. Qed.

Lemma In_range (a b i : nat) : In i (range a b) <-> (a <= i < b)%nat.
Proof. unfold range. rewrite in_seq. lia. Qed.

(** What the two loops push: the candidate of a pair of the two windows
    whose total passed the threshold. *)
Lemma In_collect (sA sB : TrackSummary) (pA pB : list (list R))
    (c : TransitionCandidate) :
  In c (collect sA sB pA pB) <->
  exists i j,
    (startA_of pA <= i < List.length pA)%nat /\ (j < endB_of pB)%nat
    /\ c = candidate_at sA sB pA pB i j /\ 0.4 < score c.
Proof.
  unfold collect. rewrite in_flat_map. split.
  - intros [i [Hi Hc]]. apply In_range in Hi.
    rewrite in_flat_map in Hc. destruct Hc as [j [Hj Hc]].
    apply In_range in Hj.
    destruct (Rgtb (score (candidate_at sA sB pA pB i j)) 0.4) eqn:E;
      [|contradiction].
    destruct Hc as [Hc|[]]. subst c.
    exists i, j. repeat split; try lia. apply Rltb_true in E. exact E.
  - intros [i [j [Hi [Hj [Hc Hs]]]]]. exists i. split; [apply In_range; lia|].
    rewrite in_flat_map. exists j. split; [apply In_range; lia|].
    subst c. unfold Rgtb. rewrite (proj2 (Rltb_true _ _) Hs). left; reflexivity.
Qed.

Lemma candidate_score (sA sB : TrackSummary) (pA pB : list (list R)) (i j : nat) :
  score (candidate_at sA sB pA pB i j)
  = 0.30 * harmonicScore (key sA) (key sB)
    + 0.25 * tempoScore (tempo_bpm sA) (tempo_bpm sB)
    + 0.20 * energyTransitionScore (energy sA) (energy sB)
    + 0.15 * (0.5 + 0.3 * (1 - INR i / INR (List.length pA))
                  + 0.2 * (INR j / INR (List.length pB)))
    + 0.10 * cosineSimilarity (nth i pA []) (nth j pB []).
Proof. reflexivity. Qed.

Lemma candidate_weighted (sA sB : TrackSummary) (pA pB : list (list R)) (i j : nat) :
  score (candidate_at sA sB pA pB i j)
  = weighted (candidate_at sA sB pA pB i j).
Proof. reflexivity. Qed.



End CandidateFacts.

(** The sample pair of tracks (tempi 128 and 129, keys "8A" and "8B",
    energies 7.0 and 7.2): the windows hold the single pair (0, 0), whose
    candidate scores 0.30*0.65 + 0.25*0.95 + 0.20*1 + 0.15*0.8 + 0.10*1. *)
Lemma generateCandidates_sample :
  exists c,
    Candidates.generateCandidates Samples.st0 "a" "b" 5 = Normal [c]
    /\ Candidates.score c = 0.8525
    /\ Candidates.s_key (Candidates.scores c) = 0.65
    /\ Candidates.s_tempo (Candidates.scores c) = 0.95
    /\ Candidates.s_energy (Candidates.scores c) = 1.
Proof.
  set (pA := [[1; 0]]). set (pB := [[1; 0]; [0; 1]; [1; 1]; [1; 0]]).
  assert (HsA : Candidates.startA_of pA = 0%nat).
  { unfold Candidates.startA_of, pA. simpl List.length.
    rewrite (floor_eq 0) by (simpl; lra). reflexivity. }
  assert (HeB : Candidates.endB_of pB = 1%nat).
  { unfold Candidates.endB_of, pB. simpl List.length.
    rewrite (floor_eq 1) by (simpl; lra). reflexivity. }
  assert (Hk : harmonicScore "8A" "8B" = 0.65).
  { rewrite harmonicScore_by_relation.
    replace (code_relation "8A" "8B") with 2%nat by (vm_compute; reflexivity).
    reflexivity. }
  assert (Ht : tempoScore 128 129 = 0.95).
  { unfold tempoScore. replace (Rabs (128 - 129)) with 1
      by (rewrite Rabs_left by lra; lra).
    split_cmp; lra. }
  assert (He : energyTransitionScore 7 7.2 = 1).
  { unfold energyTransitionScore. replace (Rabs (7.2 - 7)) with 0.2
      by (rewrite Rabs_right by lra; lra).
    split_cmp; lra. }
  assert (Hc : cosineSimilarity [1; 0] [1; 0] = 1).
  { apply cosineSimilarity_self. unfold dot; simpl. lra. }
  set (c := Candidates.candidate_at Samples.sA0 Samples.sB0 pA pB 0 0).
  assert (Hs : Candidates.score c = 0.8525).
  { unfold c. rewrite candidate_score.
    change (key Samples.sA0) with "8A". change (key Samples.sB0) with "8B".
    change (tempo_bpm Samples.sA0) with 128.
    change (tempo_bpm Samples.sB0) with 129.
    change (energy Samples.sA0) with 7. change (energy Samples.sB0) with 7.2.
    change (nth 0 pA []) with [1; 0]. change (nth 0 pB []) with [1; 0].
    rewrite Hk, Ht, He, Hc. simpl. lra. }
  exists c. split; [|split; [exact Hs|split; [exact Hk|split; [exact Ht|exact He]]]].
  unfold Candidates.generateCandidates.
  change (loadFeatures Samples.st0 "a") with (Normal Samples.fA0).
  change (loadFeatures Samples.st0 "b") with (Normal Samples.fB0).
  cbn [bind].
  change (getManifest Samples.st0 "a")
    with (Some (Samples.manifest_of "a" Samples.sA0)).
  change (getManifest Samples.st0 "b")
    with (Some (Samples.manifest_of "b" Samples.sB0)).
  cbn [option_map summary Samples.manifest_of].
  change (phraseVecs Samples.fA0) with pA. change (phraseVecs Samples.fB0) with pB.
  unfold Candidates.collect. rewrite HsA, HeB.
  change (List.length pA) with 1%nat.
  cbn [Candidates.range Nat.sub seq flat_map app]. fold c.
  unfold Rgtb. rewrite (proj2 (Rltb_true 0.4 (Candidates.score c)))
    by (rewrite Hs; lra).
  reflexivity.
Qed.

(** ** C7 *)

(** C7: for two tracks whose features and summaries are stored,
    [generateCandidates] returns; every candidate returned comes from a pair
    (i, j) of the two phrase windows, its score is
    0.30*harmonic + 0.25*tempo + 0.20*energy + 0.15*timing + 0.10*contour of
    that pair, and is at least 0.4 (the code tests [> 0.4]); the list is
    sorted by descending score and has at most [k] entries. *)
Theorem generateCandidates_spec (st : Store) (a b : string) (k : Z)
    (mA mB : TrackManifest) (sA sB : TrackSummary) (fA fB : Features) :
  getManifest st a = Some mA -> summary mA = Some sA ->
  getManifest st b = Some mB -> summary mB = Some sB ->
  loadFeatures st a = Normal fA -> loadFeatures st b = Normal fB ->
  (0 <= k)%Z ->
  exists cs,
    Candidates.generateCandidates st a b k = Normal cs
    /\ Forall (fun c =>
         (exists i j,
            (i < List.length (phraseVecs fA))%nat
            /\ (j < List.length (phraseVecs fB))%nat
            /\ Candidates.score c
               = 0.30 * harmonicScore (key sA) (key sB)
                 + 0.25 * tempoScore (tempo_bpm sA) (tempo_bpm sB)
                 + 0.20 * energyTransitionScore (energy sA) (energy sB)
                 + 0.15 * (0.5
                           + 0.3 * (1 - INR i / INR (List.length (phraseVecs fA)))
                           + 0.2 * (INR j / INR (List.length (phraseVecs fB))))
                 + 0.10 * cosineSimilarity (nth i (phraseVecs fA) [])
                                           (nth j (phraseVecs fB) []))
         /\ Candidates.score c = weighted c
         /\ 0.4 <= Candidates.score c) cs
    /\ StronglySorted (desc Candidates.score) cs
    /\ (Z.of_nat (List.length cs) <= k)%Z.
Proof.
  intros MA SA MB SB FA FB Hk.
  eexists. split.
  - unfold Candidates.generateCandidates.
    rewrite FA, FB; simpl. rewrite MA, MB; simpl. rewrite SA, SB. reflexivity.
  - split; [|split].
    + rewrite Forall_forall. intros c Hc.
      apply In_slice0 in Hc. apply In_sort_desc in Hc.
      apply In_collect in Hc. destruct Hc as [i [j [Hi [Hj [Hc Hs]]]]].
      pose proof (endB_of_le (phraseVecs fB)).
      split; [|split].
      * exists i, j. split; [lia|]. split; [lia|].
        subst c. apply candidate_score.
      * subst c. apply candidate_weighted.
      * lra.
    + apply slice0_sorted, sort_desc_sorted.
    + apply length_slice0. exact Hk.
Qed.

(** The theorem at the sample pair of tracks. *)
Lemma generateCandidates_spec_witness :
  exists cs,
    Candidates.generateCandidates Samples.st0 "a" "b" 5 = Normal cs
    /\ Forall (fun c => 0.4 <= Candidates.score c) cs
    /\ StronglySorted (desc Candidates.score) cs
    /\ (Z.of_nat (List.length cs) <= 5)%Z.
Proof.
  destruct (generateCandidates_spec Samples.st0 "a" "b" 5
              (Samples.manifest_of "a" Samples.sA0)
              (Samples.manifest_of "b" Samples.sB0)
              Samples.sA0 Samples.sB0 Samples.fA0 Samples.fB0)
    as [cs [Hrun [Hall [Hsorted Hlen]]]];
    try reflexivity; try lia.
  exists cs. repeat split; try assumption.
  eapply Forall_impl; [|exact Hall]. intros c [_ [_ H]]. exact H.
Defined.

(* ================================================================== *)
(** * Recommendations *)
(* ================================================================== *)

Section RecommendationFacts.
Import Recommendations.








Lemma recommendTracks_inv (st : Store) (src : string) (limit : Z)
    (minScore : R) (excl : list string) (rs : list TrackRecommendation) :
  recommendTracks st src limit minScore excl = Normal rs ->
  exists fS mS sS,
    loadFeatures st src = Normal fS
    /\ getManifest st src = Some mS /\ summary mS = Some sS
    /\ rs = slice0 (sort_desc rec_score
                      (evaluated st src sS (phraseVecs fS) minScore excl)) limit.
Proof.
  unfold recommendTracks. intros H.
  destruct (loadFeatures st src) as [fS|] eqn:EF; simpl in H; [|discriminate].
  destruct (getManifest st src) as [mS|] eqn:EM; simpl in H; [|discriminate].
  destruct (summary mS) as [sS|] eqn:ES; [|discriminate].
  inversion H; subst. exists fS, mS, sS. repeat split; auto.
Qed.


(** A turn of the loop that pushes: the track is ready, has a summary and
    features, is neither the source nor excluded, and reaches the minimum. *)
Lemma evaluate_emits (st : Store) (src : string) (sS : TrackSummary)
    (pS : list (list R)) (minScore : R) (excl : list string)
    (acc : list TrackRecommendation) (m : TrackManifest)
    (tS : TrackSummary) (tf : Features) :
  summary m = Some tS -> status m = ready ->
  String.eqb (track_id m) src = false ->
  existsb (String.eqb (track_id m)) excl = false ->
  loadFeatures st (track_id m) = Normal tf ->
  minScore <= r_overall (scores_for sS tS pS (phraseVecs tf)) ->
  exists r,
    evaluate st src sS pS minScore excl acc m = acc ++ [r]
    /\ rec_score r = r_overall (scores_for sS tS pS (phraseVecs tf)).
Proof.
  intros ES ET En Ex EF Hmin. unfold evaluate.
  rewrite ES, ET, En, Ex, EF. cbn [Status_eqb negb orb].
  unfold Rgeb. rewrite (proj2 (Rleb_true _ _) Hmin).
  eexists. split; reflexivity.
Qed.

(** A turn of the loop that skips the manifest. *)
Lemma evaluate_skips (st : Store) (src : string) (sS : TrackSummary)
    (pS : list (list R)) (minScore : R) (excl : list string)
    (acc : list TrackRecommendation) (m : TrackManifest) :
  status m <> ready \/ track_id m = src \/ summary m = None ->
  evaluate st src sS pS minScore excl acc m = acc.
Proof.
  intros H. unfold evaluate.
  destruct (summary m) eqn:ES; [|reflexivity].
  destruct H as [H|[H|H]]; [| |discriminate].
  - destruct (status m); try contradiction; reflexivity.
  - rewrite H, String.eqb_refl, orb_true_r. reflexivity.
Qed.

End RecommendationFacts.

(** ** C8 *)



(* ================================================================== *)
(** * Similarity search *)
(* ================================================================== *)

Section SearchFacts.
Import Candidates.

Variable N : SearchArith.

(** With a reference vector, the inner loop pushes one hit per vector. *)
Lemma scan_loop_some (v : list R) (tid : string) (dur : R) (n : nat)
    (vs : list (list R)) (i : nat) (acc : list Hit) :
  scan_loop N (Some v) tid dur n vs i acc
  = acc ++ map (fun p => mkHit tid (position_of N (fst p) n dur)
                              (similarity N v (snd p)))
               (combine (seq i (List.length vs)) vs).
Proof.
  revert i acc; induction vs as [|w r IH]; intros i acc; simpl.
  - rewrite app_nil_r. reflexivity.
  - rewrite IH. rewrite <- app_assoc. reflexivity.
Qed.

Lemma scan_track_keeps (st : Store) (refVec : option (list R)) (scope : Scope)
    (acc : list Hit) (m : TrackManifest) (h : Hit) :
  In h acc -> In h (scan_track N st refVec scope acc m).
Proof.
  intros H. unfold scan_track.
  destruct (negb (Status_eqb (status m) ready)); [exact H|].
  destruct (summary m); [|exact H].
  destruct (loadFeatures st (track_id m)) as [tf|]; [|exact H].
  destruct refVec as [v|].
  - rewrite scan_loop_some. apply in_or_app. left; exact H.
  - destruct (vectors_of scope tf); simpl; exact H.
Qed.

Lemma scan_fold_keeps (st : Store) (refVec : option (list R)) (scope : Scope)
    (ms : list TrackManifest) (acc : list Hit) (h : Hit) :
  In h acc -> In h (fold_left (scan_track N st refVec scope) ms acc).
Proof.
  revert acc; induction ms as [|m r IH]; intros acc H; simpl; [exact H|].
  apply IH. apply scan_track_keeps. exact H.
Qed.

Lemma In_combine_seq {A} (vs : list A) (s i : nat) (w : A) :
  nth_error vs i = Some w ->
  In ((s + i)%nat, w) (combine (seq s (List.length vs)) vs).
Proof.
  revert s i; induction vs as [|x r IH]; intros s [|i] H; simpl in *;
    try discriminate.
  - inversion H; subst. left. rewrite Nat.add_0_r. reflexivity.
  - right. replace (s + S i)%nat with (S s + i)%nat by lia. apply IH. exact H.
Qed.

(** A ready track with a summary and features contributes a hit for each
    of its vectors, whichever track the query came from. *)
Lemma scan_track_hits (st : Store) (v w : list R) (scope : Scope)
    (acc : list Hit) (m : TrackManifest) (tf : Features) (i : nat) :
  status m = ready -> summary m <> None ->
  loadFeatures st (track_id m) = Normal tf ->
  nth_error (vectors_of scope tf) i = Some w ->
  In (mkHit (track_id m)
            (position_of N i (List.length (vectors_of scope tf))
                         (duration (f_summary tf)))
            (similarity N v w))
     (scan_track N st (Some v) scope acc m).
Proof.
  intros ES ESum EF Hn. unfold scan_track. rewrite ES. simpl.
  destruct (summary m); [|contradiction]. rewrite EF.
  rewrite scan_loop_some. apply in_or_app. right.
  apply in_map_iff. exists (i, w). split; [reflexivity|].
  apply (In_combine_seq (vectors_of scope tf) 0 i w). exact Hn.
Qed.

Lemma scan_hits (st : Store) (v w : list R) (scope : Scope)
    (m : TrackManifest) (tf : Features) (i : nat) :
  In m (values (manifests st)) ->
  status m = ready -> summary m <> None ->
  loadFeatures st (track_id m) = Normal tf ->
  nth_error (vectors_of scope tf) i = Some w ->
  In (mkHit (track_id m)
            (position_of N i (List.length (vectors_of scope tf))
                         (duration (f_summary tf)))
            (similarity N v w))
     (scan N st (Some v) scope).
Proof.
  intros Hin ES ESum EF Hn. unfold scan.
  generalize (@nil Hit) as acc. revert Hin.
  generalize (values (manifests st)) as ms.
  induction ms as [|m0 r IH]; intros Hin acc; [contradiction|].
  simpl. destruct Hin as [->|Hin].
  - apply scan_fold_keeps. apply scan_track_hits; assumption.
  - apply IH. exact Hin.
Qed.

Lemma index_some {A} (l : list A) (i : Z) (x : A) :
  index l i = Some x -> (0 <= i)%Z /\ nth_error l (Z.to_nat i) = Some x.
Proof.
  unfold index. destruct (Z.ltb_spec i 0); [discriminate|]. auto.
Qed.

Lemma at_index_some {A} (l : list A) (i : index_num) (x : A) :
  at_index l i = Some x ->
  exists z, i = Finite z /\ (0 <= z)%Z /\ nth_error l (Z.to_nat z) = Some x.
Proof.
  destruct i as [z| | |]; simpl; try discriminate.
  intros H. apply index_some in H. exists z. tauto.
Qed.

(** Cutting a list sorted by descending score after [n] elements: an
    element of the list is kept, or [n] elements are kept whose scores are
    all at least its own. *)
Lemma firstn_cut {A} (score : A -> R) (x : A) (l : list A) :
  forall n,
  StronglySorted (desc score) l -> In x l ->
  In x (firstn n l)
  \/ (List.length (firstn n l) = n
      /\ Forall (fun y => score x <= score y) (firstn n l)).
Proof.
  induction l as [|y r IH]; intros n Hs Hin; [contradiction|].
  destruct n as [|n]; [right; split; [reflexivity|constructor]|].
  inversion Hs as [|? ? Hr Hall]; subst.
  destruct Hin as [->|Hin]; [left; left; reflexivity|].
  destruct (IH n Hr Hin) as [H|[Hl Hf]]; [left; right; exact H|].
  right. simpl. split; [rewrite Hl; reflexivity|].
  constructor; [|exact Hf].
  rewrite Forall_forall in Hall. exact (Hall x Hin).
Qed.

End SearchFacts.

(** ** C10 *)

(** C10, the part that fails: the query segment is not always in the
    result.  In a library that holds the same audio under two titles
    (tracks "a" and "b", with the same phrase vector), the query for the
    phrase of "b" with [k = 1] returns the phrase of "a", which ties with
    it and was scanned first; no hit of the query track is returned. *)
Lemma searchSimilar_self_cut :
  exists h,
    Candidates.searchSimilar Candidates.exact Samples.st_twins "b" 0
                             Candidates.phrase 1 = Normal [h]
    /\ Candidates.h_track_id h = "a"
    /\ Candidates.ref_vector Candidates.exact Samples.fA0 Candidates.phrase 0
       = Some [1; 0]
    /\ In (Candidates.mkHit "b" (INR 0 / INR 1 * 180)
                            (cosineSimilarity [1; 0] [1; 0]))
          (Candidates.scan Candidates.exact Samples.st_twins (Some [1; 0])
                           Candidates.phrase).
Proof.
  assert (Href : Candidates.ref_vector Candidates.exact Samples.fA0
                   Candidates.phrase 0 = Some [1; 0]).
  { unfold Candidates.ref_vector, Candidates.ref_index, Candidates.exact,
      floor_ratio.
    cbn [Candidates.position_index Candidates.vectors_of Samples.fA0
         phraseVecs f_summary Samples.sA0 duration List.length].
    rewrite (proj2 (Reqb_false 180 0)) by lra.
    replace (0 / 180 * INR 1) with (IZR 0) by (simpl; lra).
    unfold Js.floor. rewrite ZfloorZ. reflexivity. }
  assert (Hscan : Candidates.scan Candidates.exact Samples.st_twins
                    (Some [1; 0]) Candidates.phrase
                  = [Candidates.mkHit "a" (INR 0 / INR 1 * 180)
                                      (cosineSimilarity [1; 0] [1; 0]);
                     Candidates.mkHit "b" (INR 0 / INR 1 * 180)
                                      (cosineSimilarity [1; 0] [1; 0])]).
  { reflexivity. }
  eexists. split.
  { unfold Candidates.searchSimilar.
    change (loadFeatures Samples.st_twins "b") with (Normal Samples.fA0).
    cbn [bind]. rewrite Href, Hscan.
    unfold sort_desc, insert_desc. cbn [Candidates.h_score].
    rewrite (proj2 (Rleb_true (cosineSimilarity [1; 0] [1; 0])
                              (cosineSimilarity [1; 0] [1; 0]))) by lra.
    reflexivity. }
  split; [reflexivity|]. split; [exact Href|].
  rewrite Hscan. right. left. reflexivity.
Qed.

(** C10, amended: [searchSimilar] scans the query track like any other
    ready track.  For a query whose track has a ready manifest with a
    summary and whose position selects a reference vector [v] of the track,
    the scan pushes a hit for every vector of the query track, among them
    the hit of the reference segment itself, whose score is the similarity
    of [v] with itself.  The hits returned are the first [k] of the scan
    sorted by descending score: the query segment is among them when [k] is
    at least the number of hits, and otherwise it is among them or [k] hits
    are returned whose scores are all at least its own.  This holds for
    every arithmetic. *)
Theorem searchSimilar_includes_query (N : Candidates.SearchArith) (st : Store)
    (tid : string) (position : R) (scope : Candidates.Scope) (k : Z)
    (f : Features) (m : TrackManifest) (v : list R) (idx : Z) :
  loadFeatures st tid = Normal f ->
  In m (values (manifests st)) -> track_id m = tid ->
  status m = ready -> summary m <> None ->
  Candidates.ref_index N f scope position = Finite idx ->
  Candidates.index (Candidates.vectors_of scope f) idx = Some v ->
  (0 <= k)%Z ->
  let n := List.length (Candidates.vectors_of scope f) in
  let scanned := Candidates.scan N st (Some v) scope in
  let self :=
    Candidates.mkHit tid
      (Candidates.position_of N (Z.to_nat idx) n (duration (f_summary f)))
      (Candidates.similarity N v v) in
  let result := slice0 (sort_desc Candidates.h_score scanned) k in
  Candidates.searchSimilar N st tid position scope k = Normal result
  /\ In self scanned
  /\ (forall i w,
        nth_error (Candidates.vectors_of scope f) i = Some w ->
        In (Candidates.mkHit tid
              (Candidates.position_of N i n (duration (f_summary f)))
              (Candidates.similarity N v w))
           scanned)
  /\ (In self result
      \/ (Z.of_nat (List.length result) = k
          /\ Forall (fun h => Candidates.h_score self <= Candidates.h_score h)
                    result))
  /\ ((Z.of_nat (List.length scanned) <= k)%Z -> In self result).
Proof.
  intros EF Hin Hid ES ESum Hidx Href Hk n scanned self result.
  assert (Hself : In self scanned).
  { apply index_some in Href. destruct Href as [_ Hn]. subst tid.
    apply (scan_hits N st v v scope m f (Z.to_nat idx)); assumption. }
  assert (Hcut : result = firstn (Z.to_nat k)
                            (sort_desc Candidates.h_score scanned)).
  { unfold result, slice0. destruct (Z.ltb_spec k 0); [lia|reflexivity]. }
  split.
  { unfold Candidates.searchSimilar. rewrite EF. cbn [bind].
    unfold Candidates.ref_vector. rewrite Hidx. cbn [Candidates.at_index].
    rewrite Href. reflexivity. }
  split; [exact Hself|].
  split.
  { intros i w Hn. subst tid.
    apply (scan_hits N st v w scope m f i); assumption. }
  split.
  - rewrite Hcut.
    destruct (firstn_cut Candidates.h_score self
                (sort_desc Candidates.h_score scanned) (Z.to_nat k)
                (sort_desc_sorted _ _)) as [H|[Hl Hf]].
    + apply In_sort_desc. exact Hself.
    + left. exact H.
    + right. split; [rewrite Hl; lia|exact Hf].
  - intros Hall. rewrite Hcut. rewrite firstn_all2.
    + apply In_sort_desc. exact Hself.
    + rewrite <- (Permutation_length (sort_desc_perm _ _)).
      fold scanned. lia.
Qed.

(** The query at position 0 of track "b" of the sample library, in exact
    arithmetic. *)
Lemma searchSimilar_includes_query_witness :
  In (Candidates.mkHit "b" (INR 0 / INR 4 * 200) (cosineSimilarity [1; 0] [1; 0]))
     (Candidates.scan Candidates.exact Samples.st0 (Some [1; 0])
                      Candidates.phrase).
Proof.
  assert (Hidx : Candidates.ref_index Candidates.exact Samples.fB0
                   Candidates.phrase 0 = Finite 0).
  { unfold Candidates.ref_index, Candidates.exact, floor_ratio.
    cbn [Candidates.position_index Candidates.vectors_of Samples.fB0
         phraseVecs f_summary Samples.sB0 duration List.length].
    rewrite (proj2 (Reqb_false 200 0)) by lra.
    replace (0 / 200 * INR 4) with (IZR 0) by (simpl; lra).
    unfold Js.floor. rewrite ZfloorZ. reflexivity. }
  exact (proj1 (proj2
    (searchSimilar_includes_query Candidates.exact Samples.st0 "b" 0
       Candidates.phrase 5 Samples.fB0 (Samples.manifest_of "b" Samples.sB0)
       [1; 0] 0%Z
       eq_refl (or_intror (or_introl eq_refl)) eq_refl eq_refl
       (fun H => match H with eq_refl => I end) Hidx eq_refl
       (fun H => match H with eq_refl => I end)))).
Defined.

(* ================================================================== *)
(** * The analysis handler and the queue *)
(* ================================================================== *)

Section WorkerFacts.
Import Worker.

Variable analyzeTrack : Analyzer.
Variable now : string.

Lemma getManifest_saveManifest (st : Store) (m : TrackManifest) :
  getManifest (saveManifest st m) (track_id m) = Some m.
Proof. unfold getManifest, saveManifest; simpl. apply lookup_assign_same. Qed.

Lemma getManifest_saveFeatures (st : Store) (id id' : string) (f : Features) :
  getManifest (saveFeatures st id f) id' = getManifest st id'.
Proof. reflexivity. Qed.

(** The handler on a manifest that is ready and has its summary. *)
Lemma handler_ready (st : Store) (n : nat) (data : JobData)
    (m : TrackManifest) (s : TrackSummary) :
  getManifest st (d_track_id data) = Some m ->
  status m = ready -> summary m = Some s ->
  handler analyzeTrack now st n data = (Normal tt, st, n).
Proof.
  intros EM ES ESum. unfold handler. rewrite EM, ES, ESum. reflexivity.
Qed.

(** The handler on a manifest that is not ready: it marks the manifest as
    processing and runs the analysis. *)
Lemma handler_not_ready (st : Store) (n : nat) (data : JobData)
    (m : TrackManifest) :
  getManifest st (d_track_id data) = Some m -> status m <> ready ->
  handler analyzeTrack now st n data =
  let manifest1 :=
    with_status m Storage.processing (summary m) (error_reason m) now in
  let st1 := saveManifest st manifest1 in
  match analyzeTrack n (d_track_id data) (d_path data) with
  | Normal (s, feats) =>
      (Normal tt,
       saveManifest (saveFeatures st1 (d_track_id data) feats)
         (with_status manifest1 ready (Some s) (error_reason manifest1) now),
       S n)
  | Throw e =>
      (Throw e,
       saveManifest st1
         (with_status manifest1 error (summary manifest1)
                      (Some (reason_of e)) now),
       S n)
  end.
Proof.
  intros EM ES. unfold handler. rewrite EM.
  destruct (status m); try contradiction; reflexivity.
Qed.

(** The handler when the analysis throws: the manifest is saved with status
    [error] and the reason, and the error is thrown again. *)
Lemma handler_failure (st : Store) (n : nat) (data : JobData)
    (m : TrackManifest) (e : exn) :
  getManifest st (d_track_id data) = Some m ->
  track_id m = d_track_id data -> status m <> ready ->
  analyzeTrack n (d_track_id data) (d_path data) = Throw e ->
  exists st' m',
    handler analyzeTrack now st n data = (Throw e, st', S n)
    /\ getManifest st' (d_track_id data) = Some m'
    /\ track_id m' = d_track_id data
    /\ status m' = error
    /\ error_reason m' = Some (reason_of e).
Proof.
  intros EM Hid ES EA. rewrite (handler_not_ready st n data m EM ES), EA.
  cbv zeta. eexists. eexists. split; [reflexivity|].
  split.
  { rewrite <- Hid.
    match goal with
    | |- getManifest (saveManifest ?s ?x) _ = _ =>
        apply (getManifest_saveManifest s x)
    end. }
  repeat split; simpl; auto.
Qed.

(** The handler when the analysis returns: the features are written and
    the manifest is saved with status [ready] and the summary. *)
Lemma handler_success (st : Store) (n : nat) (data : JobData)
    (m : TrackManifest) (s : TrackSummary) (feats : Features) :
  getManifest st (d_track_id data) = Some m ->
  track_id m = d_track_id data -> status m <> ready ->
  analyzeTrack n (d_track_id data) (d_path data) = Normal (s, feats) ->
  exists st' m',
    handler analyzeTrack now st n data = (Normal tt, st', S n)
    /\ getManifest st' (d_track_id data) = Some m'
    /\ track_id m' = d_track_id data
    /\ status m' = ready
    /\ summary m' = Some s
    /\ lookup_features (features st') (d_track_id data) = Some feats.
Proof.
  intros EM Hid ES EA. rewrite (handler_not_ready st n data m EM ES), EA.
  cbv zeta. eexists. eexists. split; [reflexivity|].
  split.
  { rewrite <- Hid.
    match goal with
    | |- getManifest (saveManifest ?s ?x) _ = _ =>
        apply (getManifest_saveManifest s x)
    end. }
  repeat split; simpl; auto.
  clear. induction (features st) as [|[k f0] r IH]; simpl.
  - rewrite String.eqb_refl. reflexivity.
  - destruct (String.eqb k (d_track_id data)) eqn:E; simpl; rewrite E; auto.
Qed.

(** One turn of the queue loop on an [analyze] job. *)
Lemma run_job_analyze (job : QueueJob) (st : Store)
    (tm : list (Z * QueueJob)) (n : nat) :
  j_type job = "analyze" ->
  run_job (handlers analyzeTrack now) job (st, tm, n) =
  match handler analyzeTrack now st n (j_data job) with
  | (Normal _, st', n') => (st', tm, n')
  | (Throw _, st', n') =>
      if (retries job <? 3)%Z
      then (st', tm ++ [((2 ^ (retries job + 1) * 1000)%Z,
                         with_retries job (retries job + 1))], n')
      else (st', tm, n')
  end.
Proof.
  intros Ht. unfold run_job, handlers. rewrite Ht. simpl.
  destruct (handler analyzeTrack now st n (j_data job)) as [[[u|e] st'] n'];
    reflexivity.
Qed.

Lemma process_single (hs : Handlers) (job : QueueJob) (st : Store)
    (tm : list (Z * QueueJob)) (n : nat) :
  process hs (mkWorld st [job] false tm n) =
  let '(st', tm', n') := run_job hs job (st, tm, n) in
  mkWorld st' [] false tm' n'.
Proof. reflexivity. Qed.

Lemma fire_single (hs : Handlers) (job : QueueJob) (d : Z) (st : Store)
    (n : nat) :
  fire hs (mkWorld st [] false [(d, job)] n) =
  process hs (mkWorld st [job] false [] n).
Proof. reflexivity. Qed.

End WorkerFacts.

Section RetryFacts.
Import Worker.

Variable analyzeTrack : Analyzer.
Variable now : string.

Let hs : Handlers := handlers analyzeTrack now.

Lemma settle_idle (fuel : nat) (st : Store) (n : nat) :
  settle fuel hs (mkWorld st [] false [] n) = mkWorld st [] false [] n.
Proof. destruct fuel; reflexivity. Qed.

(** A job that fails [k] times and then succeeds, with enough retries left:
    the queue settles after [k + 1] runs with the manifest ready. *)
Lemma retries_until_success (k : nat) :
  forall (job : QueueJob) (st : Store) (m : TrackManifest) (n fuel : nat)
         (s : TrackSummary) (feats : Features),
  let id := d_track_id (j_data job) in
  let path := d_path (j_data job) in
  j_type job = "analyze" ->
  getManifest st id = Some m -> track_id m = id -> status m <> ready ->
  (retries job + Z.of_nat k <= 3)%Z ->
  (forall i, (i < k)%nat -> exists e, analyzeTrack (n + i)%nat id path = Throw e) ->
  analyzeTrack (n + k)%nat id path = Normal (s, feats) ->
  (k <= fuel)%nat ->
  exists st' m',
    settle fuel hs (process hs (mkWorld st [job] false [] n))
    = mkWorld st' [] false [] (n + k + 1)%nat
    /\ getManifest st' id = Some m'
    /\ status m' = ready /\ summary m' = Some s.
Proof.
  induction k as [|k IH]; intros job st m n fuel s feats id path
                                 Ht EM Hid ES Hr Hfail Hok Hfuel.
  - rewrite Nat.add_0_r in Hok.
    destruct (handler_success analyzeTrack now st n (j_data job) m s feats
                EM Hid ES Hok) as [st' [m' [Hh [EM' [_ [ES' [ESum' _]]]]]]].
    exists st', m'. split; [|auto].
    rewrite process_single. unfold hs. rewrite run_job_analyze by exact Ht.
    rewrite Hh. rewrite settle_idle. f_equal. lia.
  - destruct (Hfail 0%nat) as [e He]; [lia|]. rewrite Nat.add_0_r in He.
    destruct (handler_failure analyzeTrack now st n (j_data job) m e
                EM Hid ES He) as [st1 [m1 [Hh [EM1 [Hid1 [ES1 _]]]]]].
    destruct fuel as [|fuel]; [lia|].
    rewrite process_single. unfold hs. rewrite run_job_analyze by exact Ht.
    rewrite Hh.
    destruct (Z.ltb_spec (retries job) 3) as [_|Hge]; [|lia].
    cbn [app]. cbn [settle timers]. rewrite fire_single.
    destruct (IH (with_retries job (retries job + 1)) st1 m1 (S n) fuel s feats)
      as [st' [m' [Hrun Hrest]]]; simpl; auto.
    + rewrite ES1. discriminate.
    + lia.
    + intros i Hi. destruct (Hfail (S i)) as [e' He']; [lia|].
      exists e'. replace (S (n + i)) with (n + S i)%nat by lia. exact He'.
    + replace (S (n + k)) with (n + S k)%nat by lia. exact Hok.
    + lia.
    + exists st', m'. split; [|exact Hrest].
      fold hs. fold hs in Hrun. rewrite Hrun. f_equal. lia.
Qed.

(** A job that fails on its run and on every retry it has left: the queue
    settles with the manifest in error and no timer pending. *)
Lemma retries_exhausted (k : nat) :
  forall (job : QueueJob) (st : Store) (m : TrackManifest) (n fuel : nat),
  let id := d_track_id (j_data job) in
  let path := d_path (j_data job) in
  j_type job = "analyze" ->
  getManifest st id = Some m -> track_id m = id -> status m <> ready ->
  (retries job + Z.of_nat k = 3)%Z ->
  (forall i, (i <= k)%nat -> exists e, analyzeTrack (n + i)%nat id path = Throw e) ->
  (k <= fuel)%nat ->
  exists st' m' reason,
    settle fuel hs (process hs (mkWorld st [job] false [] n))
    = mkWorld st' [] false [] (n + k + 1)%nat
    /\ getManifest st' id = Some m'
    /\ status m' = error /\ error_reason m' = Some reason.
Proof.
  induction k as [|k IH]; intros job st m n fuel id path
                                 Ht EM Hid ES Hr Hfail Hfuel.
  - destruct (Hfail 0%nat) as [e He]; [lia|]. rewrite Nat.add_0_r in He.
    destruct (handler_failure analyzeTrack now st n (j_data job) m e
                EM Hid ES He) as [st1 [m1 [Hh [EM1 [Hid1 [ES1 ER1]]]]]].
    exists st1, m1, (reason_of e). split; [|auto].
    rewrite process_single. unfold hs. rewrite run_job_analyze by exact Ht.
    rewrite Hh.
    destruct (Z.ltb_spec (retries job) 3) as [Hlt|_]; [lia|].
    fold hs. rewrite settle_idle. f_equal. lia.
  - destruct (Hfail 0%nat) as [e He]; [lia|]. rewrite Nat.add_0_r in He.
    destruct (handler_failure analyzeTrack now st n (j_data job) m e
                EM Hid ES He) as [st1 [m1 [Hh [EM1 [Hid1 [ES1 _]]]]]].
    destruct fuel as [|fuel]; [lia|].
    rewrite process_single. unfold hs. rewrite run_job_analyze by exact Ht.
    rewrite Hh.
    destruct (Z.ltb_spec (retries job) 3) as [_|Hge]; [|lia].
    cbn [app]. cbn [settle timers]. rewrite fire_single.
    destruct (IH (with_retries job (retries job + 1)) st1 m1 (S n) fuel)
      as [st' [m' [reason [Hrun Hrest]]]]; simpl; auto.
    + rewrite ES1. discriminate.
    + lia.
    + intros i Hi. destruct (Hfail (S i)) as [e' He']; [lia|].
      exists e'. replace (S (n + i)) with (n + S i)%nat by lia. exact He'.
    + lia.
    + exists st', m', reason. split; [|exact Hrest].
      fold hs. fold hs in Hrun. rewrite Hrun. f_equal. lia.
Qed.

End RetryFacts.

(** ** C6 *)

(** C6, the part that fails: a handler that fails 3 consecutive times is
    run a 4th time (the third retry), and when that run succeeds the
    manifest ends in status [ready], not [error]. *)
Lemma three_failures_then_ready :
  let w := run 10 (Worker.handlers (Samples.fails_then_succeeds 3) "now")
               (mkWorld Samples.stq [Samples.job0] false [] 0) in
  calls w = 4%nat
  /\ timers w = []
  /\ option_map status (getManifest (store w) "t") = Some ready.
Proof. repeat split; reflexivity. Qed.

(** C6, amended: when the handler of an [analyze] job fails on a run with
    [retries < 3], the job is scheduled again with [retries + 1] after
    [2^(retries + 1)] seconds (2 s, 4 s, 8 s), and with [retries = 3] it is
    not scheduled again.  A job whose handler fails 4 consecutive times (the
    first run and the 3 retries) is not run a 5th time and its manifest ends
    in status [error] with a reason; a job whose handler fails at most 3
    times (twice, say) and then succeeds ends in status [ready]. *)
Theorem retry_policy_amended (analyzeTrack : Worker.Analyzer) (now : string)
    (st : Store) (job : QueueJob) (m : TrackManifest) (n : nat) :
  let id := d_track_id (j_data job) in
  let path := d_path (j_data job) in
  let hs := Worker.handlers analyzeTrack now in
  j_type job = "analyze" ->
  getManifest st id = Some m -> track_id m = id -> status m <> ready ->
  (forall e tm,
     analyzeTrack n id path = Throw e ->
     exists st',
       run_job hs job (st, tm, n)
       = (st',
          (if (retries job <? 3)%Z
           then tm ++ [((2 ^ (retries job + 1) * 1000)%Z,
                        with_retries job (retries job + 1))]
           else tm),
          S n))
  /\ (retries job = 0%Z ->
      (forall i, (i <= 3)%nat ->
                 exists e, analyzeTrack (n + i)%nat id path = Throw e) ->
      forall fuel, (3 <= fuel)%nat ->
      let w := run fuel hs (mkWorld st [job] false [] n) in
      calls w = (n + 4)%nat /\ jobs w = [] /\ timers w = []
      /\ exists m' reason,
           getManifest (store w) id = Some m'
           /\ status m' = error /\ error_reason m' = Some reason)
  /\ (retries job = 0%Z ->
      forall k s feats,
      (k <= 3)%nat ->
      (forall i, (i < k)%nat ->
                 exists e, analyzeTrack (n + i)%nat id path = Throw e) ->
      analyzeTrack (n + k)%nat id path = Normal (s, feats) ->
      forall fuel, (3 <= fuel)%nat ->
      let w := run fuel hs (mkWorld st [job] false [] n) in
      calls w = (n + k + 1)%nat /\ jobs w = [] /\ timers w = []
      /\ exists m',
           getManifest (store w) id = Some m'
           /\ status m' = ready /\ summary m' = Some s).
Proof.
  intros id path hs Ht EM Hid ES. split; [|split].
  - intros e tm He.
    destruct (handler_failure analyzeTrack now st n (j_data job) m e
                EM Hid ES He) as [st1 [m1 [Hh _]]].
    exists st1. unfold hs. rewrite run_job_analyze by exact Ht. rewrite Hh.
    destruct (retries job <? 3)%Z; reflexivity.
  - intros Hr Hfail fuel Hfuel w.
    destruct (retries_exhausted analyzeTrack now 3 job st m n fuel
                Ht EM Hid ES) as [st' [m' [reason [Hrun Hrest]]]];
      try assumption; [rewrite Hr; reflexivity|].
    unfold w, run, hs. rewrite Hrun. simpl.
    repeat split; try reflexivity; try lia.
    exists m', reason. exact Hrest.
  - intros Hr k s feats Hk Hfail Hok fuel Hfuel w.
    destruct (retries_until_success analyzeTrack now k job st m n fuel s feats
                Ht EM Hid ES) as [st' [m' [Hrun Hrest]]];
      try assumption; [rewrite Hr; lia|lia|].
    unfold w, run, hs. rewrite Hrun. simpl.
    repeat split; try reflexivity.
    exists m'. exact Hrest.
Qed.

(** The freshly uploaded track with an analysis that fails twice. *)
Lemma retry_policy_amended_witness :
  let w := run 3 (Worker.handlers (Samples.fails_then_succeeds 2) "now")
               (mkWorld Samples.stq [Samples.job0] false [] 0) in
  calls w = 3%nat /\ jobs w = [] /\ timers w = []
  /\ exists m',
       getManifest (store w) "t" = Some m'
       /\ status m' = ready /\ summary m' = Some Samples.sA0.
Proof.
  refine (proj2 (proj2 (retry_policy_amended (Samples.fails_then_succeeds 2)
                          "now" Samples.stq Samples.job0
                          Samples.queued_manifest 0%nat
                          eq_refl eq_refl eq_refl _))
            eq_refl 2%nat Samples.sA0 Samples.fA0 _ _ eq_refl 3%nat _).
  - discriminate.
  - lia.
  - intros i Hi. exists (Error "ffprobe failed: boom").
    destruct i as [|[|i]]; [reflexivity|reflexivity|lia].
  - lia.
Defined.

(** ** C9 *)

Section ReadyInvariant.

Lemma getManifest_saveManifest_other (st : Store) (m : TrackManifest)
    (id : string) :
  track_id m <> id -> getManifest (saveManifest st m) id = getManifest st id.
Proof.
  intros H. unfold getManifest, saveManifest; simpl.
  apply lookup_assign_other. exact H.
Qed.

Lemma ready_with_summary_save (st : Store) (m : TrackManifest) :
  ready_with_summary st ->
  (status m = ready -> summary m <> None) ->
  ready_with_summary (saveManifest st m).
Proof.
  intros Hst Hm id m' Hget Hs.
  destruct (String.eqb_spec (track_id m) id) as [<-|Hne].
  - rewrite getManifest_saveManifest in Hget. inversion Hget; subst. auto.
  - rewrite getManifest_saveManifest_other in Hget by exact Hne.
    eapply Hst; eassumption.
Qed.

Lemma ready_with_summary_empty : ready_with_summary (mkStore [] [] []).
Proof. intros id m H. discriminate. Qed.

(** The handler keeps the invariant, whatever the analysis does. *)
Lemma handler_keeps_invariant (analyzeTrack : Worker.Analyzer) (now : string)
    (st : Store) (n : nat) (data : JobData) :
  ready_with_summary st ->
  ready_with_summary (snd (fst (Worker.handler analyzeTrack now st n data))).
Proof.
  intros Hst. unfold Worker.handler.
  destruct (getManifest st (d_track_id data)) as [m|] eqn:EM; [|exact Hst].
  assert (G : ready_with_summary
    (snd (fst
      (match analyzeTrack n (d_track_id data) (d_path data) with
       | Normal (s, feats) =>
           (Normal tt,
            saveManifest
              (Worker.saveFeatures
                 (saveManifest st
                    (Worker.with_status m Storage.processing (summary m)
                       (error_reason m) now))
                 (d_track_id data) feats)
              (Worker.with_status
                 (Worker.with_status m Storage.processing (summary m)
                    (error_reason m) now)
                 ready (Some s)
                 (error_reason
                    (Worker.with_status m Storage.processing (summary m)
                       (error_reason m) now)) now),
            S n)
       | Throw e =>
           (Throw e,
            saveManifest
              (saveManifest st
                 (Worker.with_status m Storage.processing (summary m)
                    (error_reason m) now))
              (Worker.with_status
                 (Worker.with_status m Storage.processing (summary m)
                    (error_reason m) now)
                 error
                 (summary
                    (Worker.with_status m Storage.processing (summary m)
                       (error_reason m) now))
                 (Some (Worker.reason_of e)) now),
            S n)
       end)))).
  { destruct (analyzeTrack n (d_track_id data) (d_path data)) as [[s feats]|e];
      simpl.
    - apply ready_with_summary_save; [|simpl; discriminate].
      intros id m' Hget Hs. rewrite getManifest_saveFeatures in Hget.
      revert id m' Hget Hs. apply ready_with_summary_save; [exact Hst|].
      simpl; discriminate.
    - apply ready_with_summary_save; [|simpl; discriminate].
      apply ready_with_summary_save; [exact Hst|]. simpl; discriminate. }
  destruct (status m) eqn:ES; try exact G.
  destruct (summary m) eqn:ESum; [exact Hst|exact G].
Qed.

(** An upload keeps the invariant. *)
Lemma POST_keeps_invariant (w : World) (request : Upload.Request)
    (faults : Upload.Faults) (job_id now : string) :
  ready_with_summary (store w) ->
  ready_with_summary (store (snd (Upload.POST w request faults job_id now))).
Proof.
  intros Hst. unfold Upload.POST.
  destruct (Upload.audio_file request) as [file|]; [|exact Hst].
  destruct (negb _); [exact Hst|].
  destruct (_ <? _)%Z; [exact Hst|].
  destruct (trackExists _ _); [exact Hst|].
  destruct (Upload.saveFile_fails faults); [exact Hst|].
  destruct (Upload.saveManifest_fails faults); [exact Hst|].
  destruct (Upload.publish_fails faults); simpl.
  - apply ready_with_summary_save; [|simpl; discriminate].
    apply ready_with_summary_save; [exact Hst|]. simpl; discriminate.
  - apply ready_with_summary_save; [exact Hst|]. simpl; discriminate.
Qed.

End ReadyInvariant.

(** C9: in a library that keeps its invariant (a ready manifest carries its
    summary), the handler on a manifest whose status is already [ready]
    returns at once: the store, hence the summary and the feature files, is
    unchanged, the analysis is not run, and the queue schedules no retry
    for the job, whose retry count stays as it was. *)
Theorem handler_ready_noop (analyzeTrack : Worker.Analyzer) (now : string)
    (st : Store) (n : nat) (job : QueueJob) (m : TrackManifest) :
  ready_with_summary st ->
  j_type job = "analyze" ->
  getManifest st (d_track_id (j_data job)) = Some m ->
  status m = ready ->
  Worker.handler analyzeTrack now st n (j_data job) = (Normal tt, st, n)
  /\ (forall tm,
        run_job (Worker.handlers analyzeTrack now) job (st, tm, n) = (st, tm, n))
  /\ process (Worker.handlers analyzeTrack now) (mkWorld st [job] false [] n)
     = mkWorld st [] false [] n.
Proof.
  intros Hinv Ht EM ES.
  destruct (summary m) as [s|] eqn:ESum;
    [|exfalso; exact (Hinv _ _ EM ES ESum)].
  pose proof (handler_ready analyzeTrack now st n (j_data job) m s EM ES ESum)
    as Hh.
  split; [exact Hh|]. split.
  - intros tm. rewrite run_job_analyze by exact Ht. rewrite Hh. reflexivity.
  - rewrite process_single. rewrite run_job_analyze by exact Ht. rewrite Hh.
    reflexivity.
Qed.

(** The handler on the ready track "a" of the sample library. *)
Lemma handler_ready_noop_witness :
  Worker.handler (Samples.fails_then_succeeds 0) "now" Samples.st0 0%nat
    (mkJobData "a" (getTrackPath "a" "mp3"))
  = (Normal tt, Samples.st0, 0%nat).
Proof.
  refine (proj1 (handler_ready_noop (Samples.fails_then_succeeds 0) "now"
                   Samples.st0 0%nat
                   (mkJob "analyze" (mkJobData "a" (getTrackPath "a" "mp3"))
                          "1704067200000-a1b2c" "2024-01-01T00:00:00.000Z" 0)
                   (Samples.manifest_of "a" Samples.sA0)
                   _ eq_refl eq_refl eq_refl)).
  intros id m H Hs. unfold Samples.st0, getManifest in H.
  cbn [manifests lookup] in H.
  destruct (String.eqb "a" id).
  - inversion H; subst. discriminate.
  - destruct (String.eqb "b" id); [|discriminate].
    inversion H; subst. discriminate.
Defined.

(* ================================================================== *)
(** * Uploads and duplicates *)
(* ================================================================== *)

Section UploadFacts.
Import Upload.

Lemma trackExists_after_save (st : Store) (m : TrackManifest) :
  file_exists st (file_path m) = true ->
  trackExists (saveManifest st m) (track_id m) = true.
Proof.
  intros H. unfold trackExists. rewrite getManifest_saveManifest. exact H.
Qed.

(** An accepted upload (202) leaves a store in which its track exists, under
    the id derived from the metadata, the size and the digest. *)
Lemma POST_accepted (w : World) (file : File) (a t : option string)
    (fl : Faults) (jid now : string) (resp : Response) (w' : World) :
  POST w (mkRequest (Some file) a t) fl jid now = (resp, w') ->
  http_status resp = 202%Z ->
  let id := generateTrackId (or_undefined a) (or_undefined t) (size file)
                            (calculateDigest (f_bytes file)) in
  body_track_id resp = Some id
  /\ trackExists (store w') id = true
  /\ (100 * 1024 * 1024 <? size file)%Z = false.
Proof.
  intros H Hs id. unfold POST in H.
  cbn [audio_file form_artist form_title] in H. fold id in H.
  destruct (negb (isValidAudio (f_type file)
                    (getExtension (f_name file) (f_type file))));
    [inversion H; subst; discriminate|].
  destruct (100 * 1024 * 1024 <? size file)%Z eqn:Esz;
    [inversion H; subst; discriminate|].
  destruct (trackExists (store w) id); [inversion H; subst; discriminate|].
  destruct (saveFile_fails fl); [inversion H; subst; discriminate|].
  destruct (saveManifest_fails fl); [inversion H; subst; discriminate|].
  destruct (publish_fails fl); [inversion H; subst; discriminate|].
  inversion H; subst. cbn [body_track_id]. split; [reflexivity|].
  split; [|reflexivity].
  unfold publish, with_store. cbn [store].
  match goal with
  | |- trackExists (saveManifest ?s ?m) _ = true =>
      apply (trackExists_after_save s m)
  end.
  unfold file_exists, saveFile. cbn [files file_path existsb].
  rewrite String.eqb_refl. reflexivity.
Qed.

(** An upload of a valid audio file whose track already exists is answered
    409 and changes nothing. *)
Lemma POST_duplicate (w : World) (file : File) (a t : option string)
    (fl : Faults) (jid now : string) :
  isValidAudio (f_type file) (getExtension (f_name file) (f_type file)) = true ->
  (100 * 1024 * 1024 <? size file)%Z = false ->
  let id := generateTrackId (or_undefined a) (or_undefined t) (size file)
                            (calculateDigest (f_bytes file)) in
  trackExists (store w) id = true ->
  POST w (mkRequest (Some file) a t) fl jid now
  = (mkResponse 409 (Some "Track already exists") (Some id) None, w).
Proof.
  intros Hv Hsz id He. unfold POST.
  cbn [audio_file form_artist form_title]. fold id.
  rewrite Hv, Hsz, He. reflexivity.
Qed.

End UploadFacts.

(** ** C2 *)

(** C2, the part that fails: the track id depends on the artist and the
    title.  The same bytes uploaded twice, first with artist "Aphex" and then
    with artist "Orbital", get two different track ids, and the second
    upload is accepted (202) as a new track instead of being rejected. *)
Lemma same_bytes_other_artist_accepted :
  let r1 := Upload.mkRequest (Some Samples.riff) (Some "Aphex") (Some "Opener") in
  let r2 := Upload.mkRequest (Some Samples.riff) (Some "Orbital") (Some "Opener") in
  let a1 := Upload.POST Samples.w_empty r1 Upload.no_faults "job-1" "t1" in
  let a2 := Upload.POST (snd a1) r2 Upload.no_faults "job-2" "t2" in
  Upload.http_status (fst a1) = 202%Z
  /\ Upload.http_status (fst a2) = 202%Z
  /\ Upload.body_track_id (fst a1) = Some "b6043fd431977e9d"
  /\ Upload.body_track_id (fst a2) = Some "2b8b977e7a675345"
  /\ List.length (manifests (store (snd a2))) = 2%nat.
Proof. vm_compute. repeat split. Qed.

(** C2, amended: two uploads with the same bytes and the same declared
    artist and title get the same track id (the first 16 hex digits of the
    SHA-256 of artist, title, size and content digest), and once the first
    has been accepted the second, of an accepted audio type, is rejected as
    a duplicate (409, "Track already exists") and changes nothing. *)
Theorem upload_dedup_amended (w w1 : World) (file1 file2 : Upload.File)
    (a1 t1 a2 t2 : option string) (fl1 fl2 : Upload.Faults)
    (j1 n1 j2 n2 : string) (resp1 : Upload.Response) :
  Upload.POST w (Upload.mkRequest (Some file1) a1 t1) fl1 j1 n1 = (resp1, w1) ->
  Upload.http_status resp1 = 202%Z ->
  Upload.f_bytes file2 = Upload.f_bytes file1 ->
  Upload.or_undefined a2 = Upload.or_undefined a1 ->
  Upload.or_undefined t2 = Upload.or_undefined t1 ->
  isValidAudio (Upload.f_type file2)
    (getExtension (Upload.f_name file2) (Upload.f_type file2)) = true ->
  exists id,
    id = generateTrackId (Upload.or_undefined a1) (Upload.or_undefined t1)
           (Upload.size file1) (calculateDigest (Upload.f_bytes file1))
    /\ id = generateTrackId (Upload.or_undefined a2) (Upload.or_undefined t2)
              (Upload.size file2) (calculateDigest (Upload.f_bytes file2))
    /\ Upload.body_track_id resp1 = Some id
    /\ Upload.POST w1 (Upload.mkRequest (Some file2) a2 t2) fl2 j2 n2
       = (Upload.mkResponse 409 (Some "Track already exists") (Some id) None, w1).
Proof.
  intros H1 Hs Hb Ha Ht Hv.
  destruct (POST_accepted w file1 a1 t1 fl1 j1 n1 resp1 w1 H1 Hs)
    as [Hid [Hex Hsz]].
  assert (Hsize : Upload.size file2 = Upload.size file1)
    by (unfold Upload.size; rewrite Hb; reflexivity).
  eexists. split; [reflexivity|]. split; [|split; [exact Hid|]].
  - rewrite Ha, Ht, Hsize, Hb. reflexivity.
  - rewrite (POST_duplicate w1 file2 a2 t2 fl2 j2 n2 Hv).
    + rewrite Ha, Ht, Hsize, Hb. reflexivity.
    + rewrite Hsize. exact Hsz.
    + rewrite Ha, Ht, Hsize, Hb. exact Hex.
Qed.

(** The same file and metadata uploaded twice to an empty library. *)
Lemma upload_dedup_amended_witness :
  let r := Upload.mkRequest (Some Samples.riff) (Some "Aphex") (Some "Opener") in
  let a1 := Upload.POST Samples.w_empty r Upload.no_faults "job-1" "t1" in
  exists id,
    Upload.body_track_id (fst a1) = Some id
    /\ Upload.POST (snd a1) r Upload.no_faults "job-2" "t2"
       = (Upload.mkResponse 409 (Some "Track already exists") (Some id) None,
          snd a1).
Proof.
  intros r a1.
  destruct (upload_dedup_amended Samples.w_empty (snd a1)
              Samples.riff Samples.riff (Some "Aphex") (Some "Opener")
              (Some "Aphex") (Some "Opener") Upload.no_faults Upload.no_faults
              "job-1" "t1" "job-2" "t2" (fst a1))
    as [id [_ [_ [Hid Hdup]]]].
  - apply surjective_pairing.
  - vm_compute. reflexivity.
  - reflexivity.
  - reflexivity.
  - reflexivity.
  - vm_compute. reflexivity.
  - exists id. split; [exact Hid|exact Hdup].
Defined.

(* ================================================================== *)
(** * Feature extraction *)
(* ================================================================== *)

Section ExtractionFacts.
Import AudioAnalysis.

(** [estimateKey] does not read the file. *)
Lemma estimateKey_ignores_file (f g : FileView) (rnd : Random) (n : nat) :
  estimateKey f rnd n = estimateKey g rnd n.
Proof. reflexivity. Qed.

(** The key and the tempo reported by [analyzeAudioFile] are the ones
    estimated, the tempo rounded. *)
Lemma analyzeAudioFile_key_tempo (f : FileView) (rnd : Random) (n : nat)
    (a : AudioFeatures) :
  fst (analyzeAudioFile f rnd n) = Normal a ->
  a_key a = fst (estimateKey f rnd (S n))
  /\ a_tempo_bpm a = IZR (Js.round (fst (estimateBPM f rnd n))).
Proof.
  unfold analyzeAudioFile.
  destruct (getAudioMetadata f) as [md|e]; [|discriminate].
  assert (Hn : snd (estimateBPM f rnd n) = S n).
  { unfold estimateBPM. destruct (negb (ffmpeg_available f)); [reflexivity|].
    destruct (stderr_bpm f); reflexivity. }
  destruct (estimateBPM f rnd n) as [tempo n1]. simpl in Hn. subst n1.
  destruct (estimateKey f rnd (S n)) as [k n2] eqn:EK.
  destruct (generateWaveform f 80 rnd n2) as [[wf|e] n3]; [|discriminate].
  simpl. intros H. inversion H; subst. simpl. auto.
Qed.

End ExtractionFacts.

(** ** C1 *)

(** C1: [analyzeAudioFile] is not a function of the file alone.  On one and
    the same decodable file, with the values drawn from [Math.random] all 0
    in one run and all 0.5 in the other, both runs return, and they report
    the keys "1A" and "7A" and the tempi 120 and 130: [estimateKey] picks
    [camelotKeys[floor(random * 24)]] and [estimateBPM] falls back to
    [120 + random * 20]. *)
Theorem analyzeAudioFile_depends_on_random :
  exists a0 a1,
    fst (AudioAnalysis.analyzeAudioFile Samples.view0 Samples.random_low 0)
    = Normal a0
    /\ fst (AudioAnalysis.analyzeAudioFile Samples.view0 Samples.random_mid 0)
       = Normal a1
    /\ AudioAnalysis.a_key a0 = "1A" /\ AudioAnalysis.a_key a1 = "7A"
    /\ AudioAnalysis.a_tempo_bpm a0 = 120 /\ AudioAnalysis.a_tempo_bpm a1 = 130
    /\ a0 <> a1.
Proof.
  assert (F0 : Js.floor (0 * INR 24) = 0%Z)
    by (apply floor_eq; simpl; lra).
  assert (F1 : Js.floor (0.5 * INR 24) = 12%Z)
    by (apply floor_eq; simpl; lra).
  assert (R0 : Js.round (120 + 0 * 20) = 120%Z)
    by (unfold Js.round; apply Zfloor_eq; lra).
  assert (R1 : Js.round (120 + 0.5 * 20) = 130%Z)
    by (unfold Js.round; apply Zfloor_eq; lra).
  eexists. eexists. split; [reflexivity|]. split; [reflexivity|].
  cbn [AudioAnalysis.a_key AudioAnalysis.a_tempo_bpm].
  unfold Samples.random_low, Samples.random_mid.
  change (List.length AudioAnalysis.camelotKeys) with 24%nat.
  rewrite F0, F1, R0, R1.
  repeat split; try reflexivity.
  intros H. apply (f_equal AudioAnalysis.a_key) in H.
  cbn [AudioAnalysis.a_key] in H. discriminate.
Qed.

(* ================================================================== *)
(** * The shape of the feature vectors *)
(* ================================================================== *)

Section VectorFacts.
Import FeatureVectors.
Variable N : Arith.

Lemma In_skipn {A} (n : nat) (l : list A) (x : A) : In x (skipn n l) -> In x l.
Proof.
  revert n; induction l as [|y r IH]; intros [|n]; simpl; try tauto.
  intros H. right. eapply IH. exact H.
Qed.

Lemma In_slice {A} (l : list A) (s e : nat) (x : A) : In x (slice l s e) -> In x l.
Proof. unfold slice. intros H. eapply In_skipn, In_firstn. exact H. Qed.

Lemma length_generateBarVectors (waveform : list (num N)) (barCount : nat) :
  List.length (generateBarVectors N waveform barCount) = barCount.
Proof. unfold generateBarVectors. rewrite length_map, length_seq. reflexivity. Qed.

(** The dimension of the vector of bar [i]: four statistics and at most 124
    samples of its window; nothing is appended to reach 128. *)
Lemma length_bar_vector (waveform : list (num N)) (barsPerSample i : nat) :
  List.length (bar_vector N waveform barsPerSample i)
  = (4 + Nat.min 124
           (Nat.min (Nat.min (i * barsPerSample + barsPerSample)
                             (List.length waveform)
                     - i * barsPerSample)
                    (List.length waveform - i * barsPerSample)))%nat.
Proof.
  unfold bar_vector. rewrite length_slice, length_app, length_map.
  rewrite !length_slice. simpl List.length. lia.
Qed.

Lemma bar_vector_le_128 (waveform : list (num N)) (barsPerSample i : nat) :
  (List.length (bar_vector N waveform barsPerSample i) <= 128)%nat.
Proof. rewrite length_bar_vector. lia. Qed.

(** With an envelope of 80 values, every bar vector has [4 + floor(80 / bars)]
    components. *)
Lemma bar_vectors_of_envelope (waveform : list (num N)) (barCount : nat) :
  List.length waveform = 80%nat -> (1 <= barCount)%nat ->
  Forall (fun v => List.length v = (4 + 80 / barCount)%nat)
         (generateBarVectors N waveform barCount).
Proof.
  intros Hw Hc. unfold generateBarVectors. rewrite Forall_map, Forall_forall.
  intros i Hi. apply in_seq in Hi. rewrite length_bar_vector, Hw.
  set (b := (80 / barCount)%nat).
  assert (Hb : (barCount * b <= 80)%nat)
    by (apply Nat.Div0.mul_div_le).
  assert (Hb80 : (b <= 80)%nat) by (apply Nat.Div0.div_le_upper_bound; lia).
  assert (Hi' : (i * b + b <= barCount * b)%nat) by nia.
  lia.
Qed.

Lemma length_add_at (mv : list (option (num N))) (idx : nat) (val : num N) :
  (idx < List.length mv)%nat ->
  List.length (add_at N mv idx val) = List.length mv.
Proof.
  revert idx; induction mv as [|x r IH]; intros [|idx] H; simpl in *; try lia.
  - destruct x; reflexivity.
  - rewrite IH; [reflexivity|lia].
Qed.

Lemma length_add_bar (bar : list (num N)) :
  forall (mv : list (option (num N))) (idx : nat),
  (idx + List.length bar <= List.length mv)%nat ->
  List.length (add_bar N mv idx bar) = List.length mv.
Proof.
  induction bar as [|val r IH]; intros mv idx H; simpl in *; [reflexivity|].
  rewrite IH; rewrite length_add_at; lia.
Qed.

Lemma length_pool (bars : list (list (num N))) :
  forall mv : list (option (num N)),
  Forall (fun b => (List.length b <= List.length mv)%nat) bars ->
  List.length (fold_left (fun mv bar => add_bar N mv 0 bar) bars mv)
  = List.length mv.
Proof.
  induction bars as [|b r IH]; intros mv H; simpl; [reflexivity|].
  inversion H as [|? ? Hb Hr]; subst.
  rewrite IH.
  - apply length_add_bar. simpl. exact Hb.
  - rewrite length_add_bar by (simpl; exact Hb). exact Hr.
Qed.

(** A phrase vector pooled from bar vectors of at most 128 components has
    exactly 256 components. *)
Lemma phrase_vector_256 (barVecs : list (list (num N))) (barsPerPhrase i : nat) :
  Forall (fun b => (List.length b <= 128)%nat) barVecs ->
  exists v, phrase_vector N barVecs barsPerPhrase i = Done v
            /\ List.length v = 256%nat.
Proof.
  intros H. unfold phrase_vector.
  set (phraseBars := slice barVecs _ _).
  assert (Hp : Forall (fun b => (List.length b <= 128)%nat) phraseBars).
  { rewrite Forall_forall in *. intros b Hb. apply H.
    eapply In_slice. exact Hb. }
  assert (Hl : List.length
                 (fold_left (fun mv bar => add_bar N mv 0 bar) phraseBars
                            (repeat (Some (zero N)) 128)) = 128%nat).
  { rewrite length_pool; rewrite repeat_length; auto. }
  rewrite !length_map, Hl. simpl (254 <? 128)%nat.
  eexists. split; [reflexivity|].
  rewrite length_slice, !length_app, !length_map, Hl, repeat_length.
  simpl. reflexivity.
Qed.

Lemma collect_outcomes_done {A} (l : list (outcome A)) (n : nat) (P : A -> Prop) :
  List.length l = n ->
  Forall (fun o => exists a, o = Done a /\ P a) l ->
  exists rs, collect_outcomes l = Done rs
             /\ List.length rs = n /\ Forall P rs.
Proof.
  revert n; induction l as [|o r IH]; intros n Hn H; simpl in *.
  - exists []. subst n. repeat split. constructor.
  - inversion H as [|? ? [a [Ho Pa]] Hr]; subst.
    destruct (IH (List.length r) eq_refl Hr) as [rs [Hc [Hl HP]]].
    rewrite Hc. exists (a :: rs). simpl. repeat split; auto.
Qed.

Lemma generatePhraseVectors_256 (barVecs : list (list (num N)))
    (phraseCount : nat) :
  Forall (fun b => (List.length b <= 128)%nat) barVecs ->
  exists phraseVecs,
    generatePhraseVectors N barVecs phraseCount = Done phraseVecs
    /\ List.length phraseVecs = phraseCount
    /\ Forall (fun v => List.length v = 256%nat) phraseVecs.
Proof.
  intros H. unfold generatePhraseVectors.
  apply collect_outcomes_done.
  - rewrite length_map, length_seq. reflexivity.
  - rewrite Forall_map, Forall_forall. intros i _.
    apply phrase_vector_256. exact H.
Qed.

End VectorFacts.

(** ** C4 *)

(** C4: for the envelope of 80 values that the extractor builds and a
    summary with [bars >= 1] bars and [phrases] phrases, [saveFeatures]
    writes [bars] bar vectors and [phrases] phrase vectors, and every phrase
    vector has 256 components; but every bar vector has
    [4 + floor(80 / bars)] components, which is never 128 and varies with
    the number of bars of the track: the vector is not padded. *)
Theorem bar_vectors_not_128 (N : FeatureVectors.Arith)
    (waveform : list (FeatureVectors.num N)) (bars phrases : nat) :
  List.length waveform = 80%nat -> (1 <= bars)%nat ->
  exists barVecs phraseVecs,
    FeatureVectors.saveFeatures_vectors N waveform bars phrases
    = FeatureVectors.Done (barVecs, phraseVecs)
    /\ List.length barVecs = bars
    /\ List.length phraseVecs = phrases
    /\ Forall (fun v => List.length v = 256%nat) phraseVecs
    /\ Forall (fun v => List.length v = (4 + 80 / bars)%nat
                        /\ List.length v <> 128%nat) barVecs.
Proof.
  intros Hw Hb. unfold FeatureVectors.saveFeatures_vectors.
  pose proof (bar_vectors_of_envelope N waveform bars Hw Hb) as Hbars.
  destruct (generatePhraseVectors_256 N
              (FeatureVectors.generateBarVectors N waveform bars) phrases)
    as [phraseVecs [Hrun [Hlen H256]]].
  { eapply Forall_impl; [|exact Hbars]. intros v Hv. simpl in Hv. rewrite Hv.
    assert ((80 / bars <= 80)%nat) by (apply Nat.Div0.div_le_upper_bound; lia).
    lia. }
  rewrite Hrun. eexists. eexists. split; [reflexivity|].
  split; [apply length_generateBarVectors|].
  split; [exact Hlen|]. split; [exact H256|].
  eapply Forall_impl; [|exact Hbars]. intros v Hv. simpl in Hv.
  split; [exact Hv|]. rewrite Hv.
  assert ((80 / bars <= 80)%nat) by (apply Nat.Div0.div_le_upper_bound; lia).
  lia.
Qed.

(** One bar over the sample envelope: a single vector of 84 components. *)
Lemma bar_vectors_not_128_witness :
  exists barVecs phraseVecs,
    FeatureVectors.saveFeatures_vectors Samples.real_arith Samples.envelope 1 1
    = FeatureVectors.Done (barVecs, phraseVecs)
    /\ List.length barVecs = 1%nat
    /\ List.length phraseVecs = 1%nat
    /\ Forall (fun v => List.length v = 256%nat) phraseVecs
    /\ Forall (fun v => List.length v = 84%nat
                        /\ List.length v <> 128%nat) barVecs.
Proof.
  apply (bar_vectors_not_128 Samples.real_arith Samples.envelope 1 1).
  - reflexivity.
  - lia.
Defined.

(* ================================================================== *)
(** * The vectors the extractor writes *)
(* ================================================================== *)

Section ExtractorFacts.
Import FeatureVectors.

Lemma div_nonneg (a b : R) : 0 <= a -> 0 <= b -> 0 <= a / b.
Proof.
  intros Ha Hb. destruct (Req_dec b 0) as [E|E].
  - subst b. unfold Rdiv. rewrite Rinv_0. lra.
  - apply Rmult_le_pos; [exact Ha|]. left. apply Rinv_0_lt_compat. lra.
Qed.

Lemma sum_by_nonneg (f : R -> R) (xs : list R) :
  Forall (fun v => 0 <= f v) xs -> 0 <= sum_by Samples.real_arith f xs.
Proof.
  unfold sum_by. cbn [zero add Samples.real_arith].
  assert (G : forall acc, 0 <= acc -> Forall (fun v => 0 <= f v) xs ->
                          0 <= fold_left (fun sum v => sum + f v) xs acc).
  { induction xs as [|x r IH]; intros acc Ha H; simpl; [exact Ha|].
    inversion H; subst. apply IH; [lra|assumption]. }
  intros H. apply G; [lra|exact H].
Qed.

Lemma fold_Rmax_ge (xs : list R) (x : R) : x <= fold_left Rmax xs x.
Proof.
  revert x; induction xs as [|y r IH]; intros x; simpl; [lra|].
  eapply Rle_trans; [apply (Rmax_l x y)|apply IH].
Qed.

Lemma bar_vector_nonneg (waveform : list R) (barsPerSample i : nat) :
  nonneg waveform -> nonneg (bar_vector Samples.real_arith waveform barsPerSample i).
Proof.
  intros Hw. unfold bar_vector. cbv zeta.
  match goal with
  | |- context [@slice ?T waveform ?a ?b] =>
      set (barSamples := @slice T waveform a b)
  end.
  assert (Hb : nonneg barSamples).
  { unfold nonneg in *. rewrite Forall_forall in *. intros x Hx.
    apply Hw. eapply In_slice. exact Hx. }
  cbn [zero half add sub mul div pow2 sqrt abs max_of of_nat
       Samples.real_arith].
  unfold nonneg. rewrite Forall_forall. intros x Hx.
  apply In_slice in Hx. apply in_app_or in Hx.
  destruct Hx as [Hx|Hx].
  - destruct Hx as [Hx|[Hx|[Hx|[Hx|[]]]]]; subst x.
    + apply sqrt_pos.
    + destruct barSamples as [|y r]; [lra|].
      inversion Hb; subst.
      eapply Rle_trans; [|apply fold_Rmax_ge]. assumption.
    + apply div_nonneg; [|apply pos_INR].
      apply (sum_by_nonneg (fun v => v)). exact Hb.
    + apply div_nonneg; [|apply pos_INR].
      apply (sum_by_nonneg
               (fun v => (v - sum_by Samples.real_arith (fun v0 => v0) barSamples
                              / INR (List.length barSamples))
                         * (v - sum_by Samples.real_arith (fun v0 => v0) barSamples
                                / INR (List.length barSamples)))).
      rewrite Forall_forall. intros v _. cbv beta. apply Rle_0_sqr.
  - apply in_map_iff in Hx. destruct Hx as [v [Hv Hin]]. subst x.
    apply In_slice in Hin.
    unfold nonneg in Hb. rewrite Forall_forall in Hb.
    specialize (Hb v Hin). lra.
Qed.

Lemma generateBarVectors_nonneg (waveform : list R) (barCount : nat) :
  nonneg waveform -> Forall nonneg (generateBarVectors Samples.real_arith waveform barCount).
Proof.
  intros Hw. unfold generateBarVectors. rewrite Forall_map.
  rewrite Forall_forall. intros i _. apply bar_vector_nonneg. exact Hw.
Qed.

Lemma add_at_nonneg (mv : list (option R)) (idx : nat) (val : R) :
  cells_nonneg mv -> 0 <= val ->
  cells_nonneg (add_at Samples.real_arith mv idx val).
Proof.
  unfold cells_nonneg.
  revert mv; induction idx as [|i IH]; intros mv Hm Hv.
  - destruct mv as [|[x|] r]; cbn [add_at add nan Samples.real_arith].
    + constructor; [lra|constructor].
    + inversion Hm; subst. constructor; [lra|assumption].
    + inversion Hm; subst. constructor; [lra|assumption].
  - destruct mv as [|o r]; cbn [add_at].
    + constructor; [exact I|]. apply IH; [constructor|exact Hv].
    + inversion Hm; subst. constructor; [assumption|].
      apply IH; assumption.
Qed.

Lemma add_bar_nonneg (bar : list R) :
  forall (mv : list (option R)) (idx : nat),
  cells_nonneg mv -> nonneg bar -> cells_nonneg (add_bar Samples.real_arith mv idx bar).
Proof.
  induction bar as [|v r IH]; intros mv idx Hm Hb; cbn [add_bar];
    [exact Hm|].
  inversion Hb; subst. apply IH; [|assumption].
  apply add_at_nonneg; assumption.
Qed.

Lemma present_nonneg (mv : list (option R)) :
  cells_nonneg mv -> nonneg (present Samples.real_arith mv).
Proof.
  unfold cells_nonneg, nonneg, present. intros H.
  rewrite Forall_forall in *. intros x Hx.
  apply in_flat_map in Hx. destruct Hx as [o [Ho Hx]].
  specialize (H o Ho). destruct o as [y|]; [|contradiction].
  destruct Hx as [->|[]]. exact H.
Qed.

Lemma cells_slice (mv : list (option R)) (a b : nat) :
  cells_nonneg mv -> cells_nonneg (slice mv a b).
Proof.
  unfold cells_nonneg. rewrite !Forall_forall. intros H o Ho.
  apply H. eapply In_slice. exact Ho.
Qed.

Lemma phrase_vector_nonneg (barVecs : list (list R)) (barsPerPhrase i : nat)
    (v : list R) :
  Forall nonneg barVecs ->
  phrase_vector Samples.real_arith barVecs barsPerPhrase i = Done v -> nonneg v.
Proof.
  intros Hb. unfold phrase_vector. cbv zeta.
  match goal with
  | |- context [@slice ?T barVecs ?a ?b] =>
      set (phraseBars := @slice T barVecs a b)
  end.
  assert (Hp : Forall nonneg phraseBars).
  { rewrite Forall_forall in *. intros x Hx. apply Hb.
    eapply In_slice. exact Hx. }
  match goal with
  | |- context [@fold_left ?T ?U ?f phraseBars ?z] =>
      set (meanVec := @fold_left T U f phraseBars z)
  end.
  assert (Hm : cells_nonneg meanVec).
  { unfold meanVec.
    assert (G : forall acc, cells_nonneg acc ->
              cells_nonneg
                (fold_left (fun mv bar => add_bar Samples.real_arith mv 0 bar) phraseBars acc)).
    { clear meanVec. induction Hp as [|bar r Hbar Hr IH]; intros acc Ha;
        simpl; [exact Ha|].
      apply IH. apply add_bar_nonneg; assumption. }
    apply G. unfold cells_nonneg. cbn [zero Samples.real_arith].
    apply Forall_forall. intros o Ho. apply repeat_spec in Ho. subst o. lra. }
  match goal with
  | |- context [@map ?T ?U ?f meanVec] => set (pooled := @map T U f meanVec)
  end.
  assert (Hq : cells_nonneg pooled).
  { unfold pooled, cells_nonneg in *. rewrite Forall_map.
    eapply Forall_impl; [|exact Hm]. intros [x|] Hx; simpl; [|exact I].
    apply div_nonneg; [exact Hx|apply pos_INR]. }
  destruct (254 <? List.length pooled)%nat; [discriminate|].
  intros H. injection H as Hv. rewrite <- Hv. clear Hv.
  unfold nonneg. rewrite Forall_forall. intros x Hx.
  apply In_slice in Hx. apply in_app_or in Hx. destruct Hx as [Hx|Hx].
  - apply in_map_iff in Hx. destruct Hx as [o [Ho Hin]].
    unfold cells_nonneg in Hq. rewrite Forall_forall in Hq.
    specialize (Hq o Hin). destruct o as [y|]; subst x; [exact Hq|].
    cbn [undef Samples.real_arith]. lra.
  - cbn [app] in Hx. destruct Hx as [Hx|[Hx|Hx]]; try subst x.
    + cbn [div of_nat Samples.real_arith].
      apply div_nonneg; [|lra].
      apply (sum_by_nonneg (fun v => v)).
      apply present_nonneg, cells_slice. exact Hq.
    + cbn [div of_nat abs sub half Samples.real_arith].
      apply div_nonneg; [|lra].
      apply (sum_by_nonneg (fun y => Rabs (y - 0.5))).
      apply Forall_forall. intros y _. apply Rabs_pos.
    + apply repeat_spec in Hx. subst x. cbn [zero Samples.real_arith]. lra.
Qed.

Lemma collect_outcomes_in {A} (l : list (outcome A)) (rs : list A) (r : A) :
  collect_outcomes l = Done rs -> In r rs -> In (Done r) l.
Proof.
  revert rs; induction l as [|o l' IH]; intros rs H Hin; simpl in H.
  - inversion H; subst. contradiction.
  - destruct o as [a|]; [|discriminate].
    destruct (collect_outcomes l') as [rs'|]; [|discriminate].
    inversion H; subst. destruct Hin as [->|Hin]; [left; reflexivity|].
    right. apply (IH rs'); [reflexivity|exact Hin].
Qed.

(** The vectors that [saveFeatures] writes for an envelope without negative
    values have no negative component.  (A NaN or an infinity, which the
    builders produce from an empty window, is written as [null] by
    [JSON.stringify] and counts as 0 when the vectors are read back; the
    arithmetic [real_arith] has 0 in their place.) *)
Lemma extractor_vectors_nonneg (waveform : list R) (bars phrases : nat)
    (barVecs phraseVecs : list (list R)) :
  nonneg waveform ->
  saveFeatures_vectors Samples.real_arith waveform bars phrases = Done (barVecs, phraseVecs) ->
  Forall nonneg barVecs /\ Forall nonneg phraseVecs.
Proof.
  intros Hw. unfold saveFeatures_vectors.
  pose proof (generateBarVectors_nonneg waveform bars Hw) as Hb.
  destruct (generatePhraseVectors Samples.real_arith _ phrases) as [pv|] eqn:E;
    [|discriminate].
  intros H. inversion H; subst. clear H. split; [exact Hb|].
  rewrite Forall_forall. intros v Hv.
  unfold generatePhraseVectors in E.
  pose proof (collect_outcomes_in _ _ v E Hv) as Hin.
  apply in_map_iff in Hin. destruct Hin as [i [Hi _]].
  eapply phrase_vector_nonneg; [exact Hb|exact Hi].
Qed.

End ExtractorFacts.

(** A library without negative components in its phrase vectors: the empty
    library is one, an upload leaves the feature files alone, and the
    handler writes the vectors of the analysis. *)
Section NonnegInvariant.

Lemma lookup_features_assign (fs : list (string * Features)) (id id' : string)
    (f g : Features) :
  lookup_features (Worker.assign_features fs id f) id' = Some g ->
  g = f \/ lookup_features fs id' = Some g.
Proof.
  induction fs as [|[k f0] r IH]; simpl.
  - destruct (String.eqb id id'); [|discriminate].
    intros H. left. congruence.
  - destruct (String.eqb k id) eqn:E; simpl.
    + destruct (String.eqb k id'); [|tauto].
      intros H. left. congruence.
    + destruct (String.eqb k id'); [tauto|exact IH].
Qed.

Lemma nonneg_phrases_empty : nonneg_phrases (mkStore [] [] []).
Proof. intros id f H. discriminate. Qed.

Lemma nonneg_phrases_saveManifest (st : Store) (m : TrackManifest) :
  nonneg_phrases st -> nonneg_phrases (saveManifest st m).
Proof. intros H. exact H. Qed.

Lemma nonneg_phrases_saveFeatures (st : Store) (id : string) (f : Features) :
  nonneg_phrases st -> Forall nonneg (phraseVecs f) ->
  nonneg_phrases (Worker.saveFeatures st id f).
Proof.
  intros Hst Hf id' g Hg. unfold Worker.saveFeatures in Hg; simpl in Hg.
  apply lookup_features_assign in Hg. destruct Hg as [->|Hg]; [exact Hf|].
  eapply Hst; exact Hg.
Qed.

(** The handler keeps the phrase vectors of the library free of negative
    components when the analysis writes none. *)
Lemma handler_keeps_nonneg (analyzeTrack : Worker.Analyzer) (now : string)
    (st : Store) (n : nat) (data : JobData) :
  (forall k id path s f, analyzeTrack k id path = Normal (s, f) ->
                         Forall nonneg (phraseVecs f)) ->
  nonneg_phrases st ->
  nonneg_phrases (snd (fst (Worker.handler analyzeTrack now st n data))).
Proof.
  intros Ha Hst. unfold Worker.handler.
  destruct (getManifest st (d_track_id data)) as [m|]; [|exact Hst].
  destruct (analyzeTrack n (d_track_id data) (d_path data))
    as [[s feats]|e] eqn:EA.
  - pose proof (Ha _ _ _ _ _ EA) as Hf.
    destruct (status m); [| |destruct (summary m)|]; simpl;
      try exact Hst;
      apply nonneg_phrases_saveManifest, nonneg_phrases_saveFeatures;
      try exact Hf; apply nonneg_phrases_saveManifest; exact Hst.
  - destruct (status m); [| |destruct (summary m)|]; simpl; exact Hst.
Qed.

(** An upload leaves the feature files as they are. *)
Lemma POST_keeps_nonneg (w : World) (request : Upload.Request)
    (faults : Upload.Faults) (job_id now : string) :
  nonneg_phrases (store w) ->
  nonneg_phrases (store (snd (Upload.POST w request faults job_id now))).
Proof.
  intros Hst. unfold Upload.POST.
  destruct (Upload.audio_file request) as [file|]; [|exact Hst].
  destruct (negb _); [exact Hst|].
  destruct (_ <? _)%Z; [exact Hst|].
  destruct (trackExists _ _); [exact Hst|].
  destruct (Upload.saveFile_fails faults); [exact Hst|].
  destruct (Upload.saveManifest_fails faults); [exact Hst|].
  destruct (Upload.publish_fails faults); simpl; exact Hst.
Qed.

End NonnegInvariant.

(* ================================================================== *)
(** * Further properties of the sub-scores *)
(* ================================================================== *)

(** Case analysis on the comparisons of numbers, one at a time, closing the
    cases that contradict the comparisons already made. *)
Ltac prune_cmp :=
  unfold Rgeb, Rgtb, Rleb, Rltb, Reqb in *;
  repeat (match goal with
          | |- context [Rle_dec ?a ?b] => destruct (Rle_dec a b)
          | |- context [Rlt_dec ?a ?b] => destruct (Rlt_dec a b)
          | |- context [Req_dec_T ?a ?b] => destruct (Req_dec_T a b)
          end; simpl; try lra).

(** X1 [tempoScore] depends on the two tempi only through their distance:
    it is symmetric, it is 1 exactly when the tempi are equal, it never
    increases when the distance grows, and it stays between 0.10 and 1. *)
Theorem tempoScore_shape (a b c d : R) :
  tempoScore a b = tempoScore b a
  /\ (tempoScore a b = 1 <-> a = b)
  /\ (Rabs (a - b) <= Rabs (c - d) -> tempoScore c d <= tempoScore a b)
  /\ 0.10 <= tempoScore a b <= 1.
Proof.
  split; [apply tempoScore_sym|]. split; [|split; [|apply tempoScore_range]].
  - split.
    + unfold tempoScore. intros H.
      destruct (Req_dec (Rabs (a - b)) 0) as [E|E].
      * destruct (Req_dec (a - b) 0) as [E'|E']; [lra|].
        apply Rabs_no_R0 in E'. contradiction.
      * revert H. prune_cmp.
    + intros ->. apply tempoScore_same.
  - unfold tempoScore. pose proof (Rabs_pos (a - b)). pose proof (Rabs_pos (c - d)).
    generalize dependent (Rabs (c - d)). generalize dependent (Rabs (a - b)).
    intros x Hx y Hy Hxy. prune_cmp.
Qed.

(** X2 [energyTransitionScore] is 1 when the energies differ by at most
    0.5, lies between 0.20 and 1, and rewards a rise in energy at least as
    much as the fall of the same size: going from the lower to the higher
    energy never scores less than the way back. *)
Theorem energyTransitionScore_favours_build (a b : R) :
  (Rabs (b - a) <= 0.5 -> energyTransitionScore a b = 1)
  /\ 0.20 <= energyTransitionScore a b <= 1
  /\ (a <= b -> energyTransitionScore b a <= energyTransitionScore a b).
Proof.
  split; [|split; [apply energyTransitionScore_range|]].
  - intros H. unfold energyTransitionScore. prune_cmp.
  - intros H. unfold energyTransitionScore.
    assert (Rabs (b - a) = b - a) by (apply Rabs_right; lra).
    assert (Rabs (a - b) = b - a) by (rewrite Rabs_left1; lra).
    rewrite H0, H1. prune_cmp.
Qed.

Lemma energyTransitionScore_favours_build_witness :
  energyTransitionScore 7 6 <= energyTransitionScore 6 7.
Proof.
  apply (proj2 (proj2 (energyTransitionScore_favours_build 6 7))). lra.
Defined.

Section KeyFacts.

Lemma num_eq_sym (x y : option Z) : num_eq x y = num_eq y x.
Proof. destruct x, y; simpl; auto. apply Z.eqb_sym. Qed.

Lemma absdiff_is_sym (x y : option Z) (n : Z) :
  absdiff_is x y n = absdiff_is y x n.
Proof.
  destruct x, y; simpl; auto.
  replace (z - z0)%Z with (- (z0 - z))%Z by lia. rewrite Z.abs_opp. reflexivity.
Qed.

Lemma isKeyCompatible_sym (keyA keyB : string) :
  isKeyCompatible keyA keyB = isKeyCompatible keyB keyA.
Proof.
  unfold isKeyCompatible.
  rewrite (String.eqb_sym keyB keyA).
  rewrite (num_eq_sym (parseInt keyB)).
  rewrite (String.eqb_sym (last_char keyB)).
  rewrite !(absdiff_is_sym (parseInt keyB)). reflexivity.
Qed.

End KeyFacts.

(** X3 Key compatibility does not depend on the order of the two keys:
    [isKeyCompatible], [keyScore] and [harmonicScore] are symmetric, a key
    is compatible with itself, and [harmonicScore] only ever returns 0,
    0.65 or 1. *)
Theorem key_scores_symmetric (keyA keyB : string) :
  isKeyCompatible keyA keyA = true
  /\ isKeyCompatible keyA keyB = isKeyCompatible keyB keyA
  /\ keyScore keyA keyB = keyScore keyB keyA
  /\ harmonicScore keyA keyB = harmonicScore keyB keyA
  /\ (harmonicScore keyA keyB = 0 \/ harmonicScore keyA keyB = 0.65
      \/ harmonicScore keyA keyB = 1).
Proof.
  split; [unfold isKeyCompatible; rewrite String.eqb_refl; reflexivity|].
  split; [apply isKeyCompatible_sym|]. split; [|split].
  - rewrite !keyScore_cases, (String.eqb_sym keyB keyA),
      (isKeyCompatible_sym keyB keyA). reflexivity.
  - rewrite !harmonicScore_cases, (String.eqb_sym keyB keyA),
      (isKeyCompatible_sym keyB keyA). reflexivity.
  - rewrite harmonicScore_cases.
    destruct (String.eqb keyA keyB); [auto|].
    destruct (isKeyCompatible keyA keyB); auto.
Qed.



(** X5 [energyScore] is symmetric, lies between 0 and 1, is 1 exactly for
    equal energies and 0 exactly when the energies differ by 3 or more. *)
Theorem energyScore_shape (a b : R) :
  energyScore a b = energyScore b a
  /\ 0 <= energyScore a b <= 1
  /\ (energyScore a b = 1 <-> a = b)
  /\ (energyScore a b = 0 <-> 3 <= Rabs (a - b)).
Proof.
  unfold energyScore. rewrite (Rabs_minus_sym b a).
  pose proof (Rabs_pos (a - b)) as Hp.
  assert (Hz : Rabs (a - b) = 0 <-> a = b).
  { split; intros H.
    - destruct (Req_dec (a - b) 0) as [E|E]; [lra|].
      apply Rabs_no_R0 in E. contradiction.
    - subst. replace (b - b) with 0 by lra. apply Rabs_R0. }
  unfold Rmin. destruct (Rle_dec (Rabs (a - b)) 3) as [H3|H3].
  - split; [reflexivity|]. split; [lra|]. split.
    + rewrite <- Hz. split; intros; lra.
    + split; intros; lra.
  - split; [reflexivity|]. split; [lra|]. split.
    + rewrite <- Hz. split; intros; lra.
    + split; intros; lra.
Qed.

(* ================================================================== *)
(** * Further properties of the cosine similarity *)
(* ================================================================== *)

Section MoreCosineFacts.

Lemma dot_sym (a b : list R) : dot a b = dot b a.
Proof.
  unfold dot. revert b; induction a as [|x r IH]; intros [|y s]; simpl; auto.
  rewrite (IH s). lra.
Qed.

Lemma dot_scale_l (k : R) (a b : list R) :
  dot (map (Rmult k) a) b = k * dot a b.
Proof.
  unfold dot. revert b; induction a as [|x r IH]; intros [|y s]; simpl;
    try lra.
  rewrite (IH s). lra.
Qed.

Lemma dot_scale_both (k : R) (a : list R) :
  dot (map (Rmult k) a) (map (Rmult k) a) = k * k * dot a a.
Proof.
  unfold dot. induction a as [|x r IH]; simpl; [lra|]. rewrite IH. lra.
Qed.

End MoreCosineFacts.

(** X6 [cosineSimilarity] is symmetric in its two vectors, and two
    vectors without a negative component never have a negative
    similarity. *)
Theorem cosineSimilarity_symmetric (a b : list R) :
  cosineSimilarity a b = cosineSimilarity b a
  /\ (nonneg a -> nonneg b -> 0 <= cosineSimilarity a b).
Proof.
  split; [|apply cosineSimilarity_nonneg].
  destruct (Nat.eq_dec (List.length a) (List.length b)) as [H|H].
  - rewrite (cosineSimilarity_equal a b H),
      (cosineSimilarity_equal b a (eq_sym H)).
    rewrite (dot_sym a b), orb_comm, (Rmult_comm (sqrt (dot a a))).
    reflexivity.
  - rewrite !cosineSimilarity_unequal; auto.
Qed.

(** X7 [cosineSimilarity] changes sign with either vector: the similarity
    with the opposite of a vector is the opposite of the similarity, and
    taking the opposite of both vectors changes nothing. *)
Theorem cosineSimilarity_opposite (a b : list R) :
  cosineSimilarity a (map Ropp b) = - cosineSimilarity a b
  /\ cosineSimilarity (map Ropp a) b = - cosineSimilarity a b
  /\ cosineSimilarity (map Ropp a) (map Ropp b) = cosineSimilarity a b.
Proof.
  assert (Hm : forall v, map Ropp v = map (Rmult (-1)) v).
  { intros v. apply map_ext. intros x. lra. }
  assert (Hself : forall v,
            dot (map (Rmult (-1)) v) (map (Rmult (-1)) v) = dot v v).
  { intros v. rewrite dot_scale_both. lra. }
  assert (Hr : forall u v : list R,
            cosineSimilarity u (map Ropp v) = - cosineSimilarity u v).
  { intros u v. rewrite Hm.
    destruct (Nat.eq_dec (List.length u) (List.length v)) as [H|H].
    - rewrite (cosineSimilarity_equal u v H).
      rewrite cosineSimilarity_equal by (rewrite length_map; exact H).
      rewrite Hself, (dot_sym u (map (Rmult (-1)) v)), dot_scale_l,
        (dot_sym v u).
      destruct (Reqb (dot u u) 0 || Reqb (dot v v) 0); [lra|].
      unfold Rdiv. lra.
    - rewrite !cosineSimilarity_unequal; auto; [lra|].
      rewrite length_map. exact H. }
  assert (Hsym : forall u v : list R,
            cosineSimilarity u v = cosineSimilarity v u).
  { intros u v.
    destruct (Nat.eq_dec (List.length u) (List.length v)) as [H|H].
    - rewrite (cosineSimilarity_equal u v H),
        (cosineSimilarity_equal v u (eq_sym H)).
      rewrite (dot_sym u v), orb_comm, (Rmult_comm (sqrt (dot u u))).
      reflexivity.
    - rewrite !cosineSimilarity_unequal; auto. }
  split; [apply Hr|].
  split.
  - rewrite (Hsym (map Ropp a) b), Hr, (Hsym b a). reflexivity.
  - rewrite Hr, (Hsym (map Ropp a) b), Hr, (Hsym b a). lra.
Qed.

(* ================================================================== *)
(** * Further properties of candidate generation and similarity search *)
(* ================================================================== *)

Section MoreCandidateFacts.
Import Candidates.

Lemma prefix_app (p t : string) : prefix p (p ++ t) = true.
Proof.
  induction p as [|c r IH]; simpl; [destruct t; reflexivity|].
  destruct (ascii_dec c c) as [_|H]; [exact IH|contradiction].
Qed.

Lemma string_app_assoc (a b c : string) :
  ((a ++ b) ++ c = a ++ (b ++ c))%string.
Proof. induction a as [|x r IH]; simpl; [reflexivity|]. rewrite IH. reflexivity. Qed.

Lemma loadFeatures_missing (st : Store) (id : string) :
  lookup_features (features st) id = None ->
  loadFeatures st id
  = Throw (Error (("Features not found for track " ++ id ++ ", error: ")
                  ++ read_error id)).
Proof.
  unfold loadFeatures. intros ->.
  rewrite !string_app_assoc. reflexivity.
Qed.

Lemma startA_of_bound (pA : list (list R)) (i : nat) :
  (startA_of pA <= i)%nat -> 0.7 * INR (List.length pA) - 1 < INR i.
Proof.
  unfold startA_of, Js.floor. intros H.
  pose proof (Zfloor_bound (INR (List.length pA) * 0.7)) as [_ Hb].
  assert (Hz : (Zfloor (INR (List.length pA) * 0.7) <= Z.of_nat i)%Z) by lia.
  apply IZR_le in Hz. rewrite <- INR_IZR_INZ in Hz. lra.
Qed.

Lemma endB_of_bound (pB : list (list R)) (j : nat) :
  (j < endB_of pB)%nat -> INR j + 1 <= 0.3 * INR (List.length pB).
Proof.
  unfold endB_of, Js.floor. intros H.
  pose proof (Zfloor_bound (INR (List.length pB) * 0.3)) as [Hb _].
  assert (Hz : (Z.of_nat j + 1 <= Zfloor (INR (List.length pB) * 0.3))%Z) by lia.
  apply IZR_le in Hz. rewrite plus_IZR, <- INR_IZR_INZ in Hz. lra.
Qed.

Lemma endB_of_small (pB : list (list R)) :
  (List.length pB <= 3)%nat -> endB_of pB = 0%nat.
Proof.
  intros H. unfold endB_of.
  assert (Hf : Js.floor (INR (List.length pB) * 0.3) = 0%Z).
  { apply floor_eq. pose proof (pos_INR (List.length pB)).
    assert (INR (List.length pB) <= 3).
    { replace 3 with (INR 3) by (simpl; lra). apply le_INR. exact H. }
    simpl. lra. }
  rewrite Hf. lia.
Qed.

Lemma scan_loop_none (N : SearchArith) (tid : string) (dur : R) (n : nat)
    (vs : list (list R)) (i : nat) (acc : list Hit) :
  scan_loop N None tid dur n vs i acc = acc.
Proof. destruct vs; reflexivity. Qed.

Lemma scan_none (N : SearchArith) (st : Store) (scope : Scope) :
  scan N st None scope = [].
Proof.
  unfold scan. generalize (values (manifests st)) as ms.
  induction ms as [|m r IH]; simpl; [reflexivity|].
  replace (scan_track N st None scope [] m) with (@nil Hit); [exact IH|].
  unfold scan_track.
  destruct (negb (Status_eqb (status m) ready)); [reflexivity|].
  destruct (summary m); [|reflexivity].
  destruct (loadFeatures st (track_id m)); [|reflexivity].
  rewrite scan_loop_none. reflexivity.
Qed.

Lemma Status_eqb_ready (s : Status) : Status_eqb s ready = true -> s = ready.
Proof. destruct s; simpl; intros; try discriminate; reflexivity. Qed.

(** Where a hit of the scan comes from. *)
Lemma scan_origin (N : SearchArith) (st : Store) (v : list R) (scope : Scope)
    (h : Hit) :
  In h (scan N st (Some v) scope) ->
  exists m tf i w,
    In m (values (manifests st)) /\ status m = ready /\ summary m <> None
    /\ loadFeatures st (track_id m) = Normal tf
    /\ nth_error (vectors_of scope tf) i = Some w
    /\ h = mkHit (track_id m)
                 (position_of N i (List.length (vectors_of scope tf))
                              (duration (f_summary tf)))
                 (similarity N v w).
Proof.
  unfold scan.
  assert (G : forall ms acc,
    In h (fold_left (scan_track N st (Some v) scope) ms acc) ->
    In h acc \/
    exists m tf i w,
      In m ms /\ status m = ready /\ summary m <> None
      /\ loadFeatures st (track_id m) = Normal tf
      /\ nth_error (vectors_of scope tf) i = Some w
      /\ h = mkHit (track_id m)
                   (position_of N i (List.length (vectors_of scope tf))
                                (duration (f_summary tf)))
                   (similarity N v w)).
  { induction ms as [|m r IH]; intros acc H; simpl in H; [left; exact H|].
    apply IH in H. destruct H as [H|[m' [tf [i [w [Hin Hrest]]]]]].
    - unfold scan_track in H.
      destruct (Status_eqb (status m) ready) eqn:ES; simpl in H;
        [|left; exact H].
      apply Status_eqb_ready in ES.
      destruct (summary m) eqn:ESum; [|left; exact H].
      destruct (loadFeatures st (track_id m)) as [tf|] eqn:EF; [|left; exact H].
      rewrite scan_loop_some in H. apply in_app_or in H.
      destruct H as [H|H]; [left; exact H|].
      apply in_map_iff in H. destruct H as [[i w] [Hh Hiw]]. simpl in Hh.
      right. exists m, tf, i, w.
      split; [left; reflexivity|]. split; [exact ES|].
      split; [rewrite ESum; discriminate|]. split; [exact EF|].
      split; [|symmetry; exact Hh].
      clear - Hiw. revert Hiw.
      assert (G : forall (vs : list (list R)) s,
                 In (i, w) (combine (seq s (List.length vs)) vs) ->
                 (s <= i)%nat /\ nth_error vs (i - s) = Some w).
      { induction vs as [|x r IH]; intros s H; simpl in H; [contradiction|].
        destruct H as [H|H].
        - inversion H; subst. rewrite Nat.sub_diag. split; [lia|reflexivity].
        - apply IH in H. destruct H as [Hle Hn]. split; [lia|].
          replace (i - s)%nat with (S (i - S s)) by lia. exact Hn. }
      intros H. apply G in H. rewrite Nat.sub_0_r in H. apply H.
    - right. exists m', tf, i, w. split; [right; exact Hin|exact Hrest]. }
  intros H. apply G in H. destruct H as [[]|H]. exact H.
Qed.

End MoreCandidateFacts.

(** X8 [generateCandidates] fails before it scores anything when data is
    missing: it throws an error whose message starts with "Features not
    found for track <id>, error: " for the first track without feature
    files, and "Track summaries not available" when both have features but
    one of them has no manifest or no summary. *)
Theorem generateCandidates_errors (st : Store) (a b : string) (k : Z)
    (fA fB : Features) :
  (lookup_features (features st) a = None ->
   throws_starting (Candidates.generateCandidates st a b k)
                   ("Features not found for track " ++ a ++ ", error: "))
  /\ (loadFeatures st a = Normal fA ->
      lookup_features (features st) b = None ->
      throws_starting (Candidates.generateCandidates st a b k)
                      ("Features not found for track " ++ b ++ ", error: "))
  /\ (loadFeatures st a = Normal fA -> loadFeatures st b = Normal fB ->
      option_map summary (getManifest st a) = None
      \/ option_map summary (getManifest st a) = Some None
      \/ option_map summary (getManifest st b) = None
      \/ option_map summary (getManifest st b) = Some None ->
      Candidates.generateCandidates st a b k
      = Throw (Error "Track summaries not available")).
Proof.
  unfold Candidates.generateCandidates. split; [|split].
  - intros H. rewrite (loadFeatures_missing st a H).
    eexists. split; [reflexivity|apply prefix_app].
  - intros HA H. rewrite HA, (loadFeatures_missing st b H).
    eexists. split; [reflexivity|apply prefix_app].
  - intros HA HB H. rewrite HA, HB. simpl.
    destruct (option_map summary (getManifest st a)) as [[sA|]|];
      destruct (option_map summary (getManifest st b)) as [[sB|]|];
      try reflexivity.
    destruct H as [H|[H|[H|H]]]; discriminate.
Qed.

(** X9 [generateCandidates] only pairs the end of the outgoing track with
    the start of the incoming one: every candidate leaves track A after 70%
    of its duration less two phrases and enters track B before 30% of its
    duration; an incoming track with at most 3 phrases, or an outgoing
    track with none, gives no candidate at all.  (The first phrase index of
    track A is [Math.floor(n * 0.7)]; in doubles that product can fall just
    below the exact one, for 90 phrases it gives 62 and not 63, which the
    margin of two phrases allows for.) *)
Theorem generateCandidates_window (st : Store) (a b : string) (k : Z)
    (mA mB : TrackManifest) (sA sB : TrackSummary) (fA fB : Features) :
  getManifest st a = Some mA -> summary mA = Some sA ->
  getManifest st b = Some mB -> summary mB = Some sB ->
  loadFeatures st a = Normal fA -> loadFeatures st b = Normal fB ->
  0 < duration sA -> 0 < duration sB ->
  exists cs,
    Candidates.generateCandidates st a b k = Normal cs
    /\ Forall (fun c =>
         0.7 * duration sA
         - 2 * (duration sA / INR (List.length (phraseVecs fA)))
         < Candidates.from_position c < duration sA
         /\ 0 <= Candidates.to_position c < 0.3 * duration sB) cs
    /\ ((List.length (phraseVecs fB) <= 3)%nat \/ phraseVecs fA = [] ->
        cs = []).
Proof.
  intros MA SA MB SB FA FB HdA HdB.
  eexists. split.
  - unfold Candidates.generateCandidates.
    rewrite FA, FB; simpl. rewrite MA, MB; simpl. rewrite SA, SB. reflexivity.
  - split.
    + rewrite Forall_forall. intros c Hc.
      apply In_slice0 in Hc. apply In_sort_desc in Hc.
      apply In_collect in Hc. destruct Hc as [i [j [Hi [Hj [Hc _]]]]].
      subst c. simpl.
      set (n := List.length (phraseVecs fA)) in *.
      set (m := List.length (phraseVecs fB)) in *.
      pose proof (startA_of_bound (phraseVecs fA) i (proj1 Hi)) as HA.
      pose proof (endB_of_bound (phraseVecs fB) j Hj) as HB.
      pose proof (endB_of_le (phraseVecs fB)) as HleB.
      fold n in HA. fold m in HB, HleB.
      assert (Hn : 0 < INR n) by (apply lt_0_INR; lia).
      assert (Hm : 0 < INR m) by (apply lt_0_INR; lia).
      pose proof (INR_ratio_range i n (proj2 Hi)) as [Hi0 Hi1].
      assert (Hjm : (j < m)%nat) by lia.
      pose proof (INR_ratio_range j m Hjm) as [Hj0 Hj1].
      assert (HiA : 0.7 - / INR n < INR i / INR n).
      { apply Rmult_lt_reg_r with (INR n); [exact Hn|].
        unfold Rdiv. rewrite Rmult_assoc, Rinv_l by lra.
        rewrite Rmult_minus_distr_r, Rinv_l by lra. lra. }
      assert (HjB : INR j / INR m < 0.3).
      { apply Rmult_lt_reg_r with (INR m); [exact Hm|].
        unfold Rdiv. rewrite Rmult_assoc, Rinv_l by lra. lra. }
      assert (Hinv : 0 < / INR n) by (apply Rinv_0_lt_compat; exact Hn).
      unfold Rdiv in *. repeat split; nra.
    + intros H.
      assert (Hc : Candidates.collect sA sB (phraseVecs fA) (phraseVecs fB) = []).
      { unfold Candidates.collect. destruct H as [H|H].
        - rewrite (endB_of_small _ H). unfold Candidates.range at 1. simpl.
          induction (Candidates.range _ _); simpl; auto.
        - rewrite H. reflexivity. }
      rewrite Hc. simpl. unfold slice0.
      destruct (k <? 0)%Z; apply firstn_nil.
Qed.

Lemma generateCandidates_window_witness :
  exists cs,
    Candidates.generateCandidates Samples.st0 "a" "b" 5 = Normal cs
    /\ Forall (fun c =>
         0.7 * 180 - 2 * (180 / INR 1) < Candidates.from_position c < 180
         /\ 0 <= Candidates.to_position c < 0.3 * 200) cs.
Proof.
  destruct (generateCandidates_window Samples.st0 "a" "b" 5
              (Samples.manifest_of "a" Samples.sA0)
              (Samples.manifest_of "b" Samples.sB0)
              Samples.sA0 Samples.sB0 Samples.fA0 Samples.fB0)
    as [cs [Hrun [Hall _]]]; try reflexivity; try (simpl; lra).
  exists cs. split; [exact Hrun|exact Hall].
Defined.

(** X10 What [searchSimilar] returns, in every arithmetic: at most [k]
    hits, sorted by descending score, each of them a hit of a library track
    whose manifest is ready, has a summary and has feature files. *)
Theorem searchSimilar_result (N : Candidates.SearchArith) (st : Store)
    (tid : string) (position : R) (scope : Candidates.Scope) (k : Z)
    (hits : list Candidates.Hit) :
  Candidates.searchSimilar N st tid position scope k = Normal hits ->
  (0 <= k)%Z ->
  (Z.of_nat (List.length hits) <= k)%Z
  /\ StronglySorted (desc Candidates.h_score) hits
  /\ Forall (fun h =>
       exists m tf,
         In m (values (manifests st))
         /\ track_id m = Candidates.h_track_id h
         /\ status m = ready /\ summary m <> None
         /\ loadFeatures st (track_id m) = Normal tf) hits.
Proof.
  unfold Candidates.searchSimilar. intros H Hk.
  destruct (loadFeatures st tid) as [f|]; simpl in H; [|discriminate].
  inversion H; subst. clear H.
  split; [apply length_slice0; exact Hk|].
  split; [apply slice0_sorted, sort_desc_sorted|].
  rewrite Forall_forall. intros h Hh.
  apply In_slice0 in Hh. apply In_sort_desc in Hh.
  destruct (Candidates.ref_vector N f scope position) as [v|];
    [|rewrite scan_none in Hh; contradiction].
  apply scan_origin in Hh.
  destruct Hh as [m [tf [i [w [Hin [ES [ESum [EF [_ Hh]]]]]]]]]. subst h. simpl.
  exists m, tf. auto.
Qed.

Lemma searchSimilar_result_witness :
  exists hits,
    Candidates.searchSimilar Candidates.exact Samples.st0 "b" 0
                             Candidates.phrase 3 = Normal hits
    /\ (Z.of_nat (List.length hits) <= 3)%Z
    /\ StronglySorted (desc Candidates.h_score) hits.
Proof.
  eexists. split; [reflexivity|].
  destruct (searchSimilar_result Candidates.exact Samples.st0 "b" 0
              Candidates.phrase 3 _ eq_refl) as [Hl [Hs _]]; [lia|].
  split; [exact Hl|exact Hs].
Defined.

(** X11 The failure and the empty answer of [searchSimilar], in every
    arithmetic: it throws an error whose message starts with "Features not
    found for track <id>, error: " when the query track has no feature
    files, and it returns the empty list when no reference vector is
    selected, which is the case when the query track has no vector of the
    scope, and when the index computed from the position is NaN, -Infinity
    or a negative integer. *)
Theorem searchSimilar_no_reference (N : Candidates.SearchArith) (st : Store)
    (tid : string) (position : R) (scope : Candidates.Scope) (k : Z)
    (f : Features) :
  (lookup_features (features st) tid = None ->
   throws_starting (Candidates.searchSimilar N st tid position scope k)
                   ("Features not found for track " ++ tid ++ ", error: "))
  /\ (loadFeatures st tid = Normal f ->
      Candidates.vectors_of scope f = []
      \/ (forall z, Candidates.ref_index N f scope position = Finite z ->
                    (z < 0)%Z) ->
      Candidates.searchSimilar N st tid position scope k = Normal []).
Proof.
  unfold Candidates.searchSimilar. split.
  - intros H. rewrite (loadFeatures_missing st tid H).
    eexists. split; [reflexivity|apply prefix_app].
  - intros EF H. rewrite EF. simpl.
    assert (Href : Candidates.ref_vector N f scope position = None).
    { unfold Candidates.ref_vector.
      assert (Hneg : forall z,
                Candidates.ref_index N f scope position = Finite z ->
                (z < 0)%Z).
      { destruct H as [H|H]; [|exact H].
        unfold Candidates.ref_index. rewrite H. cbn [List.length].
        intros z.
        destruct (Candidates.position_index N position
                    (duration (f_summary f)) 0) as [y| | |];
          cbn [min_index]; intros Hz; inversion Hz; lia. }
      destruct (Candidates.ref_index N f scope position) as [z| | |];
        cbn [Candidates.at_index]; try reflexivity.
      unfold Candidates.index.
      destruct (Z.ltb_spec z 0) as [_|Hz]; [reflexivity|].
      specialize (Hneg z eq_refl). lia. }
    rewrite Href, scan_none. simpl. unfold slice0.
    destruct (k <? 0)%Z; rewrite firstn_nil; reflexivity.
Qed.

(** The division by zero in exact arithmetic: a track of duration 0 queried
    at position 0 has no reference vector ([0 / 0] is NaN), and queried at
    a positive position it has its last vector as reference. *)
Lemma ref_vector_zero_duration (f : Features) (scope : Candidates.Scope)
    (position : R) :
  duration (f_summary f) = 0 ->
  (position <= 0 ->
   Candidates.ref_vector Candidates.exact f scope position = None)
  /\ (0 < position ->
      Candidates.ref_vector Candidates.exact f scope position
      = nth_error (Candidates.vectors_of scope f)
                  (List.length (Candidates.vectors_of scope f) - 1)
      \/ Candidates.vectors_of scope f = []).
Proof.
  intros Hd.
  unfold Candidates.ref_vector, Candidates.ref_index, Candidates.exact.
  cbn [Candidates.position_index]. unfold floor_ratio.
  rewrite Hd, (proj2 (Reqb_true 0 0) eq_refl).
  split.
  - intros Hp.
    destruct (Reqb position 0) eqn:E0; cbn [orb]; [reflexivity|].
    destruct (List.length (Candidates.vectors_of scope f) =? 0)%nat;
      [reflexivity|].
    rewrite (proj2 (Rltb_false 0 position)) by lra. reflexivity.
  - intros Hp.
    rewrite (proj2 (Reqb_false position 0)) by lra. cbn [orb].
    destruct (Candidates.vectors_of scope f) as [|x r] eqn:EV;
      [right; reflexivity|].
    left. cbn [List.length Nat.eqb].
    rewrite (proj2 (Rltb_true 0 position)) by lra.
    cbn [min_index Candidates.at_index]. unfold Candidates.index.
    destruct (Z.ltb_spec (Z.of_nat (S (List.length r)) - 1) 0); [lia|].
    f_equal. lia.
Qed.

(* ================================================================== *)
(** * Further properties of the recommendations *)
(* ================================================================== *)

Section MoreRecommendationFacts.
Import Recommendations.

Lemma existsb_eqb_false (id : string) (l : list string) :
  existsb (String.eqb id) l = false -> ~ In id l.
Proof.
  intros H Hin. assert (existsb (String.eqb id) l = true).
  { apply existsb_exists. exists id. split; [exact Hin|apply String.eqb_refl]. }
  congruence.
Qed.

(** Which track a recommendation pushed by the loop stands for. *)
Lemma In_evaluated_track (st : Store) (src : string) (sS : TrackSummary)
    (pS : list (list R)) (minScore : R) (excl : list string)
    (r : TrackRecommendation) :
  In r (evaluated st src sS pS minScore excl) ->
  exists m,
    In m (values (manifests st)) /\ t_id (track r) = track_id m
    /\ status m = ready /\ summary m <> None
    /\ track_id m <> src /\ ~ In (track_id m) excl
    /\ rec_score r = r_overall (rec_scores r)
    /\ minScore <= rec_score r.
Proof.
  unfold evaluated.
  assert (G : forall ms acc,
    In r (fold_left (evaluate st src sS pS minScore excl) ms acc) ->
    In r acc \/
    exists m,
      In m ms /\ t_id (track r) = track_id m
      /\ status m = ready /\ summary m <> None
      /\ track_id m <> src /\ ~ In (track_id m) excl
      /\ rec_score r = r_overall (rec_scores r)
      /\ minScore <= rec_score r).
  { induction ms as [|m ms IH]; intros acc H; simpl in H; [left; exact H|].
    apply IH in H. destruct H as [H|[m' [Hin Hrest]]].
    - unfold evaluate in H.
      destruct (summary m) as [tS|] eqn:ES; [|left; exact H].
      destruct (Status_eqb (status m) ready) eqn:ET; cbn [negb orb] in H;
        [|left; exact H].
      destruct (String.eqb (track_id m) src) eqn:En; cbn [negb orb] in H;
        [left; exact H|].
      destruct (existsb (String.eqb (track_id m)) excl) eqn:Ex;
        cbn [negb orb] in H; [left; exact H|].
      destruct (loadFeatures st (track_id m)) as [tf|] eqn:EF; [|left; exact H].
      destruct (Rgeb (r_overall (scores_for sS tS pS (phraseVecs tf))) minScore)
        eqn:EG; [|left; exact H].
      apply in_app_or in H. destruct H as [H|[H|[]]]; [left; exact H|].
      right. exists m. subst r; simpl.
      apply Rleb_true in EG. apply Status_eqb_ready in ET.
      apply String.eqb_neq in En. apply existsb_eqb_false in Ex.
      repeat split; auto; try (left; reflexivity).
      rewrite ES; discriminate.
    - right. exists m'. split; [right; exact Hin|exact Hrest]. }
  intros H. apply G in H. destruct H as [[]|H]. exact H.
Qed.

Lemma length_add_vec (acc vec : list R) :
  List.length (add_vec acc vec) = List.length acc.
Proof.
  unfold add_vec. rewrite length_map, length_combine, length_seq. lia.
Qed.

Lemma nth_combine_seq (acc : list R) (s i : nat) :
  (i < List.length acc)%nat ->
  nth i (combine (seq s (List.length acc)) acc) (0%nat, 0)
  = ((s + i)%nat, nth i acc 0).
Proof.
  revert s i; induction acc as [|x r IH]; intros s [|i] H; simpl in *; try lia.
  - rewrite Nat.add_0_r. reflexivity.
  - rewrite IH by lia. f_equal. lia.
Qed.

Lemma nth_map_in {A B} (f : A -> B) (l : list A) (i : nat) (d : B) (d' : A) :
  (i < List.length l)%nat -> nth i (map f l) d = f (nth i l d').
Proof.
  revert i; induction l as [|x r IH]; intros [|i] H; simpl in *; try lia;
    [reflexivity|].
  apply IH. lia.
Qed.

Lemma nth_add_vec (acc vec : list R) (i : nat) :
  (i < List.length acc)%nat ->
  nth i (add_vec acc vec) 0 = nth i acc 0 + nth i vec 0.
Proof.
  intros H. unfold add_vec.
  rewrite (nth_map_in _ _ _ _ (0%nat, 0))
    by (rewrite length_combine, length_seq; lia).
  rewrite nth_combine_seq by exact H. reflexivity.
Qed.

Lemma fold_add_vec_nth (phrases : list (list R)) :
  forall (acc : list R) (i : nat),
  (i < List.length acc)%nat ->
  List.length (fold_left add_vec phrases acc) = List.length acc
  /\ nth i (fold_left add_vec phrases acc) 0
     = nth i acc 0 + fold_right (fun p s => nth i p 0 + s) 0 phrases.
Proof.
  induction phrases as [|p r IH]; intros acc i H; simpl.
  - split; [reflexivity|lra].
  - destruct (IH (add_vec acc p) i) as [Hl Hn];
      [rewrite length_add_vec; exact H|].
    rewrite Hl, Hn, length_add_vec, nth_add_vec by exact H.
    split; [reflexivity|lra].
Qed.

Lemma length_fold_add_vec (phrases : list (list R)) (acc : list R) :
  List.length (fold_left add_vec phrases acc) = List.length acc.
Proof.
  revert acc; induction phrases as [|p r IH]; intros acc; simpl;
    [reflexivity|].
  rewrite IH. apply length_add_vec.
Qed.

(** The state of [findBestTransition] stays within bounds. *)
Lemma best_step_bounds (phrasesA phrasesB : list (list R)) (durationA durationB : R)
    (pairs : list (nat * nat)) :
  0 <= durationA -> 0 <= durationB ->
  Forall (fun ij =>
    (fst ij < List.length (slice_last phrasesA 3))%nat
    /\ (snd ij < List.length phrasesB)%nat) pairs ->
  forall best : R * R * R,
  (0 <= snd (fst best) <= durationA /\ 0 <= snd best <= durationB) ->
  let best' :=
    fold_left (best_step phrasesA phrasesB durationA durationB
                 (slice_last phrasesA 3) (slice phrasesB 0 3)) pairs best in
  0 <= snd (fst best') <= durationA /\ 0 <= snd best' <= durationB.
Proof.
  intros HA HB Hp. induction Hp as [|[i j] r [Hi Hj] Hr IH]; intros best Hb.
  - exact Hb.
  - simpl. apply IH. clear IH.
    destruct best as [[bs bf] bt]. unfold best_step. simpl in *.
    destruct (Rgtb _ bs); [|exact Hb]. simpl.
    assert (Hlen : (List.length (slice_last phrasesA 3)
                    <= List.length phrasesA)%nat).
    { unfold slice_last. rewrite length_skipn. lia. }
    assert (Hia : (List.length phrasesA - List.length (slice_last phrasesA 3) + i
                   < List.length phrasesA)%nat) by lia.
    pose proof (INR_ratio_range _ _ Hia) as Ha.
    pose proof (INR_ratio_range _ _ Hj) as Hjb.
    split; nra.
Qed.

End MoreRecommendationFacts.

(** X12 What [recommendTracks] returns: at most [limit] recommendations,
    sorted by descending score; each stands for a library track that is
    ready and has a summary, is neither the source track nor an excluded
    one, and whose score is its overall score and reaches [minScore]. *)
Theorem recommendTracks_result (st : Store) (src : string) (limit : Z)
    (minScore : R) (excl : list string)
    (rs : list Recommendations.TrackRecommendation) :
  Recommendations.recommendTracks st src limit minScore excl = Normal rs ->
  (0 <= limit)%Z ->
  (Z.of_nat (List.length rs) <= limit)%Z
  /\ StronglySorted (desc Recommendations.rec_score) rs
  /\ Forall (fun r =>
       Recommendations.t_id (Recommendations.track r) <> src
       /\ ~ In (Recommendations.t_id (Recommendations.track r)) excl
       /\ minScore <= Recommendations.rec_score r
       /\ Recommendations.rec_score r
          = Recommendations.r_overall (Recommendations.rec_scores r)
       /\ exists m,
            In m (values (manifests st))
            /\ track_id m = Recommendations.t_id (Recommendations.track r)
            /\ status m = ready /\ summary m <> None) rs.
Proof.
  intros H Hl. apply recommendTracks_inv in H.
  destruct H as [fS [mS [sS [_ [_ [_ Hrs]]]]]]. subst rs.
  split; [apply length_slice0; exact Hl|].
  split; [apply slice0_sorted, sort_desc_sorted|].
  rewrite Forall_forall. intros r Hr.
  apply In_slice0 in Hr. apply In_sort_desc in Hr.
  apply In_evaluated_track in Hr.
  destruct Hr as [m [Hin [Hid [ES [ESum [Hsrc [Hex [Hov Hmin]]]]]]]].
  rewrite Hid. repeat split; auto.
  exists m. auto.
Qed.

Lemma recommendTracks_result_witness :
  exists rs,
    Recommendations.recommendTracks Samples.st0 "a" 10 0.4 ["c"] = Normal rs
    /\ (Z.of_nat (List.length rs) <= 10)%Z
    /\ Forall (fun r =>
         Recommendations.t_id (Recommendations.track r) <> "a") rs.
Proof.
  eexists. split; [reflexivity|].
  destruct (recommendTracks_result Samples.st0 "a" 10 0.4 ["c"] _ eq_refl)
    as [Hl [_ Hall]]; [lia|].
  split; [exact Hl|].
  eapply Forall_impl; [|exact Hall]. intros r [H _]. exact H.
Defined.

(** X13 [recommendTracks] fails when the source track is not analysed: it
    throws an error whose message starts with "Features not found for track
    <id>, error: " without feature files, and "Source track summary not
    available" when the features are there but the manifest or its summary
    is not. *)
Theorem recommendTracks_errors (st : Store) (src : string) (limit : Z)
    (minScore : R) (excl : list string) (fS : Features) :
  (lookup_features (features st) src = None ->
   throws_starting (Recommendations.recommendTracks st src limit minScore excl)
                   ("Features not found for track " ++ src ++ ", error: "))
  /\ (loadFeatures st src = Normal fS ->
      option_map summary (getManifest st src) = None
      \/ option_map summary (getManifest st src) = Some None ->
      Recommendations.recommendTracks st src limit minScore excl
      = Throw (Error "Source track summary not available")).
Proof.
  unfold Recommendations.recommendTracks. split.
  - intros H. rewrite (loadFeatures_missing st src H).
    eexists. split; [reflexivity|apply prefix_app].
  - intros EF H. rewrite EF. simpl.
    destruct H as [H|H]; rewrite H; reflexivity.
Qed.

(** X14 [findBestTransition] reports no transition when either track has
    no phrase vector; a transition it reports has a score above 0.5, and
    its two positions lie within the durations of the tracks. *)
Theorem findBestTransition_bounds (phrasesA phrasesB : list (list R))
    (durationA durationB : R) :
  (phrasesA = [] \/ phrasesB = [] ->
   Recommendations.findBestTransition phrasesA phrasesB durationA durationB
   = None)
  /\ (0 <= durationA -> 0 <= durationB ->
      forall t,
      Recommendations.findBestTransition phrasesA phrasesB durationA durationB
      = Some t ->
      0.5 < Recommendations.t_score t
      /\ 0 <= Recommendations.fromPosition t <= durationA
      /\ 0 <= Recommendations.toPosition t <= durationB).
Proof.
  split.
  - intros H. unfold Recommendations.findBestTransition.
    assert (Hp : flat_map
                   (fun i => map (fun j => (i, j))
                               (seq 0 (List.length (slice phrasesB 0 3))))
                   (seq 0 (List.length (slice_last phrasesA 3))) = []).
    { destruct H as [->| ->]; [reflexivity|].
      simpl. induction (seq 0 _); simpl; auto. }
    rewrite Hp. simpl.
    unfold Rgtb. rewrite (proj2 (Rltb_false 0.5 0)) by lra. reflexivity.
  - intros HA HB t H. unfold Recommendations.findBestTransition in H.
    set (pairs := flat_map _ _) in H.
    assert (Hp : Forall (fun ij =>
                   (fst ij < List.length (slice_last phrasesA 3))%nat
                   /\ (snd ij < List.length phrasesB)%nat) pairs).
    { unfold pairs. rewrite Forall_forall. intros [i j] Hin.
      apply in_flat_map in Hin. destruct Hin as [i' [Hi Hin]].
      apply in_map_iff in Hin. destruct Hin as [j' [E Hj]].
      inversion E; subst. apply in_seq in Hi. apply in_seq in Hj.
      rewrite length_slice in Hj. simpl. lia. }
    pose proof (best_step_bounds phrasesA phrasesB durationA durationB pairs
                  HA HB Hp (0, 0, 0)) as Hb.
    simpl in Hb.
    destruct (fold_left _ pairs (0, 0, 0)) as [[bs bf] bt].
    destruct (Rgtb bs 0.5) eqn:E; [|discriminate].
    inversion H; subst. simpl. apply Rltb_true in E.
    simpl in Hb. destruct Hb as [H2 H3]; [lra|]. lra.
Qed.

(** X15 [avgPhrase], the vector used for the texture score, is the
    component-wise mean of the phrase vectors: it has the dimension of the
    first vector, and each of its components is the sum of that component
    over all vectors (a missing component counting as 0) divided by the
    number of vectors. *)
Theorem avgPhrase_mean (first : list R) (rest : list (list R)) (i : nat) :
  List.length (Recommendations.avgPhrase (first :: rest)) = List.length first
  /\ ((i < List.length first)%nat ->
      nth i (Recommendations.avgPhrase (first :: rest)) 0
      = fold_right (fun p s => nth i p 0 + s) 0 (first :: rest)
        / INR (List.length (first :: rest))).
Proof.
  unfold Recommendations.avgPhrase. split.
  - rewrite length_map, length_fold_add_vec, repeat_length. reflexivity.
  - intros Hi.
    rewrite (nth_map_in _ _ _ _ 0)
      by (rewrite length_fold_add_vec, repeat_length; exact Hi).
    destruct (fold_add_vec_nth (first :: rest)
                (repeat 0 (List.length first)) i) as [_ Hn];
      [rewrite repeat_length; exact Hi|].
    rewrite Hn. rewrite nth_repeat. f_equal. lra.
Qed.

Lemma avgPhrase_mean_witness :
  nth 1 (Recommendations.avgPhrase [[1; 2]; [3; 6]]) 0
  = fold_right (fun p s => nth 1 p 0 + s) 0 [[1; 2]; [3; 6]]
    / INR (List.length [[1; 2]; [3; 6]]).
Proof.
  apply (proj2 (avgPhrase_mean [1; 2] [[3; 6]] 1)). simpl. lia.
Defined.

(* ================================================================== *)
(** * Properties of the segment search *)
(* ================================================================== *)

Section SegmentFacts.
Import Segments.

Variable N : Candidates.SearchArith.

Lemma across_loop_none (m : TrackManifest) (s : TrackSummary)
    (scope : Candidates.Scope) (minSim : R) (n : nat) (vs : list (list R))
    (i : nat) (acc : list SegmentHit) :
  across_loop N None m s scope minSim n vs i acc = acc.
Proof. destruct vs; reflexivity. Qed.

Lemma across_loop_origin (v : list R) (m : TrackManifest) (s : TrackSummary)
    (scope : Candidates.Scope) (minSim : R) (n : nat) (h : SegmentHit)
    (vs : list (list R)) :
  forall (i : nat) (acc : list SegmentHit),
  In h (across_loop N (Some v) m s scope minSim n vs i acc) ->
  In h acc \/
  (sh_trackId h = track_id m /\ minSim <= sh_score h).
Proof.
  induction vs as [|w r IH]; intros i acc H; simpl in H; [left; exact H|].
  apply IH in H.
  destruct H as [H|H]; [|right; exact H].
  destruct (Rgeb (Candidates.similarity N v w) minSim) eqn:E; [|left; exact H].
  apply in_app_or in H. destruct H as [H|[H|[]]]; [left; exact H|].
  right. subst h. simpl. apply Rleb_true in E.
  split; [reflexivity|exact E].
Qed.

Lemma across_track_origin (st : Store) (refVec : option (list R))
    (trackId : string) (scope : Candidates.Scope) (minSim : R)
    (h : SegmentHit) (acc : list SegmentHit) (m : TrackManifest) :
  In h (across_track N st refVec trackId scope minSim acc m) ->
  In h acc \/
  (sh_trackId h = track_id m /\ track_id m <> trackId
   /\ status m = ready /\ minSim <= sh_score h).
Proof.
  unfold across_track. intros H.
  destruct (summary m) as [s|]; [|left; exact H].
  destruct (Status_eqb (status m) ready) eqn:ES; cbn [negb orb] in H;
    [|left; exact H].
  destruct (String.eqb (track_id m) trackId) eqn:En; [left; exact H|].
  destruct (loadFeatures st (track_id m)) as [tf|]; [|left; exact H].
  destruct refVec as [v|]; [|rewrite across_loop_none in H; left; exact H].
  apply across_loop_origin in H. destruct H as [H|[H1 H2]]; [left; exact H|].
  right. apply Status_eqb_ready in ES. apply String.eqb_neq in En. auto.
Qed.

Lemma across_fold_origin (st : Store) (refVec : option (list R))
    (trackId : string) (scope : Candidates.Scope) (minSim : R)
    (h : SegmentHit) (ms : list TrackManifest) :
  forall acc,
  In h (fold_left (across_track N st refVec trackId scope minSim) ms acc) ->
  In h acc \/
  exists m, In m ms /\ sh_trackId h = track_id m /\ track_id m <> trackId
            /\ status m = ready /\ minSim <= sh_score h.
Proof.
  induction ms as [|m r IH]; intros acc H; simpl in H; [left; exact H|].
  apply IH in H. destruct H as [H|[m' [Hin Hrest]]].
  - apply across_track_origin in H. destruct H as [H|H]; [left; exact H|].
    right. exists m. split; [left; reflexivity|exact H].
  - right. exists m'. split; [right; exact Hin|exact Hrest].
Qed.

Lemma within_loop_origin (refVec : option (list R)) (idx : index_num)
    (trackId : string) (m : TrackManifest) (s : TrackSummary)
    (scope : Candidates.Scope) (minSim : R) (n : nat) (h : SegmentHit)
    (vs : list (list R)) :
  forall (i : nat) (acc rs : list SegmentHit),
  within_loop N refVec idx trackId m s scope minSim n vs i acc = Normal rs ->
  In h rs ->
  In h acc \/
  (sh_trackId h = trackId /\ minSim <= sh_score h
   /\ exists j, (i <= j < i + List.length vs)%nat /\ index_is idx j = false
                /\ sh_position h = Candidates.position_of N j n (duration s)).
Proof.
  induction vs as [|w r IH]; intros i acc rs H Hin; simpl in H.
  - inversion H; subst. left; exact Hin.
  - destruct (index_is idx i) eqn:E.
    + destruct (IH _ _ _ H Hin) as [Ha|[H1 [H2 [j [Hj Hrest]]]]];
        [left; exact Ha|].
      right. split; [exact H1|]. split; [exact H2|].
      exists j. split; [simpl; lia|exact Hrest].
    + destruct refVec as [v|]; simpl in H; [|discriminate].
      destruct (IH _ _ _ H Hin) as [Ha|[H1 [H2 [j [Hj Hrest]]]]].
      * destruct (Rgeb (Candidates.similarity N v w) minSim) eqn:EG;
          [|left; exact Ha].
        apply in_app_or in Ha. destruct Ha as [Ha|[Ha|[]]]; [left; exact Ha|].
        right. subst h. simpl. apply Rleb_true in EG.
        split; [reflexivity|]. split; [exact EG|].
        exists i. split; [simpl; lia|]. split; [exact E|reflexivity].
      * right. split; [exact H1|]. split; [exact H2|].
        exists j. split; [simpl; lia|exact Hrest].
Qed.

End SegmentFacts.

(** X16 [findSimilarSegments] across the library, unlike [searchSimilar],
    leaves the query track out: every segment it returns belongs to another
    track, whose manifest is ready, and has a similarity of at least
    [minSimilarity]; the list is sorted by descending score and holds at
    most [limit] entries.  This holds for every arithmetic. *)
Theorem findSimilarSegments_across (N : Candidates.SearchArith) (st : Store)
    (tid : string) (position : R) (scope : Candidates.Scope) (limit : Z)
    (minSim : R) (hs : list Segments.SegmentHit) :
  Segments.findSimilarSegments N st tid position scope limit minSim false
  = Normal hs ->
  (0 <= limit)%Z ->
  (Z.of_nat (List.length hs) <= limit)%Z
  /\ StronglySorted (desc Segments.sh_score) hs
  /\ Forall (fun h =>
       Segments.sh_trackId h <> tid
       /\ minSim <= Segments.sh_score h
       /\ exists m, In m (values (manifests st))
                    /\ track_id m = Segments.sh_trackId h
                    /\ status m = ready) hs.
Proof.
  unfold Segments.findSimilarSegments. intros H Hl.
  destruct (loadFeatures st tid) as [f|]; simpl in H; [|discriminate].
  destruct (getManifest st tid) as [m|]; [|discriminate].
  destruct (summary m) as [s|]; [|discriminate].
  simpl in H. inversion H; subst. clear H.
  split; [apply length_slice0; exact Hl|].
  split; [apply slice0_sorted, sort_desc_sorted|].
  rewrite Forall_forall. intros h Hh.
  apply In_slice0 in Hh. apply In_sort_desc in Hh.
  apply across_fold_origin in Hh.
  destruct Hh as [[]|[m' [Hin [Hid [Hne [ES Hsc]]]]]].
  rewrite Hid. split; [exact Hne|]. split; [exact Hsc|].
  exists m'. auto.
Qed.

Lemma findSimilarSegments_across_witness :
  exists hs,
    Segments.findSimilarSegments Candidates.exact Samples.st0 "b" 0
                                 Candidates.phrase 10 0.6 false = Normal hs
    /\ Forall (fun h => Segments.sh_trackId h <> "b") hs.
Proof.
  eexists. split; [reflexivity|].
  destruct (findSimilarSegments_across Candidates.exact Samples.st0 "b" 0
              Candidates.phrase 10 0.6 _ eq_refl) as [_ [_ Hall]]; [lia|].
  eapply Forall_impl; [|exact Hall]. intros h [H _]. exact H.
Defined.

(** X17 [findSimilarSegments] within the track returns segments of the
    query track only, each with a similarity of at least [minSimilarity],
    and never the segment whose index is the (unclamped) index computed
    from the position; an index that is NaN or infinite, as for a track of
    duration 0, is the index of no segment.  This holds for every
    arithmetic. *)
Theorem findSimilarSegments_within (N : Candidates.SearchArith) (st : Store)
    (tid : string) (position : R) (scope : Candidates.Scope) (limit : Z)
    (minSim : R) (f : Features) (m : TrackManifest) (s : TrackSummary)
    (hs : list Segments.SegmentHit) :
  loadFeatures st tid = Normal f ->
  getManifest st tid = Some m -> summary m = Some s ->
  Segments.findSimilarSegments N st tid position scope limit minSim true
  = Normal hs ->
  let n := List.length (Candidates.vectors_of scope f) in
  Forall (fun h =>
    Segments.sh_trackId h = tid
    /\ minSim <= Segments.sh_score h
    /\ exists j, (j < n)%nat
                 /\ index_is (Candidates.position_index N position
                                                       (duration s) n) j
                    = false
                 /\ Segments.sh_position h
                    = Candidates.position_of N j n (duration s)) hs.
Proof.
  unfold Segments.findSimilarSegments. intros EF EM ES H.
  rewrite EF in H. simpl in H. rewrite EM, ES in H.
  destruct (Segments.within_loop _ _ _ _ _ _ _ _ _ _ _ _) as [rs|] eqn:EW;
    simpl in H; [|discriminate].
  inversion H; subst. clear H.
  rewrite Forall_forall. intros h Hh.
  apply In_slice0 in Hh. apply In_sort_desc in Hh.
  destruct (within_loop_origin N _ _ _ _ _ _ _ _ h _ _ _ _ EW Hh)
    as [[]|[H1 [H2 [j [Hj [Hne Hp]]]]]].
  split; [exact H1|]. split; [exact H2|].
  exists j. split; [lia|]. split; [exact Hne|exact Hp].
Qed.

Lemma findSimilarSegments_within_witness :
  exists hs,
    Segments.findSimilarSegments Candidates.exact Samples.st0 "b" 0
                                 Candidates.phrase 10 0.6 true = Normal hs
    /\ Forall (fun h => Segments.sh_trackId h = "b") hs.
Proof.
  assert (Hf : floor_ratio 0 200 4 = Finite 0).
  { unfold floor_ratio. rewrite (proj2 (Reqb_false 200 0)) by lra.
    f_equal. apply floor_eq; simpl; lra. }
  assert (Hrun : exists hs,
            Segments.findSimilarSegments Candidates.exact Samples.st0 "b" 0
              Candidates.phrase 10 0.6 true = Normal hs).
  { unfold Segments.findSimilarSegments.
    change (loadFeatures Samples.st0 "b") with (Normal Samples.fB0).
    cbn [bind].
    change (getManifest Samples.st0 "b")
      with (Some (Samples.manifest_of "b" Samples.sB0)).
    cbn [summary Samples.manifest_of].
    change (Candidates.vectors_of Candidates.phrase Samples.fB0)
      with [[1; 0]; [0; 1]; [1; 1]; [1; 0]].
    change (duration Samples.sB0) with 200.
    change (List.length [[1; 0]; [0; 1]; [1; 1]; [1; 0]]) with 4%nat.
    change (Candidates.position_index Candidates.exact) with floor_ratio.
    rewrite Hf. eexists. reflexivity. }
  destruct Hrun as [hs Hrun]. exists hs. split; [exact Hrun|].
  pose proof (findSimilarSegments_within Candidates.exact Samples.st0 "b" 0
                Candidates.phrase 10 0.6 Samples.fB0
                (Samples.manifest_of "b" Samples.sB0)
                Samples.sB0 hs eq_refl eq_refl eq_refl Hrun) as H.
  eapply Forall_impl; [|exact H]. intros h [Hh _]. exact Hh.
Defined.

(* ================================================================== *)
(** * Properties of the storage layer *)
(* ================================================================== *)

Section StorageFacts.

Lemma assign_idem (ms : Manifests) (id : string) (m : TrackManifest) :
  assign (assign ms id m) id m = assign ms id m.
Proof.
  induction ms as [|[k m0] r IH]; simpl.
  - rewrite String.eqb_refl. reflexivity.
  - destruct (String.eqb k id) eqn:E; simpl; rewrite E; [reflexivity|].
    rewrite IH. reflexivity.
Qed.

End StorageFacts.

(** X18 [saveManifest] and [getManifest] form a keyed store for the track
    ids that a plain object holds as own properties (every name but those
    inherited from [Object.prototype]): a saved manifest is read back under
    its own track id, no other id is affected, saving the same manifest
    again changes nothing, and neither the feature files nor the audio
    files are touched. *)
Theorem saveManifest_getManifest (st : Store) (m : TrackManifest) (id : string) :
  own_key (track_id m) ->
  getManifest (saveManifest st m) (track_id m) = Some m
  /\ (id <> track_id m ->
      getManifest (saveManifest st m) id = getManifest st id)
  /\ saveManifest (saveManifest st m) m = saveManifest st m
  /\ features (saveManifest st m) = features st
  /\ files (saveManifest st m) = files st.
Proof.
  intros _.
  split; [apply getManifest_saveManifest|].
  split; [intros H; apply getManifest_saveManifest_other; auto|].
  split; [unfold saveManifest; simpl; rewrite assign_idem; reflexivity|].
  split; reflexivity.
Qed.

Lemma saveManifest_getManifest_witness :
  getManifest (saveManifest Samples.stq Samples.queued_manifest) "t"
  = Some Samples.queued_manifest.
Proof.
  assert (Hk : own_key (track_id Samples.queued_manifest)).
  { unfold own_key, object_prototype_keys. simpl. intros H.
    repeat (destruct H as [H|H]; [discriminate|]). exact H. }
  exact (proj1 (saveManifest_getManifest Samples.stq Samples.queued_manifest
                  "t" Hk)).
Defined.

Section IdFacts.

Lemma length_be_bytes (n : nat) (x : Z) :
  List.length (Sha256.be_bytes n x) = n.
Proof.
  revert x; induction n as [|n IH]; intros x; simpl; [reflexivity|].
  rewrite length_app, IH. simpl. lia.
Qed.

Lemma be_bytes_range (n : nat) (x : Z) :
  Forall (fun b => (0 <= b < 256)%Z) (Sha256.be_bytes n x).
Proof.
  revert x; induction n as [|n IH]; intros x; simpl; [constructor|].
  apply Forall_app. split; [apply IH|].
  constructor; [|constructor]. apply Z.mod_pos_bound. lia.
Qed.

Lemma length_sha_round (s : list Z) (kw : Z * Z) :
  List.length s = 8%nat -> List.length (Sha256.sha_round s kw) = 8%nat.
Proof.
  intros H.
  do 8 (destruct s as [|? s]; [discriminate|]).
  destruct s; [reflexivity|discriminate].
Qed.

Lemma length_rounds (l : list (Z * Z)) (s : list Z) :
  List.length s = 8%nat ->
  List.length (fold_left Sha256.sha_round l s) = 8%nat.
Proof.
  revert s; induction l as [|kw r IH]; intros s H; simpl; [exact H|].
  apply IH. apply length_sha_round. exact H.
Qed.

Lemma length_compress (h block : list Z) :
  List.length h = 8%nat -> List.length (Sha256.compress h block) = 8%nat.
Proof.
  intros H. unfold Sha256.compress.
  rewrite length_map, length_combine, length_rounds by exact H. lia.
Qed.

Lemma length_blocks (fuel : nat) (h bs : list Z) :
  List.length h = 8%nat -> List.length (Sha256.blocks fuel h bs) = 8%nat.
Proof.
  revert h bs; induction fuel as [|f IH]; intros h bs H; simpl; [exact H|].
  destruct bs; [exact H|]. apply IH. apply length_compress. exact H.
Qed.

Lemma length_digest (msg : list Z) : List.length (Sha256.digest msg) = 8%nat.
Proof. unfold Sha256.digest. apply length_blocks. reflexivity. Qed.

Lemma hex_digit_is_hex (n : Z) :
  (0 <= n < 16)%Z -> is_hex_digit (Sha256.hex_digit n) = true.
Proof.
  intros H.
  assert (E : In n [0; 1; 2; 3; 4; 5; 6; 7; 8; 9; 10; 11; 12; 13; 14; 15]%Z).
  { simpl. lia. }
  simpl in E.
  repeat (destruct E as [E|E]; [subst n; reflexivity|]).
  contradiction.
Qed.

Lemma hex_length (bs : list Z) :
  String.length (Sha256.hex bs) = (2 * List.length bs)%nat.
Proof.
  induction bs as [|b r IH]; simpl; [reflexivity|]. rewrite IH. lia.
Qed.

Lemma hex_all_hex (bs : list Z) :
  Forall (fun b => (0 <= b < 256)%Z) bs -> all_hex (Sha256.hex bs) = true.
Proof.
  unfold all_hex. induction 1 as [|b r Hb Hr IH]; simpl; [reflexivity|].
  rewrite !hex_digit_is_hex, IH; [reflexivity| |].
  - apply Z.mod_pos_bound. lia.
  - split; [apply Z.div_pos; lia|apply Z.div_lt_upper_bound; lia].
Qed.

Lemma sha256_hex_format (msg : list Z) :
  String.length (Sha256.sha256_hex msg) = 64%nat
  /\ all_hex (Sha256.sha256_hex msg) = true.
Proof.
  unfold Sha256.sha256_hex. split.
  - rewrite hex_length.
    assert (E : forall ws : list Z,
              List.length (flat_map (Sha256.be_bytes 4) ws)
              = (4 * List.length ws)%nat).
    { induction ws as [|w r IH]; [reflexivity|].
      cbn [flat_map]. rewrite length_app, length_be_bytes, IH. simpl. lia. }
    rewrite E, length_digest. reflexivity.
  - apply hex_all_hex. apply Forall_flat_map. rewrite Forall_forall.
    intros x _. apply be_bytes_range.
Qed.

Lemma substring_prefix (n : nat) (s : string) :
  (n <= String.length s)%nat ->
  String.length (substring 0 n s) = n
  /\ (all_hex s = true -> all_hex (substring 0 n s) = true).
Proof.
  revert s; induction n as [|n IH]; intros s H.
  - destruct s; simpl; auto.
  - destruct s as [|c r]; simpl in *; [lia|].
    destruct (IH r) as [Hl Hh]; [lia|].
    split; [rewrite Hl; reflexivity|].
    unfold all_hex in *. simpl. intros Hc.
    apply andb_true_iff in Hc. destruct Hc as [Hc Hr].
    rewrite Hc, (Hh Hr). reflexivity.
Qed.

Lemma getExtension_fallback (filename mimeType : string) :
  extname1 filename = "" ->
  In (getExtension filename mimeType) ["mp3"; "wav"; "flac"; "m4a"]
  /\ isValidAudio mimeType (getExtension filename mimeType) = true.
Proof.
  assert (Hmap : forall e, mimeMap mimeType = Some e ->
                           In e ["mp3"; "wav"; "flac"; "m4a"]).
  { unfold mimeMap. intros e.
    repeat (destruct (String.eqb mimeType _);
            [intros H; inversion H; simpl; tauto|]).
    discriminate. }
  assert (Hfallback :
    In (match mimeType with
        | "" => "mp3"
        | String _ _ =>
            match mimeMap mimeType with Some e => e | None => "mp3" end
        end) ["mp3"; "wav"; "flac"; "m4a"]).
  { destruct mimeType as [|c r]; [simpl; tauto|].
    destruct (mimeMap (String c r)) as [e|]; [apply Hmap; reflexivity|].
    simpl; tauto. }
  intros H. unfold getExtension. rewrite H. simpl toLowerCase. cbv iota.
  split; [exact Hfallback|].
  unfold isValidAudio. apply orb_true_iff. right.
  simpl in Hfallback.
  repeat (destruct Hfallback as [Hf|Hfallback];
          [rewrite <- Hf; reflexivity|]).
  contradiction.
Qed.

End IdFacts.

(** X19 The identifiers have a fixed format whatever the input: a content
    digest is 64 lower-case hexadecimal digits and a track id is 16 of them,
    so a track id never contains a path separator or a dot. *)
Theorem generateTrackId_format (artist title : option string) (fileSize : Z)
    (contentDigest : string) (buffer : list Z) :
  String.length (calculateDigest buffer) = 64%nat
  /\ all_hex (calculateDigest buffer) = true
  /\ String.length (generateTrackId artist title fileSize contentDigest) = 16%nat
  /\ all_hex (generateTrackId artist title fileSize contentDigest) = true.
Proof.
  unfold calculateDigest, generateTrackId.
  split; [apply sha256_hex_format|]. split; [apply sha256_hex_format|].
  set (d := Sha256.sha256_hex _).
  destruct (sha256_hex_format
              (Sha256.bytes_of_string
                 (or_empty artist ++ "|" ++ or_empty title ++ "|"
                  ++ decimal fileSize ++ "|" ++ contentDigest)%string))
    as [Hl Hh].
  fold d in Hl, Hh.
  destruct (substring_prefix 16 d) as [H1 H2]; [rewrite Hl; lia|].
  split; [exact H1|exact (H2 Hh)].
Qed.

(** X20 For a MIME type that is no name inherited from [Object.prototype]:
    [getExtension] never returns the empty string, and for a file name in
    which [path.extname] finds no extension it returns one of the accepted
    extensions (defaulting to "mp3"), so that [isValidAudio] accepts the
    file whatever its MIME type; a listed MIME type is accepted with any
    extension. *)
Theorem getExtension_accepts (filename mimeType extension : string) :
  own_key mimeType ->
  getExtension filename mimeType <> ""
  /\ (extname1 filename = "" ->
      In (getExtension filename mimeType) ["mp3"; "wav"; "flac"; "m4a"]
      /\ isValidAudio mimeType (getExtension filename mimeType) = true)
  /\ (In mimeType validMimeTypes -> isValidAudio mimeType extension = true).
Proof.
  intros _. split; [|split].
  - destruct (extname1 filename) as [|c r] eqn:E.
    + destruct (getExtension_fallback filename mimeType E) as [H _].
      intros H0. rewrite H0 in H. simpl in H.
      repeat (destruct H as [H|H]; [discriminate|]). contradiction.
    + unfold getExtension. rewrite E. discriminate.
  - apply getExtension_fallback.
  - intros H. unfold isValidAudio.
    replace (includes validMimeTypes mimeType) with true; [reflexivity|].
    symmetry. unfold includes. apply existsb_exists.
    exists mimeType. split; [exact H|apply String.eqb_refl].
Qed.

Lemma getExtension_accepts_witness :
  In (getExtension "recording" "text/plain") ["mp3"; "wav"; "flac"; "m4a"]
  /\ isValidAudio "text/plain" (getExtension "recording" "text/plain") = true.
Proof.
  assert (Hk : own_key "text/plain").
  { unfold own_key, object_prototype_keys. simpl. intros H.
    repeat (destruct H as [H|H]; [discriminate|]). exact H. }
  apply (proj1 (proj2 (getExtension_accepts "recording" "text/plain" "" Hk))).
  reflexivity.
Defined.

(* ================================================================== *)
(** * Properties of the upload route *)
(* ================================================================== *)




(** X23 The two failures after the file has been written leave different
    states.  When the manifest cannot be saved the file is removed again
    and no manifest is recorded, so the same upload sent again without a
    fault is accepted (202).  When the job cannot be published the manifest
    stays, in status [error] with reason [queue_publish_failed], together
    with the file and without any job, so the same upload sent again is
    refused as a duplicate (409). *)
Theorem POST_failure_recovery (w : World) (request : Upload.Request)
    (fl : Upload.Faults) (jid now jid' now' : string)
    (resp : Upload.Response) (w' : World) :
  Upload.POST w request fl jid now = (resp, w') ->
  (Upload.body_error resp = Some "Failed to save manifest" ->
     manifests (store w') = manifests (store w)
     /\ jobs w' = jobs w
     /\ Upload.http_status
          (fst (Upload.POST w' request Upload.no_faults jid' now')) = 202%Z)
  /\ (Upload.body_error resp = Some "Failed to enqueue analysis" ->
     jobs w' = jobs w
     /\ (forall fl', Upload.http_status
           (fst (Upload.POST w' request fl' jid' now')) = 409%Z)
     /\ exists id m, getManifest (store w') id = Some m
                     /\ status m = error
                     /\ error_reason m = Some "queue_publish_failed").
Proof.
  unfold Upload.POST.
  destruct (Upload.audio_file request) as [file|];
    [|intros H; inversion H; subst; split; discriminate].
  set (ext := getExtension (Upload.f_name file) (Upload.f_type file)).
  set (id := generateTrackId _ _ _ _).
  destruct (negb (isValidAudio (Upload.f_type file) ext)) eqn:EV;
    [intros H; inversion H; subst; split; discriminate|].
  destruct (100 * 1024 * 1024 <? Upload.size file)%Z eqn:ES;
    [intros H; inversion H; subst; split; discriminate|].
  destruct (trackExists (store w) id) eqn:ET;
    [intros H; inversion H; subst; split; discriminate|].
  destruct (Upload.saveFile_fails fl);
    [intros H; inversion H; subst; split; discriminate|].
  destruct (Upload.saveManifest_fails fl).
  { intros H; inversion H; subst; clear H. split; [|discriminate].
    intros _. split; [reflexivity|]. split; [reflexivity|].
    cbn [Upload.with_store store].
    replace (trackExists (Upload.unlink
               (Upload.saveFile (store w) (getTrackPath id ext))
               (getTrackPath id ext)) id) with false; [reflexivity|].
    symmetry. unfold trackExists, getManifest in *.
    cbn [Upload.unlink Upload.saveFile manifests].
    destruct (lookup (manifests (store w)) id) as [m|]; [|reflexivity].
    unfold file_exists in *. cbn [files].
    apply Bool.not_true_is_false. intros Hx.
    apply existsb_exists in Hx. destruct Hx as [p [Hin Hp]].
    apply filter_In in Hin. destruct Hin as [[Hin|Hin] Hne].
    - rewrite <- Hin in Hne. rewrite String.eqb_refl in Hne. discriminate.
    - assert (existsb (String.eqb (file_path m)) (files (store w)) = true)
        by (apply existsb_exists; exists p; auto).
      congruence. }
  destruct (Upload.publish_fails fl).
  { intros H; inversion H; subst; clear H. split; [discriminate|].
    intros _. split; [reflexivity|].
    cbn [Upload.with_store store].
    assert (HE : trackExists
              (saveManifest
                 (saveManifest
                    (Upload.saveFile (store w) (getTrackPath id ext))
                    (mkManifest id queued
                       (Upload.or_undefined (Upload.form_artist request))
                       (Upload.or_undefined (Upload.form_title request))
                       (Upload.size file) (getTrackPath id ext)
                       (calculateDigest (Upload.f_bytes file)) None None
                       now now))
                 (mkManifest id error
                    (Upload.or_undefined (Upload.form_artist request))
                    (Upload.or_undefined (Upload.form_title request))
                    (Upload.size file) (getTrackPath id ext)
                    (calculateDigest (Upload.f_bytes file)) None
                    (Some "queue_publish_failed") now now)) id = true).
    { unfold trackExists.
      rewrite (getManifest_saveManifest _
                 (mkManifest id error _ _ _ _ _ _ _ _ _)).
      unfold file_exists, saveManifest, Upload.saveFile; simpl.
      rewrite String.eqb_refl. reflexivity. }
    split.
    - intros fl'. rewrite HE. reflexivity.
    - eexists id, _. split; [apply (getManifest_saveManifest _
                 (mkManifest id error _ _ _ _ _ _ _ _ _))|].
      split; reflexivity. }
  intros H; inversion H; subst; split; discriminate.
Qed.

Lemma POST_failure_recovery_witness :
  Upload.http_status
    (fst (Upload.POST
            (snd (Upload.POST Samples.w_empty
                    (Upload.mkRequest (Some Samples.riff) None None)
                    (Upload.mkFaults false false true) "j1" "t1"))
            (Upload.mkRequest (Some Samples.riff) None None)
            Upload.no_faults "j2" "t2")) = 409%Z.
Proof.
  destruct (POST_failure_recovery Samples.w_empty
              (Upload.mkRequest (Some Samples.riff) None None)
              (Upload.mkFaults false false true) "j1" "t1" "j2" "t2" _ _
              eq_refl) as [_ H].
  destruct (H eq_refl) as [_ [H409 _]]. apply H409.
Defined.

(* ================================================================== *)
(** * Properties of the queue, of the analysis handler and of the worker
      route *)
(* ================================================================== *)

Section QueueFacts.

Variable hs : Handlers.

Lemma timers_weight_app (tm tm' : list (Z * QueueJob)) :
  timers_weight (tm ++ tm') = (timers_weight tm + timers_weight tm')%nat.
Proof. unfold timers_weight. rewrite map_app, list_sum_app. reflexivity. Qed.

Lemma jobs_weight_app (js js' : list QueueJob) :
  jobs_weight (js ++ js') = (jobs_weight js + jobs_weight js')%nat.
Proof. unfold jobs_weight. rewrite map_app, list_sum_app. reflexivity. Qed.

Lemma run_job_weight (job : QueueJob) (st : Store)
    (tm : list (Z * QueueJob)) (n : nat) :
  (timers_weight (snd (fst (run_job hs job (st, tm, n))))
   <= timers_weight tm + job_weight job)%nat.
Proof.
  unfold run_job.
  destruct (hs (j_type job)) as [h|]; [|simpl; lia].
  destruct (h st n (j_data job)) as [[[u|e] st'] n']; [simpl; lia|].
  destruct (Z.ltb_spec (retries job) 3) as [Hr|Hr]; [|simpl; lia].
  cbn [fst snd]. rewrite timers_weight_app.
  unfold timers_weight at 2. cbn [map list_sum snd].
  unfold job_weight, with_retries. cbn [retries].
  unfold list_sum; cbn [fold_right].
  replace (3 - retries job)%Z with (Z.succ (3 - (retries job + 1)))
    by (unfold Z.succ; ring).
  rewrite Z2Nat.inj_succ; [apply Nat.eq_le_incl; ring|].
  apply Zle_minus_le_0. apply Zlt_le_succ in Hr. exact Hr.
Qed.

Lemma run_jobs_weight (js : list QueueJob) :
  forall (st : Store) (tm : list (Z * QueueJob)) (n : nat),
  (timers_weight (snd (fst (run_jobs hs js (st, tm, n))))
   <= timers_weight tm + jobs_weight js)%nat.
Proof.
  induction js as [|job r IH]; intros st tm n; cbn [run_jobs fst snd];
    [lia|].
  pose proof (run_job_weight job st tm n) as H.
  destruct (run_job hs job (st, tm, n)) as [[st' tm'] n'].
  specialize (IH st' tm' n'). cbn [fst snd] in H.
  change (jobs_weight (job :: r)) with (job_weight job + jobs_weight r)%nat.
  lia.
Qed.

Lemma process_potential (w : World) :
  (potential (process hs w) <= potential w)%nat.
Proof.
  unfold process.
  destruct (Queue.processing w || (List.length (jobs w) =? 0)%nat);
    [lia|].
  pose proof (run_jobs_weight (jobs w) (store w) (timers w) (calls w)) as H.
  destruct (run_jobs hs (jobs w) (store w, timers w, calls w))
    as [[st tm] n].
  unfold potential. cbn [fst snd timers jobs] in *.
  change (jobs_weight []) with 0%nat. lia.
Qed.

Lemma process_idle (w : World) :
  Queue.processing w = false ->
  Queue.processing (process hs w) = false /\ jobs (process hs w) = [].
Proof.
  intros Hp. unfold process. rewrite Hp. cbn [orb].
  destruct (jobs w) as [|j r] eqn:EJ; cbn [List.length Nat.eqb];
    [rewrite Hp, EJ; auto|].
  destruct (run_jobs hs (j :: r) (store w, timers w, calls w))
    as [[st tm] n].
  auto.
Qed.

Lemma fire_potential (w : World) :
  timers w <> [] -> (potential (fire hs w) < potential w)%nat.
Proof.
  unfold fire. destruct (timers w) as [|[d job] tm] eqn:ET;
    [intros H; contradiction|].
  intros _.
  eapply Nat.le_lt_trans; [apply process_potential|].
  unfold potential. cbn [timers jobs]. rewrite ET, jobs_weight_app.
  change (timers_weight ((d, job) :: tm))
    with (S (job_weight job) + timers_weight tm)%nat.
  change (jobs_weight [job]) with (job_weight job + 0)%nat. lia.
Qed.

Lemma fire_idle (w : World) :
  Queue.processing w = false -> jobs w = [] ->
  Queue.processing (fire hs w) = false /\ jobs (fire hs w) = [].
Proof.
  intros Hp Hj. unfold fire.
  destruct (timers w) as [|[d job] tm]; [auto|].
  apply process_idle. exact Hp.
Qed.

Lemma settle_quiesces (fuel : nat) :
  forall w : World,
  Queue.processing w = false -> jobs w = [] ->
  (potential w <= fuel)%nat ->
  jobs (settle fuel hs w) = [] /\ timers (settle fuel hs w) = []
  /\ Queue.processing (settle fuel hs w) = false.
Proof.
  induction fuel as [|f IH]; intros w Hp Hj Hpot; simpl.
  - split; [exact Hj|]. split; [|exact Hp].
    unfold potential in Hpot. destruct (timers w) as [|[d j] tm];
      [reflexivity|].
    change (timers_weight ((d, j) :: tm))
      with (S (job_weight j) + timers_weight tm)%nat in Hpot.
    lia.
  - destruct (timers w) as [|p tm] eqn:ET; [auto|].
    destruct (fire_idle w Hp Hj) as [Hp' Hj'].
    apply IH; [exact Hp'|exact Hj'|].
    assert (Hne : timers w <> []) by (rewrite ET; discriminate).
    pose proof (fire_potential w Hne). lia.
Qed.

End QueueFacts.

(** X24 The queue always comes to rest, whatever its handlers do to the
    store and however often they fail: started
    on a queue that is not being processed, with fuel for as many timer
    firings as its potential (three for a fresh job), [run] ends with no
    job queued, no timer pending and the processing flag cleared.  A
    handler that fails every time is retried a bounded number of times
    only. *)
Theorem run_quiesces (hs : Handlers) (w : World) (fuel : nat) :
  Queue.processing w = false ->
  (potential w <= fuel)%nat ->
  jobs (run fuel hs w) = [] /\ timers (run fuel hs w) = []
  /\ Queue.processing (run fuel hs w) = false.
Proof.
  intros Hp Hpot. unfold run.
  destruct (process_idle hs w Hp) as [Hp' Hj'].
  apply settle_quiesces; [exact Hp'|exact Hj'|].
  pose proof (process_potential hs w). lia.
Qed.

Lemma run_quiesces_witness :
  timers (run 3 (Worker.handlers (Samples.fails_then_succeeds 10) "now")
              (mkWorld Samples.stq [Samples.job0] false [] 0%nat)) = [].
Proof.
  apply (run_quiesces (Worker.handlers (Samples.fails_then_succeeds 10) "now")
           (mkWorld Samples.stq [Samples.job0] false [] 0%nat) 3%nat).
  - reflexivity.
  - vm_compute. lia.
Defined.

Section MoreWorkerFacts.
Import Worker.

Variable analyzeTrack : Analyzer.
Variable now : string.

Lemma reason_of_nonempty (e : exn) : reason_of e <> "".
Proof.
  unfold reason_of. destruct (message_of e); discriminate.
Qed.

Lemma handler_missing (st : Store) (n : nat) (data : JobData) :
  getManifest st (d_track_id data) = None ->
  exists e, handler analyzeTrack now st n data = (Throw e, st, n).
Proof.
  intros H. unfold handler. rewrite H. eexists. reflexivity.
Qed.

Lemma settle_missing (fuel : nat) :
  forall (job : QueueJob) (st : Store) (n : nat) (tm : list (Z * QueueJob)),
  j_type job = "analyze" ->
  getManifest st (d_track_id (j_data job)) = None ->
  tm = [] \/ (exists d r, tm = [(d, with_retries job r)]) ->
  store (settle fuel (handlers analyzeTrack now) (mkWorld st [] false tm n))
  = st
  /\ calls (settle fuel (handlers analyzeTrack now)
             (mkWorld st [] false tm n)) = n.
Proof.
  induction fuel as [|f IH]; intros job st n tm Ht Hm Htm;
    [simpl; auto|].
  destruct Htm as [Htm|[d [r Htm]]]; subst tm; [simpl; auto|].
  cbn [settle timers]. rewrite fire_single, process_single.
  rewrite run_job_analyze by exact Ht.
  cbn [j_data with_retries retries].
  destruct (handler_missing st n (j_data job) Hm) as [e He]. rewrite He.
  destruct (r <? 3)%Z.
  - apply (IH job); [exact Ht|exact Hm|].
    right. eexists _, _. reflexivity.
  - apply (IH job); [exact Ht|exact Hm|left; reflexivity].
Qed.

End MoreWorkerFacts.

(** X25 A run of the handler on a track that is not yet analysed calls the
    analysis exactly once and never leaves the manifest in status
    [processing]: the manifest ends [ready] with a summary exactly when the
    handler returns normally, and [error] with a non-empty reason and its
    former summary when it throws.  The identity of the track (id, artist,
    title, file, digest, creation date) and the audio files are untouched.
    A success does not clear [error_reason]: the reason of an earlier
    failure stays in a ready manifest. *)
Theorem handler_outcome (analyzeTrack : Worker.Analyzer) (now : string)
    (st : Store) (n : nat) (data : JobData) (m : TrackManifest) :
  getManifest st (d_track_id data) = Some m ->
  status m <> ready \/ summary m = None ->
  let r := Worker.handler analyzeTrack now st n data in
  snd r = S n
  /\ files (snd (fst r)) = files st
  /\ exists m',
       getManifest (snd (fst r)) (track_id m) = Some m'
       /\ (fst (fst r) = Normal tt <-> status m' = ready)
       /\ (status m' = ready \/ status m' = error)
       /\ (status m' = ready ->
           summary m' <> None /\ error_reason m' = error_reason m)
       /\ (status m' = error ->
           summary m' = summary m
           /\ exists reason, error_reason m' = Some reason /\ reason <> "")
       /\ track_id m' = track_id m /\ artist m' = artist m
       /\ title m' = title m /\ file_path m' = file_path m
       /\ file_size m' = file_size m
       /\ content_digest m' = content_digest m
       /\ created_at m' = created_at m.
Proof.
  intros Hm Hn r.
  assert (Hr : r =
    let manifest1 :=
      Worker.with_status m Storage.processing (summary m) (error_reason m)
                         now in
    let st1 := saveManifest st manifest1 in
    match analyzeTrack n (d_track_id data) (d_path data) with
    | Normal (s, feats) =>
        (Normal tt,
         saveManifest (Worker.saveFeatures st1 (d_track_id data) feats)
           (Worker.with_status manifest1 ready (Some s)
                               (error_reason manifest1) now),
         S n)
    | Throw e =>
        (Throw e,
         saveManifest st1
           (Worker.with_status manifest1 error (summary manifest1)
                               (Some (Worker.reason_of e)) now),
         S n)
    end).
  { unfold r, Worker.handler. rewrite Hm.
    destruct (status m) eqn:ES; try reflexivity.
    destruct (summary m) eqn:EM; try reflexivity.
    destruct Hn as [Hn|Hn]; [contradiction|discriminate]. }
  rewrite Hr. clear Hr r. cbv zeta.
  destruct (analyzeTrack n (d_track_id data) (d_path data)) as [[s feats]|e];
    cbn [fst snd].
  - split; [reflexivity|]. split; [reflexivity|].
    eexists. split.
    { apply (getManifest_saveManifest _
               (Worker.with_status
                  (Worker.with_status m Storage.processing (summary m)
                                      (error_reason m) now)
                  ready (Some s) (error_reason m) now)). }
    cbn [Worker.with_status status summary error_reason track_id artist title
         file_path file_size content_digest created_at].
    split; [tauto|]. split; [left; reflexivity|].
    split; [intros _; split; [discriminate|reflexivity]|].
    split; [discriminate|]. repeat split.
  - split; [reflexivity|]. split; [reflexivity|].
    eexists. split.
    { apply (getManifest_saveManifest _
               (Worker.with_status
                  (Worker.with_status m Storage.processing (summary m)
                                      (error_reason m) now)
                  error (summary m) (Some (Worker.reason_of e)) now)). }
    cbn [Worker.with_status status summary error_reason track_id artist title
         file_path file_size content_digest created_at].
    split; [split; discriminate|]. split; [right; reflexivity|].
    split; [discriminate|].
    split; [|repeat split].
    intros _. split; [reflexivity|].
    eexists. split; [reflexivity|apply reason_of_nonempty].
Qed.

Lemma handler_outcome_witness :
  snd (Worker.handler (Samples.fails_then_succeeds 1) "now" Samples.stq 0%nat
         (j_data Samples.job0)) = 1%nat.
Proof.
  apply (handler_outcome (Samples.fails_then_succeeds 1) "now" Samples.stq
           0%nat (j_data Samples.job0) Samples.queued_manifest eq_refl).
  left. discriminate.
Defined.

(** X26 An [analyze] job whose track has no manifest (its id being no name
    inherited from [Object.prototype], which a lookup would find) is retried
    until its retries are used up and then dropped without a trace: the
    analysis is never called and the store is left exactly as it was, so no
    error is recorded anywhere. *)
Theorem missing_manifest_leaves_no_trace (analyzeTrack : Worker.Analyzer)
    (now : string) (job : QueueJob) (st : Store) (n fuel : nat) :
  j_type job = "analyze" ->
  own_key (d_track_id (j_data job)) ->
  getManifest st (d_track_id (j_data job)) = None ->
  let w' := run fuel (Worker.handlers analyzeTrack now)
                (mkWorld st [job] false [] n) in
  store w' = st /\ calls w' = n.
Proof.
  intros Ht _ Hm w'. unfold w', run. rewrite process_single.
  rewrite run_job_analyze by exact Ht.
  destruct (handler_missing analyzeTrack now st n (j_data job) Hm)
    as [e He].
  rewrite He.
  destruct (retries job <? 3)%Z.
  - apply (settle_missing analyzeTrack now fuel job); [exact Ht|exact Hm|].
    right. eexists _, _. reflexivity.
  - apply (settle_missing analyzeTrack now fuel job); [exact Ht|exact Hm|].
    left. reflexivity.
Qed.

Lemma missing_manifest_leaves_no_trace_witness :
  store (run 5 (Worker.handlers (Samples.fails_then_succeeds 0) "now")
             (mkWorld (mkStore [] [] []) [Samples.job0] false [] 0%nat))
  = mkStore [] [] [].
Proof.
  assert (Hk : own_key (d_track_id (j_data Samples.job0))).
  { unfold own_key, object_prototype_keys. simpl. intros H.
    repeat (destruct H as [H|H]; [discriminate|]). exact H. }
  exact (proj1 (missing_manifest_leaves_no_trace
                  (Samples.fails_then_succeeds 0) "now" Samples.job0
                  (mkStore [] [] []) 0%nat 5%nat eq_refl Hk eq_refl)).
Defined.

(** X27 POST /api/worker on a body whose track id and path are non-empty
    strings, the id being no name inherited from [Object.prototype], makes
    the same transition as the queue handler on the same data: the same
    store and the same number of analyses.  It answers 404 exactly when the
    track has no manifest (where the handler throws), 200 exactly when the
    handler returns normally, and 500 otherwise. *)
Theorem worker_route_agrees (analyzeTrack : Worker.Analyzer) (now : string)
    (st : Store) (n : nat) (id path : string) :
  id <> "" -> path <> "" -> own_key id ->
  let r := WorkerRoute.POST analyzeTrack now st n
             (WorkerRoute.mkBody (Some id) (Some path)) in
  let h := Worker.handler analyzeTrack now st n (mkJobData id path) in
  snd (fst r) = snd (fst h) /\ snd r = snd h
  /\ (WorkerRoute.http_status (fst (fst r)) = 200%Z <-> fst (fst h) = Normal tt)
  /\ (WorkerRoute.http_status (fst (fst r)) = 404%Z <-> getManifest st id = None)
  /\ In (WorkerRoute.http_status (fst (fst r))) [200; 404; 500]%Z.
Proof.
  intros Hi Hp _ r h. unfold r, h, WorkerRoute.POST, Worker.handler.
  destruct id as [|c0 id0]; [contradiction|].
  destruct path as [|c1 path0]; [contradiction|].
  cbn [WorkerRoute.b_track_id WorkerRoute.b_path WorkerRoute.falsy orb
       or_empty d_track_id d_path].
  destruct (getManifest st (String c0 id0)) as [m|].
  2:{ cbn [fst snd WorkerRoute.http_status].
      repeat split; try discriminate; simpl; tauto. }
  assert (Hrest :
    forall (m1 : TrackManifest),
    let a := analyzeTrack n (String c0 id0) (String c1 path0) in
    let r1 :=
      match a with
      | Normal (summary, feats) =>
          (WorkerRoute.mkResponse 200 None (Some (String c0 id0))
             (Some "ready") None (Some summary),
           saveManifest (Worker.saveFeatures (saveManifest st m1)
                           (String c0 id0) feats)
             (Worker.with_status m1 ready (Some summary) (error_reason m1)
                                 now), S n)
      | Throw e =>
          (WorkerRoute.mkResponse 500 (Some (message_of e))
             (Some (String c0 id0)) (Some "error") None None,
           saveManifest (saveManifest st m1)
             (Worker.with_status m1 error (summary m1)
                                 (Some (Worker.reason_of e)) now), S n)
      end in
    let h1 :=
      match a with
      | Normal (summary, feats) =>
          (Normal tt,
           saveManifest (Worker.saveFeatures (saveManifest st m1)
                           (String c0 id0) feats)
             (Worker.with_status m1 ready (Some summary) (error_reason m1)
                                 now), S n)
      | Throw e =>
          (Throw e,
           saveManifest (saveManifest st m1)
             (Worker.with_status m1 error (summary m1)
                                 (Some (Worker.reason_of e)) now), S n)
      end in
    snd (fst r1) = snd (fst h1) /\ snd r1 = snd h1
    /\ (WorkerRoute.http_status (fst (fst r1)) = 200%Z
        <-> fst (fst h1) = Normal tt)
    /\ (WorkerRoute.http_status (fst (fst r1)) = 404%Z
        <-> Some m = @None TrackManifest)
    /\ In (WorkerRoute.http_status (fst (fst r1))) [200; 404; 500]%Z).
  { intros m1 a r1 h1. unfold r1, h1. destruct a as [[s feats]|e];
      cbn [fst snd WorkerRoute.http_status];
      repeat split; try discriminate; simpl; tauto. }
  destruct (status m) eqn:ES; try apply Hrest.
  destruct (summary m) eqn:EM; try apply Hrest.
  cbn [fst snd WorkerRoute.http_status].
  repeat split; try discriminate; simpl; tauto.
Qed.

Lemma worker_route_agrees_witness :
  snd (WorkerRoute.POST (Samples.fails_then_succeeds 0) "now" Samples.stq
         0%nat (WorkerRoute.mkBody (Some "t") (Some "p")))
  = snd (Worker.handler (Samples.fails_then_succeeds 0) "now" Samples.stq
           0%nat (mkJobData "t" "p")).
Proof.
  assert (Hk : own_key "t").
  { unfold own_key, object_prototype_keys. simpl. intros H.
    repeat (destruct H as [H|H]; [discriminate|]). exact H. }
  apply (worker_route_agrees (Samples.fails_then_succeeds 0) "now"
           Samples.stq 0%nat "t" "p"); [discriminate|discriminate|exact Hk].
Defined.

(* ================================================================== *)
(** * Properties of the audio analysis *)
(* ================================================================== *)

Section AudioFacts.
Import AudioAnalysis.

Lemma readInt16LE_range (lo hi : Z) :
  is_byte lo -> is_byte hi ->
  (-32768 <= readInt16LE lo hi < 32768)%Z.
Proof.
  unfold is_byte, readInt16LE. intros Hl Hh.
  destruct (Z.ltb_spec (lo + 256 * hi) 32768); lia.
Qed.

Lemma samples_of_spec (data : list Z) :
  (List.length (samples_of data) = (List.length data / 2)%nat
   /\ (Forall is_byte data ->
       Forall (fun s => -1 <= s < 1) (samples_of data)))
  /\ forall b,
     List.length (samples_of (b :: data)) = (S (List.length data) / 2)%nat
     /\ (Forall is_byte (b :: data) ->
         Forall (fun s => -1 <= s < 1) (samples_of (b :: data))).
Proof.
  induction data as [|hi r [[IH1 IH2] IH3]].
  - split; [split; [reflexivity|constructor]|].
    intros b. split; [reflexivity|constructor].
  - split; [exact (IH3 hi)|].
    intros lo. cbn [samples_of List.length]. split.
    + rewrite IH1.
      change (S (S (List.length r))) with (1 * 2 + List.length r)%nat.
      rewrite Nat.div_add_l by discriminate. reflexivity.
    + intros H. inversion H as [|? ? Hlo H']; subst.
      inversion H' as [|? ? Hhi Hr]; subst.
      constructor; [|exact (IH2 Hr)].
      pose proof (readInt16LE_range lo hi Hlo Hhi) as [H1 H2].
      apply IZR_le in H1. apply IZR_lt in H2. lra.
Qed.

Lemma sum_bounds (xs : list R) :
  Forall in_unit xs ->
  forall acc, acc <= fold_left Rplus xs acc <= acc + INR (List.length xs).
Proof.
  induction 1 as [|x r Hx Hr IH]; intros acc.
  - simpl. lra.
  - cbn [fold_left]. specialize (IH (acc + x)).
    change (List.length (x :: r)) with (S (List.length r)).
    rewrite S_INR. unfold in_unit in Hx. lra.
Qed.

Lemma ratio_unit (a n : R) : 0 <= a <= n -> 0 < n -> 0 <= a / n <= 1.
Proof.
  intros Ha Hn. split.
  - apply Rmult_le_pos; [lra|]. left. apply Rinv_0_lt_compat. exact Hn.
  - apply (Rmult_le_reg_r n); [exact Hn|]. unfold Rdiv.
    rewrite Rmult_assoc, Rinv_l by lra. lra.
Qed.

Lemma round_range (lo hi : Z) (x : R) :
  IZR lo <= x <= IZR hi -> (lo <= Js.round x <= hi)%Z.
Proof.
  intros [H1 H2]. unfold Js.round. split.
  - apply Zfloor_lub. lra.
  - pose proof (Zfloor_bound (x + 0.5)) as [Hb _].
    assert (IZR (Zfloor (x + 0.5)) < IZR (hi + 1)).
    { rewrite plus_IZR. lra. }
    apply lt_IZR in H. lia.
Qed.

Lemma estimateKey_in (f : FileView) (rnd : Random) (n : nat) :
  0 <= rnd n < 1 -> In (fst (estimateKey f rnd n)) camelotKeys.
Proof.
  intros Hr. unfold estimateKey. cbn [fst].
  apply nth_In.
  change (List.length camelotKeys) with 24%nat.
  replace (INR 24) with 24 by (simpl; lra).
  assert (H : (0 <= Js.floor (rnd n * 24) < 24)%Z).
  { unfold Js.floor. split.
    - apply Zfloor_lub. lra.
    - pose proof (Zfloor_bound (rnd n * 24)) as [Hb _].
      apply lt_IZR. lra. }
  lia.
Qed.

Lemma length_downsampleToBars (samples : list R) (bars : nat) :
  List.length (downsampleToBars samples bars) = bars.
Proof. unfold downsampleToBars. rewrite length_map, length_seq. reflexivity. Qed.

Lemma downsampleToBars_unit (samples : list R) (bars : nat) :
  Forall in_unit (downsampleToBars samples bars).
Proof.
  unfold downsampleToBars. rewrite Forall_forall. intros v Hv.
  apply in_map_iff in Hv. destruct Hv as [i [Hv _]]. subst v.
  unfold in_unit. split.
  - apply Rmin_glb; [lra|].
    apply Rmult_le_pos; [apply sqrt_pos|lra].
  - apply Rmin_l.
Qed.

End AudioFacts.

(** X28 The decoded WAV gives one sample for every complete pair of bytes
    after the 44-byte header, each in [-1, 1[.  For a buffer holding at
    least [bars] samples, [downsampleToBars] computes each of its [bars]
    envelope values from a window of the same, non-zero, number of samples,
    and each value lies in [0, 1]. *)
Theorem wav_envelope (buffer : list Z) (bars : nat) :
  Forall is_byte buffer ->
  (0 < bars)%nat -> (44 + 2 * bars <= List.length buffer)%nat ->
  let samples := AudioAnalysis.extractSamplesFromWav buffer in
  let perBar := (List.length samples / bars)%nat in
  List.length samples = ((List.length buffer - 44) / 2)%nat
  /\ Forall (fun s => -1 <= s < 1) samples
  /\ (1 <= perBar)%nat
  /\ (forall i, (i < bars)%nat ->
        List.length (slice samples (i * perBar) (i * perBar + perBar))
        = perBar)
  /\ List.length (AudioAnalysis.downsampleToBars samples bars) = bars
  /\ Forall in_unit (AudioAnalysis.downsampleToBars samples bars).
Proof.
  intros Hb Hbars Hlen samples perBar.
  destruct (samples_of_spec (skipn 44 buffer)) as [[H1 H2] _].
  assert (Hs : List.length samples = ((List.length buffer - 44) / 2)%nat).
  { unfold samples, AudioAnalysis.extractSamplesFromWav.
    rewrite H1, length_skipn. reflexivity. }
  assert (Hge : (bars <= List.length samples)%nat).
  { rewrite Hs.
    apply Nat.div_le_lower_bound; [discriminate|]. lia. }
  assert (Hp : (1 <= perBar)%nat).
  { unfold perBar. apply Nat.div_le_lower_bound; lia. }
  split; [exact Hs|].
  split.
  { apply H2. rewrite Forall_forall in *. intros x Hx.
    apply Hb. eapply In_skipn. exact Hx. }
  split; [exact Hp|].
  split.
  { intros i Hi. rewrite length_slice.
    assert (Hm : (bars * perBar <= List.length samples)%nat).
    { unfold perBar. apply Nat.Div0.mul_div_le. }
    assert (Hi' : (i * perBar + perBar <= bars * perBar)%nat) by nia.
    lia. }
  split; [apply length_downsampleToBars|apply downsampleToBars_unit].
Qed.

Lemma wav_envelope_witness :
  List.length
    (AudioAnalysis.extractSamplesFromWav
       (repeat 0%Z 44 ++ [0; 64; 255; 127; 0; 128]%Z)) = 3%nat.
Proof.
  apply (wav_envelope (repeat 0%Z 44 ++ [0; 64; 255; 127; 0; 128]%Z) 3%nat).
  - repeat (constructor; [unfold is_byte; lia|]). constructor.
  - lia.
  - simpl. lia.
Defined.

(** X29 [calculateEnergy] never reads the duration.  On an envelope that is
    not empty and has its values in [0, 1] the result lies in [1, 10], does
    not decrease when the tempo increases, is exactly 1 for every tempo of
    at most 100 BPM and is at most 2 for every tempo of at most 140 BPM:
    over the fallback tempo range the 1-to-10 scale is used up to 2
    only. *)
Theorem calculateEnergy_shape (tempo tempo' duration duration' : R)
    (waveform : list R) :
  waveform <> [] -> Forall in_unit waveform ->
  AudioAnalysis.calculateEnergy tempo duration waveform
  = AudioAnalysis.calculateEnergy tempo duration' waveform
  /\ 1 <= AudioAnalysis.calculateEnergy tempo duration waveform <= 10
  /\ (tempo <= tempo' ->
      AudioAnalysis.calculateEnergy tempo duration waveform
      <= AudioAnalysis.calculateEnergy tempo' duration waveform)
  /\ (tempo <= 100 ->
      AudioAnalysis.calculateEnergy tempo duration waveform = 1)
  /\ (tempo <= 140 ->
      AudioAnalysis.calculateEnergy tempo duration waveform <= 2).
Proof.
  intros Hne Hu. unfold AudioAnalysis.calculateEnergy.
  set (len := INR (List.length waveform)).
  assert (Hlen : 0 < len).
  { unfold len. apply lt_0_INR. destruct waveform; [contradiction|].
    simpl. lia. }
  assert (Havg : 0 <= AudioAnalysis.sum waveform / len <= 1).
  { apply ratio_unit; [|exact Hlen].
    pose proof (sum_bounds waveform Hu 0) as H.
    unfold AudioAnalysis.sum, len. lra. }
  assert (Hden :
    0 <= INR (List.length (filter (fun val => Rgtb val 0.7) waveform)) / len
      <= 1).
  { apply ratio_unit; [|exact Hlen]. split; [apply pos_INR|].
    unfold len. apply le_INR. apply filter_length_le. }
  set (avg := AudioAnalysis.sum waveform / len) in *.
  set (den := INR (List.length (filter (fun val => Rgtb val 0.7) waveform))
              / len) in *.
  split; [reflexivity|].
  split; [|split; [|split]].
  - unfold Rmax, Rmin. repeat destruct (Rle_dec _ _); lra.
  - intros Ht. unfold Rmax, Rmin. repeat destruct (Rle_dec _ _); lra.
  - intros Ht. unfold Rmax, Rmin. repeat destruct (Rle_dec _ _); lra.
  - intros Ht. unfold Rmax, Rmin. repeat destruct (Rle_dec _ _); lra.
Qed.

Lemma calculateEnergy_shape_witness :
  AudioAnalysis.calculateEnergy 90 180 Samples.envelope = 1.
Proof.
  apply (calculateEnergy_shape 90 90 180 180 Samples.envelope).
  - discriminate.
  - unfold Samples.envelope. apply Forall_forall. intros x Hx.
    apply repeat_spec in Hx. subst x. unfold in_unit. lra.
  - lra.
Defined.

(** X30 For values of [Math.random] in [0, 1[, a successful
    [analyzeAudioFile] returns one of the 24 Camelot tokens as key, at
    least one bar, at least one phrase and no more phrases than bars, and
    an envelope of 80 values; when ffmpeg prints no tempo, or is absent,
    the tempo lies between 120 and 140.  Without ffmpeg the analysis draws
    82 random values, reports a duration of 180 s and never fails; with it
    two are drawn, and a failure comes from ffprobe or from the decoding of
    the WAV. *)
Theorem analyzeAudioFile_result (f : AudioAnalysis.FileView)
    (rnd : AudioAnalysis.Random) (n : nat) :
  unit_random rnd ->
  match AudioAnalysis.analyzeAudioFile f rnd n with
  | (Normal a, n') =>
      In (AudioAnalysis.a_key a) AudioAnalysis.camelotKeys
      /\ (1 <= AudioAnalysis.a_bars a)%Z
      /\ (1 <= AudioAnalysis.a_phrases a <= AudioAnalysis.a_bars a)%Z
      /\ List.length (AudioAnalysis.a_waveform a) = 80%nat
      /\ (AudioAnalysis.stderr_bpm f = None
          \/ AudioAnalysis.ffmpeg_available f = false ->
          120 <= AudioAnalysis.a_tempo_bpm a <= 140)
      /\ n' = (if AudioAnalysis.ffmpeg_available f then n + 2 else n + 82)%nat
      /\ (AudioAnalysis.ffmpeg_available f = false ->
          AudioAnalysis.a_duration a = 180
          /\ Forall in_unit (AudioAnalysis.a_waveform a))
  | (Throw e, n') =>
      AudioAnalysis.ffmpeg_available f = true
      /\ ((forall d sr ch br fmt,
             AudioAnalysis.probe f <> AudioAnalysis.Probed d sr ch br fmt)
          \/ AudioAnalysis.wav f = Throw e)
  end.
Proof.
  intros Hr. unfold AudioAnalysis.analyzeAudioFile.
  assert (Hbpm : AudioAnalysis.stderr_bpm f = None
                 \/ AudioAnalysis.ffmpeg_available f = false ->
                 120 <= IZR (Js.round (fst (AudioAnalysis.estimateBPM f rnd n)))
                 <= 140).
  { intros Hc. pose proof (Hr n) as Hn.
    assert (Hfb : (120 <= Js.round (120 + rnd n * 20) <= 140)%Z)
      by (apply round_range; lra).
    destruct Hfb as [H1 H2]. apply IZR_le in H1. apply IZR_le in H2.
    unfold AudioAnalysis.estimateBPM.
    destruct (AudioAnalysis.ffmpeg_available f); cbn [negb fst].
    - destruct Hc as [Hc|Hc]; [rewrite Hc; cbn [fst]; lra|discriminate].
    - lra. }
  assert (Hsnd : snd (AudioAnalysis.estimateBPM f rnd n) = S n).
  { unfold AudioAnalysis.estimateBPM.
    destruct (negb _); [reflexivity|].
    destruct (AudioAnalysis.stderr_bpm f); reflexivity. }
  destruct (AudioAnalysis.estimateBPM f rnd n) as [tempo n1].
  cbn [fst snd] in Hbpm, Hsnd. subst n1.
  pose proof (estimateKey_in f rnd (S n) (Hr (S n))) as Hkey.
  unfold AudioAnalysis.estimateKey in *. cbn [fst] in Hkey.
  assert (Hcount : forall d : R,
    let bars := Js.floor (d / 60 * tempo / 4) in
    (1 <= Z.max 1 bars)%Z
    /\ (1 <= Z.max 1 (Js.floor (IZR bars / 8)) <= Z.max 1 bars)%Z).
  { intros d bars. split; [lia|]. split; [lia|].
    destruct (Z_le_gt_dec 1 bars) as [Hb|Hb].
    - assert (Js.floor (IZR bars / 8) <= bars)%Z; [|lia].
      rewrite <- (ZfloorZ bars) at 2. apply Zfloor_le.
      apply IZR_le in Hb. lra.
    - assert (Js.floor (IZR bars / 8) <= 0)%Z; [|lia].
      rewrite <- (ZfloorZ 0). apply Zfloor_le.
      assert (bars <= 0)%Z by lia. apply IZR_le in H. lra. }
  unfold AudioAnalysis.getAudioMetadata, AudioAnalysis.generateWaveform.
  destruct (AudioAnalysis.ffmpeg_available f) eqn:EF; cbn [negb].
  - destruct (AudioAnalysis.probe f) as [msg| |d sr ch br fmt] eqn:EP.
    + split; [reflexivity|]. left. intros; discriminate.
    + split; [reflexivity|]. left. intros; discriminate.
    + destruct (AudioAnalysis.wav f) as [buffer|e] eqn:EW.
      * cbn [AudioAnalysis.a_key AudioAnalysis.a_bars AudioAnalysis.a_phrases
             AudioAnalysis.a_waveform AudioAnalysis.a_tempo_bpm
             AudioAnalysis.a_duration AudioAnalysis.m_duration].
        split; [exact Hkey|].
        destruct (Hcount (AudioAnalysis.or_num d 0)) as [Hb Hp].
        split; [exact Hb|]. split; [exact Hp|].
        split; [apply length_downsampleToBars|].
        split; [exact Hbpm|]. split; [lia|discriminate].
      * split; [reflexivity|]. right. reflexivity.
  - cbn [AudioAnalysis.a_key AudioAnalysis.a_bars AudioAnalysis.a_phrases
         AudioAnalysis.a_waveform AudioAnalysis.a_tempo_bpm
         AudioAnalysis.a_duration AudioAnalysis.m_duration].
    split; [exact Hkey|].
    destruct (Hcount 180) as [Hb Hp].
    split; [exact Hb|]. split; [exact Hp|].
    split; [rewrite length_map, length_seq; reflexivity|].
    split; [exact Hbpm|]. split; [lia|].
    intros _. split.
    + assert (H : Js.round 180 = 180%Z).
      { unfold Js.round. apply Zfloor_eq. lra. }
      rewrite H. reflexivity.
    + rewrite Forall_forall. intros v Hv.
      apply in_map_iff in Hv. destruct Hv as [i [Hv _]]. subst v.
      pose proof (Hr (S (S n) + i)%nat). unfold in_unit. lra.
Qed.

Lemma analyzeAudioFile_result_witness :
  match AudioAnalysis.analyzeAudioFile Samples.view0 Samples.random_mid 0 with
  | (Normal a, n') => (1 <= AudioAnalysis.a_bars a)%Z
  | (Throw e, n') => AudioAnalysis.ffmpeg_available Samples.view0 = true
  end.
Proof.
  assert (Hu : unit_random Samples.random_mid).
  { intros i. unfold Samples.random_mid. lra. }
  pose proof (analyzeAudioFile_result Samples.view0 Samples.random_mid 0 Hu)
    as H.
  destruct (AudioAnalysis.analyzeAudioFile Samples.view0 Samples.random_mid 0)
    as [[a|e] n'].
  - destruct H as [_ [H _]]. exact H.
  - destruct H as [H _]. exact H.
Defined.
